(** * Home365 property-management agent: security layer and orchestrator

    A shallow embedding of [src/agent/security.py] (the SQL safety validator,
    the access-scope checks and the RBAC rewriter), of
    [src/agent/database.py] (the executor wrapper), of
    [src/agent/graph.py] (the LangGraph state machine and [query]) and of
    [src/agent/memory.py] (the conversation memory), with the properties of
    the specification stated and proved over it, and further properties of
    the code after them.

    Text.  Python [str] values are modelled by [string], for text of ASCII
    characters: on the codes below 128 the classes and the case maps of this
    file ([\w], [\s], [\d], [\b], [str.isspace], [upper], [lower],
    [rstrip], [re.IGNORECASE]) are Python's.  Python's classes and case maps
    on the other characters of Unicode (accented letters, further white space
    and digits, case maps that change the length of a text) are not modelled:
    a property that tells the result of a text function from these classes
    is stated for [ascii_text] arguments.  The codes from 128 on occur in
    constants of the code only (the bullet of the canned answer), where they
    are inert.

    Runs.  [graph.invoke] is modelled with a bound on the number of node
    runs, as LangGraph bounds them by its recursion limit (25 by default,
    [query] passes no other); a run that the bound cuts short has no final
    state. *)

From Stdlib Require Import String Ascii List Bool Arith ZArith Lia.
From Stdlib Require Import DecimalString QArith Qabs Qminmax.
Import ListNotations.

Close Scope Q_scope.
Open Scope nat_scope.

Open Scope bool_scope.
Open Scope list_scope.
Open Scope string_scope.

(* ================================================================= *)
(** ** Characters *)

Definition code (c : ascii) : nat := nat_of_ascii c.

Definition in_range (lo hi : nat) (c : ascii) : bool :=
  (lo <=? code c)%nat && (code c <=? hi)%nat.

Definition is_upper_letter (c : ascii) : bool := in_range 65 90 c.
Definition is_lower_letter (c : ascii) : bool := in_range 97 122 c.
Definition is_digit (c : ascii) : bool := in_range 48 57 c.

(** Below 128, where Python's classes are the ones modelled here. *)
Definition is_ascii (c : ascii) : bool := (code c <? 128)%nat.

(** [\w] on ASCII text: letters, digits and the underscore.  Python's [\w]
    also holds of the letters and digits beyond ASCII. *)
Definition is_word (c : ascii) : bool :=
  is_upper_letter c || is_lower_letter c || is_digit c || (code c =? 95)%nat.

(** [\s] and [str.isspace] on ASCII text: TAB, LF, VT, FF, CR, the four
    separators FS GS RS US, and the space.  Python's also hold of the white
    space beyond ASCII (the no-break space and others). *)
Definition is_space (c : ascii) : bool :=
  in_range 9 13 c || in_range 28 31 c || (code c =? 32)%nat.

(** [.] without DOTALL: every character but the line feed. *)
Definition is_dot (c : ascii) : bool := negb (code c =? 10)%nat.

(** [str.upper] and [str.lower] on ASCII text, character by character.
    Python's maps also change letters beyond ASCII. *)
Definition upper_char (c : ascii) : ascii :=
  if is_lower_letter c then ascii_of_nat (code c - 32) else c.

Definition lower_char (c : ascii) : ascii :=
  if is_upper_letter c then ascii_of_nat (code c + 32) else c.

(* ================================================================= *)
(** ** Strings: the [str] methods the source uses *)

Fixpoint smap (f : ascii -> ascii) (s : string) : string :=
  match s with
  | EmptyString => EmptyString
  | String c s' => String (f c) (smap f s')
  end.

Definition upper : string -> string := smap upper_char.
Definition lower : string -> string := smap lower_char.

Fixpoint sforall (p : ascii -> bool) (s : string) : bool :=
  match s with
  | EmptyString => true
  | String c s' => p c && sforall p s'
  end.

(** [s.startswith(p)] *)
(** Text of ASCII characters only. *)
Definition ascii_text (s : string) : bool := sforall is_ascii s.

Fixpoint startswith (p s : string) : bool :=
  match p, s with
  | EmptyString, _ => true
  | String a p', String b s' => Ascii.eqb a b && startswith p' s'
  | String _ _, EmptyString => false
  end.

(** [sub in s] *)
Fixpoint contains (sub s : string) : bool :=
  startswith sub s ||
  match s with
  | EmptyString => false
  | String _ s' => contains sub s'
  end.

(** [s[:n]] and [s[n:]] for [0 <= n] *)
Fixpoint take (n : nat) (s : string) : string :=
  match n, s with
  | S n', String c s' => String c (take n' s')
  | _, _ => EmptyString
  end.

Fixpoint drop (n : nat) (s : string) : string :=
  match n, s with
  | S n', String _ s' => drop n' s'
  | _, _ => s
  end.

(** [s.rstrip(chars)]: the trailing run of characters satisfying [p] is
    removed. *)
Fixpoint rstrip_by (p : ascii -> bool) (s : string) : string :=
  match s with
  | EmptyString => EmptyString
  | String c s' =>
      match rstrip_by p s' with
      | EmptyString => if p c then EmptyString else String c EmptyString
      | r => String c r
      end
  end.

Fixpoint lstrip_by (p : ascii -> bool) (s : string) : string :=
  match s with
  | EmptyString => EmptyString
  | String c s' => if p c then lstrip_by p s' else s
  end.

Definition rstrip : string -> string := rstrip_by is_space.
Definition strip (s : string) : string := rstrip (lstrip_by is_space s).
Definition semicolon : ascii := ";"%char.
Definition rstrip_semicolon : string -> string := rstrip_by (Ascii.eqb semicolon).

(** [s.replace(old, new)] for a non-empty [old]: the occurrences are replaced
    from left to right and do not overlap. *)
Fixpoint replace_skip (old new : string) (skip : nat) (s : string) : string :=
  match s with
  | EmptyString => EmptyString
  | String c s' =>
      match skip with
      | S k => replace_skip old new k s'
      | O =>
          if startswith old s
          then new ++ replace_skip old new (String.length old - 1) s'
          else String c (replace_skip old new 0 s')
      end
  end.

Definition replace (old new s : string) : string := replace_skip old new 0 s.

(** [str(n)] for a Python [int]. *)
Definition str_of_int (z : Z) : string := NilZero.string_of_int (Z.to_int z).

(** Python truthiness of an [Optional[str]]. *)
Definition truthy (o : option string) : bool :=
  match o with
  | Some (String _ _) => true
  | _ => false
  end.

(* ================================================================= *)
(** ** Regular expressions: the fragment of [re] the source uses

    A backtracking matcher with Python's priorities: alternatives from left
    to right, greedy repetition, the optional group tried before its
    omission.  Repetition is only ever applied to a one-character class in
    the source ([\s*], [.*], [\s+], [\w+], [[^\s]+]). *)

Inductive regex : Type :=
| Eps
| Chr (a : ascii)
| Cls (p : ascii -> bool)
| Bnd
| Seq (r1 r2 : regex)
| Alt (r1 r2 : regex)
| Opt (r : regex)
| Star (p : ascii -> bool)
| Plus (p : ascii -> bool)
| Grp (r : regex).

Declare Scope regex_scope.
Delimit Scope regex_scope with re.
Bind Scope regex_scope with regex.
Notation "r1 ;; r2" := (Seq r1 r2) (at level 61, right associativity) : regex_scope.

Fixpoint lit (s : string) : regex :=
  match s with
  | EmptyString => Eps
  | String a s' => Seq (Chr a) (lit s')
  end.

(** The matcher's position in the subject: the offset, the character before
    it, the text from it on, and the span of group 1 once it has closed. *)
Record cursor : Type := Cur {
  c_pos : nat;
  c_prev : option ascii;
  c_rest : string;
  c_grp : option (nat * nat)
}.

Definition word_opt (o : option ascii) : bool :=
  match o with
  | Some c => is_word c
  | None => false
  end.

Definition shead (s : string) : option ascii :=
  match s with
  | EmptyString => None
  | String c _ => Some c
  end.

(** [\b]: exactly one side of the position is a word character. *)
Definition at_boundary (prev : option ascii) (rest : string) : bool :=
  xorb (word_opt prev) (word_opt (shead rest)).

Section Matcher.
Variable ic : bool.   (* re.IGNORECASE *)
Variable A : Type.

Definition chr_eq (a b : ascii) : bool :=
  if ic then Ascii.eqb (lower_char a) (lower_char b) else Ascii.eqb a b.

Fixpoint rep (p : ascii -> bool) (k : cursor -> option A)
         (pos : nat) (prev : option ascii) (g : option (nat * nat))
         (s : string) {struct s} : option A :=
  match s with
  | String a s' =>
      if p a then
        match rep p k (S pos) (Some a) g s' with
        | Some x => Some x
        | None => k (Cur pos prev s g)
        end
      else k (Cur pos prev s g)
  | EmptyString => k (Cur pos prev s g)
  end.

Definition one_char (p : ascii -> bool) (k : cursor -> option A) (cu : cursor)
  : option A :=
  match c_rest cu with
  | String b s' =>
      if p b then k (Cur (S (c_pos cu)) (Some b) s' (c_grp cu)) else None
  | EmptyString => None
  end.

Fixpoint rmatch (r : regex) (k : cursor -> option A) (cu : cursor)
  : option A :=
  match r with
  | Eps => k cu
  | Chr a => one_char (chr_eq a) k cu
  | Cls p => one_char p k cu
  | Bnd => if at_boundary (c_prev cu) (c_rest cu) then k cu else None
  | Seq r1 r2 => rmatch r1 (rmatch r2 k) cu
  | Alt r1 r2 =>
      match rmatch r1 k cu with
      | Some x => Some x
      | None => rmatch r2 k cu
      end
  | Opt r1 =>
      match rmatch r1 k cu with
      | Some x => Some x
      | None => k cu
      end
  | Star p => rep p k (c_pos cu) (c_prev cu) (c_grp cu) (c_rest cu)
  | Plus p =>
      one_char p (fun cu' => rep p k (c_pos cu') (c_prev cu') (c_grp cu')
                            (c_rest cu')) cu
  | Grp r1 =>
      rmatch r1
        (fun cu' => k (Cur (c_pos cu') (c_prev cu') (c_rest cu')
                           (Some (c_pos cu, c_pos cu')))) cu
  end.
End Matcher.

Arguments rep {A} p k pos prev g s.
Arguments one_char {A} p k cu.
Arguments rmatch ic {A} r k cu.

(** A match object: [m.start()], [m.end()] and the span of [m.group(1)]. *)
Record match_obj : Type := Match {
  m_start : nat;
  m_end : nat;
  m_span1 : option (nat * nat)
}.

Definition match_here (ic : bool) (r : regex) (pos : nat)
           (prev : option ascii) (s : string) : option match_obj :=
  rmatch ic r (fun cu => Some (Match pos (c_pos cu) (c_grp cu)))
         (Cur pos prev s None).

(** [re.search]: the first position, from the left, at which the pattern
    matches. *)
Fixpoint search_from (ic : bool) (r : regex) (pos : nat)
         (prev : option ascii) (s : string) : option match_obj :=
  match match_here ic r pos prev s with
  | Some m => Some m
  | None =>
      match s with
      | EmptyString => None
      | String a s' => search_from ic r (S pos) (Some a) s'
      end
  end.

Definition re_search (ic : bool) (r : regex) (s : string) : option match_obj :=
  search_from ic r 0 None s.

Definition is_some {A : Type} (o : option A) : bool :=
  match o with
  | Some _ => true
  | None => false
  end.

(** [if re.search(pattern, s, flags):] *)
Definition re_test (ic : bool) (r : regex) (s : string) : bool :=
  is_some (re_search ic r s).

(** [m.group(1)] read off the subject. *)
Definition group1 (m : match_obj) (s : string) : string :=
  match m_span1 m with
  | Some (b, e) => take (e - b) (drop b s)
  | None => EmptyString
  end.

(** [re.sub(pattern, repl, s)] for a pattern that matches no empty string:
    matches are replaced from left to right and do not overlap. *)
Fixpoint sub_from (r : regex) (repl : string) (pos : nat)
         (prev : option ascii) (skip : nat) (s : string) : string :=
  match s with
  | EmptyString => EmptyString
  | String a s' =>
      match skip with
      | S k => sub_from r repl (S pos) (Some a) k s'
      | O =>
          match match_here false r pos prev s with
          | Some m =>
              repl ++ sub_from r repl (S pos) (Some a) (m_end m - pos - 1) s'
          | None => String a (sub_from r repl (S pos) (Some a) 0 s')
          end
      end
  end.

Definition re_sub (r : regex) (repl s : string) : string :=
  sub_from r repl 0 None 0 s.

(* ================================================================= *)
(** ** [agent/state.py]: the user context *)

Record UserContext : Type := mkUserContext {
  user_id : Z;
  role : string;
  owner_id : option Z
}.

(** [f"{owner_id}"] for an [Optional[int]]. *)
Definition str_of_owner_id (o : option Z) : string :=
  match o with
  | Some z => str_of_int z
  | None => "None"
  end.

(* ================================================================= *)
(** ** [agent/security.py]: [SecurityValidator] *)

Module SecurityValidator.

(** [r'\bW\b'] *)
Definition word_pat (w : string) : regex := (Bnd ;; lit w ;; Bnd)%re.

(** A pattern kept with its source text, which [validate_query] prints. *)
Definition DML_WORDS : list string :=
  [ "INSERT"; "UPDATE"; "DELETE"; "DROP"; "TRUNCATE"; "ALTER"; "CREATE";
    "REPLACE"; "EXEC"; "EXECUTE" ].

Definition pattern_text (w : string) : string := "\b" ++ w ++ "\b".

Definition DML_PATTERNS : list (string * regex) :=
  map (fun w => (pattern_text w, word_pat w)) DML_WORDS.

Definition OWNER_WORDS : list string :=
  [ "LLC1"; "LLC2"; "LLC3"; "LLC4"; "LLC5" ].

Definition OWNER_NAMES : list regex := map word_pat OWNER_WORDS.

Definition dq : string := String (ascii_of_nat 34) EmptyString.
Definition nl : string := String (ascii_of_nat 10) EmptyString.

Definition conversational_patterns : list regex :=
  map word_pat
    [ "hello"; "hi"; "hey"; "greetings";
      "how are you"; "how's it going";
      "what can you do"; "what are you"; "who are you";
      "help me"; "explain"; "tell me about yourself";
      "good morning"; "good afternoon"; "good evening";
      "thank you"; "thanks"; "bye"; "goodbye" ].

Definition conversational_response : string :=
  "I'm a property management AI assistant specialized in analyzing your real estate data." ++ nl ++
  nl ++
  "I can help you with:" ++ nl ++
  "• Property counts and statistics" ++ nl ++
  "• Rent analysis and averages" ++ nl ++
  "• Profitability calculations" ++ nl ++
  "• Unit details and occupancy" ++ nl ++
  "• Property searches and filters" ++ nl ++
  nl ++
  "Try asking:" ++ nl ++
  "- " ++ dq ++ "How many properties do I have?" ++ dq ++ nl ++
  "- " ++ dq ++ "What is my most profitable property?" ++ dq ++ nl ++
  "- " ++ dq ++ "What's the average rent I received?" ++ dq ++ nl ++
  "- " ++ dq ++ "Show me properties in Arizona" ++ dq ++ nl ++
  nl ++
  "What would you like to know about your properties?".

(** [is_data_query]: the first conversational pattern found in the
    lower-cased, stripped question makes it a non-data query. *)
Definition is_data_query (user_query : string) : bool * string :=
  let query_lower := strip (lower user_query) in
  if existsb (fun p => re_test false p query_lower) conversational_patterns
  then (false, conversational_response)
  else (true, "").

Definition sensitive_patterns : list regex :=
  [ word_pat "address"; word_pat "tenant"; word_pat "name";
    word_pat "contact"; word_pat "phone"; word_pat "email";
    word_pat "unit number";
    (Bnd ;; lit "list" ;; Bnd ;; Star is_dot ;; Bnd ;; lit "properties" ;; Bnd)%re;
    (Bnd ;; lit "show" ;; Bnd ;; Star is_dot ;; Bnd ;; lit "properties" ;; Bnd)%re ].

Definition owner_patterns : list regex :=
  [ (Bnd ;; lit "llc" ;; Star is_space ;; Cls (in_range 49 54) ;; Bnd)%re;
    (Bnd ;; lit "llc" ;; Cls (in_range 49 54) ;; Bnd)%re;
    (Bnd ;; lit "owner" ;; Plus is_space ;; Cls (in_range 49 54) ;; Bnd)%re;
    (Bnd ;; lit "for" ;; Plus is_space ;; lit "llc")%re;
    (Bnd ;; lit "of" ;; Plus is_space ;; lit "llc")%re;
    (Bnd ;; lit "does" ;; Plus is_space ;; lit "llc")%re;
    (Bnd ;; lit "do" ;; Plus is_space ;; lit "llc")%re ].

Definition forbidden_terms : list string :=
  [ "all properties"; "total properties"; "entire"; "every property";
    "admin"; "all owners"; "everyone" ].

Definition viewer_sensitive_msg : string :=
  "Access denied: Viewers can only access aggregated data (counts, averages, totals). Detailed property information is restricted to admin users.".

Definition viewer_owner_msg : string :=
  "Access denied: Viewers cannot query data for specific owners. You can only access aggregated statistics across all properties.".

Definition other_owner_msg (o : option Z) : string :=
  "Access denied: As an owner, you can only view your own properties (LLC"
    ++ str_of_owner_id o ++ "). You cannot query other owners' data.".

Definition forbidden_term_msg : string :=
  "Access denied: As an owner, you can only view your own properties. Try asking 'How many properties do I have?' instead.".

(** The viewer block of [validate_query_intent]: [Some reason] when one of
    its two loops returns. *)
Definition viewer_denial (query_lower : string) : option string :=
  if existsb (fun p => re_test false p query_lower) sensitive_patterns
  then Some viewer_sensitive_msg
  else if existsb (fun p => re_test false p query_lower) owner_patterns
  then Some viewer_owner_msg
  else None.

Definition validate_query_intent (user_query : string) (uc : UserContext)
  : bool * string :=
  let query_lower := lower user_query in
  match (if lower (role uc) =? "viewer" then viewer_denial query_lower
         else None) with
  | Some reason => (false, reason)
  | None =>
      if negb (lower (role uc) =? "owner") then (true, "")
      else
        let current_owner := "LLC" ++ str_of_owner_id (owner_id uc) in
        if existsb (fun p => re_test true p user_query
                             && negb (contains (lower current_owner) query_lower))
                   OWNER_NAMES
        then (false, other_owner_msg (owner_id uc))
        else if existsb (fun term => contains term query_lower) forbidden_terms
        then (false, forbidden_term_msg)
        else (true, "")
  end.

Definition injection_patterns : list regex :=
  [ (Chr ";" ;; Star is_space ;; lit "DROP")%re;
    (lit "--" ;; Star is_dot ;; lit "DROP")%re;
    (lit "/*" ;; Star is_dot ;; lit "DROP" ;; Star is_dot ;; lit "*/")%re;
    (lit "UNION" ;; Star is_dot ;; lit "SELECT" ;; Star is_dot ;; lit "FROM")%re ].

(** [validate_query]: the first DML pattern found in the upper-cased SQL
    is reported; else any injection pattern; else the query is valid. *)
Definition validate_query (sql : string) : bool * string :=
  let sql_upper := upper sql in
  match find (fun p => re_test true (snd p) sql_upper) DML_PATTERNS with
  | Some p => (false, "Forbidden SQL operation detected: " ++ fst p)
  | None =>
      if existsb (fun p => re_test true p sql_upper) injection_patterns
      then (false, "Potential SQL injection detected")
      else (true, "")
  end.

(** [r'\b(?:FROM|JOIN)\s+PROPERTIES\s+(?:AS\s+)?(\w+)'] *)
Definition alias_pattern : regex :=
  (Bnd ;; Alt (lit "FROM") (lit "JOIN") ;; Plus is_space ;; lit "PROPERTIES"
     ;; Plus is_space ;; Opt (lit "AS" ;; Plus is_space)
     ;; Grp (Plus is_word))%re.

Definition TERMINAL_WORDS : list string :=
  [ "GROUP BY"; "ORDER BY"; "LIMIT"; "OFFSET" ].

Definition terminal_clauses : list regex := map word_pat TERMINAL_WORDS.

(** The three [rstrip] calls at the head of the rewriter. *)
Definition strip_terminator (sql : string) : string :=
  rstrip (rstrip_semicolon (rstrip sql)).

(** The statement names the Properties table after FROM or JOIN, the way
    the rewriter looks for it: ['FROM PROPERTIES' in sql_upper] or
    ['JOIN PROPERTIES' in sql_upper]. *)
Definition references_properties (sql : string) : bool :=
  contains "FROM PROPERTIES" (upper sql) || contains "JOIN PROPERTIES" (upper sql).

Definition table_ref (sql : string) : string :=
  match re_search true alias_pattern sql with
  | Some m => group1 m sql
  | None => "Properties"
  end.

(** [f"{table_ref}.owner_id = {owner_id}"] *)
Definition owner_condition (sql : string) (oid : option Z) : string :=
  table_ref sql ++ ".owner_id = " ++ str_of_owner_id oid.

(** The loop over [terminal_clauses]: the least start of a match, the
    length of the statement when there is none. *)
Definition insert_pos (sql : string) : nat :=
  fold_left
    (fun pos pat =>
       match re_search true pat sql with
       | Some m => if (m_start m <? pos)%nat then m_start m else pos
       | None => pos
       end)
    terminal_clauses (String.length sql).

Definition apply_rbac (sql : string) (uc : UserContext) : string :=
  if negb (lower (role uc) =? "owner") || negb (is_some (owner_id uc))
  then sql
  else
    let sql := strip_terminator sql in
    let sql_upper := upper sql in
    if negb (contains "FROM PROPERTIES" sql_upper)
       && negb (contains "JOIN PROPERTIES" sql_upper)
    then sql
    else
      let cond := owner_condition sql (owner_id uc) in
      match re_search true (word_pat "WHERE") sql with
      | Some where_match =>
          take (m_end where_match) sql ++ " " ++ cond ++ " AND "
            ++ drop (m_end where_match) sql
      | None =>
          let pos := insert_pos sql in
          rstrip (take pos sql) ++ " WHERE " ++ cond ++ " " ++ drop pos sql
      end.

(** [sanitize_error]: POSIX and Windows paths are redacted. *)
Definition not_space (c : ascii) : bool := negb (is_space c).

Definition sanitize_error (error : string) : string :=
  let error := re_sub (Chr "/" ;; Plus not_space ;; Chr "/")%re "[PATH]/" error in
  re_sub (Cls is_upper_letter ;; Chr ":" ;; Chr "\" ;; Plus not_space)%re
         "[PATH]" error.

End SecurityValidator.

(* ================================================================= *)
(** ** Exceptions and the generator-call counter

    A node either returns or raises; [Raise msg] carries [str(e)].  The
    number of calls made to the text generator so far is threaded through
    the run, so that the n-th call can be told from the others. *)

Inductive result (A : Type) : Type :=
| Ok (a : A)
| Raise (msg : string).

Arguments Ok {A} a.
Arguments Raise {A} msg.

Definition M (A : Type) : Type := nat -> result (A * nat).

Definition ret {A : Type} (a : A) : M A := fun calls => Ok (a, calls).

Definition raise {A : Type} (msg : string) : M A := fun _ => Raise msg.

Definition bind {A B : Type} (m : M A) (f : A -> M B) : M B :=
  fun calls =>
    match m calls with
    | Ok (a, calls') => f a calls'
    | Raise msg => Raise msg
    end.

Definition lift {A : Type} (r : result A) : M A :=
  fun calls =>
    match r with
    | Ok a => Ok (a, calls)
    | Raise msg => Raise msg
    end.

Notation "'do' x <- m ;; k" := (bind m (fun x => k))
  (at level 10, x name, m at level 60, k at level 200).

(* ================================================================= *)
(** ** [agent/graph.py]: [PropertyManagementAgent] *)

Inductive node : Type :=
| generate_sql
| validate_sql
| execute_sql
| handle_error
| generate_answer
| END.

Section Agent.

(** A pandas result, the schema dictionary, and the floats of the
    confidence score. *)
Context {DataFrame Schema Confidence : Type}.

(** [agent/state.py]: [AgentState] *)
Record AgentState : Type := mkState {
  messages : list (string * string);
  user_context : UserContext;
  user_query : string;
  sql_query : option string;
  sql_result : option DataFrame;
  final_answer : option string;
  retry_count : Z;
  error_log : list string;
  schema_metadata : Schema;
  validation_passed : bool;
  confidence_score : Confidence
}.

(** The agent object: [max_retries] and what its collaborators answer.

    - [llm_invoke n state] is [self.llm.invoke(messages).content] for the
      n-th call of the run; the prompt is built from the state, so the
      call is given the state it is made in;
    - [read_sql_query] is [sqlite3.connect] with [pd.read_sql_query];
    - [get_schema_metadata] and [get_schema_description] are those of
      [self.db_manager];
    - [agent/validation.py] is not part of the sources: the two methods of
      [AnswerValidator] the answer node calls are taken as given, on the
      data frame the node converts for them;
    - [DEBUG_MODE] is [os.getenv("DEBUG_MODE")]. *)
Record PropertyManagementAgent : Type := mkAgent {
  max_retries : Z;
  llm_invoke : nat -> AgentState -> result string;
  read_sql_query : option string -> result DataFrame;
  get_schema_metadata : result Schema;
  get_schema_description : result string;
  nrows : DataFrame -> nat;
  validate_answer : DataFrame -> string -> bool * option string * Confidence;
  format_validated_answer :
    string -> bool -> option string -> Confidence -> option DataFrame
    -> string;
  confidence_one : Confidence;
  confidence_zero : Confidence;
  DEBUG_MODE : option string
}.

Variable self : PropertyManagementAgent.

Definition invoke_llm (state : AgentState) : M string :=
  fun calls =>
    match llm_invoke self calls state with
    | Ok content => Ok (content, S calls)
    | Raise msg => Raise msg
    end.

(** [DatabaseManager.execute_query]: any exception of the engine is
    caught and returned as the error text. *)
Definition execute_query (sql : option string)
  : bool * option DataFrame * string :=
  match read_sql_query self sql with
  | Ok df => (true, Some df, "")
  | Raise msg => (false, None, msg)
  end.

Definition set_final_answer (state : AgentState) (a : option string)
  : AgentState :=
  mkState (messages state) (user_context state) (user_query state)
          (sql_query state) (sql_result state) a (retry_count state)
          (error_log state) (schema_metadata state)
          (validation_passed state) (confidence_score state).

Definition set_sql_query (state : AgentState) (q : option string)
  : AgentState :=
  mkState (messages state) (user_context state) (user_query state)
          q (sql_result state) (final_answer state) (retry_count state)
          (error_log state) (schema_metadata state)
          (validation_passed state) (confidence_score state).

Definition set_sql_result (state : AgentState) (r : option DataFrame)
  : AgentState :=
  mkState (messages state) (user_context state) (user_query state)
          (sql_query state) r (final_answer state) (retry_count state)
          (error_log state) (schema_metadata state)
          (validation_passed state) (confidence_score state).

Definition set_retry_count (state : AgentState) (n : Z) : AgentState :=
  mkState (messages state) (user_context state) (user_query state)
          (sql_query state) (sql_result state) (final_answer state) n
          (error_log state) (schema_metadata state)
          (validation_passed state) (confidence_score state).

Definition append_error (state : AgentState) (e : string) : AgentState :=
  mkState (messages state) (user_context state) (user_query state)
          (sql_query state) (sql_result state) (final_answer state)
          (retry_count state) (error_log state ++ [e])%list
          (schema_metadata state)
          (validation_passed state) (confidence_score state).

Definition append_message (state : AgentState) (m : string * string)
  : AgentState :=
  mkState (messages state ++ [m])%list (user_context state)
          (user_query state)
          (sql_query state) (sql_result state) (final_answer state)
          (retry_count state) (error_log state) (schema_metadata state)
          (validation_passed state) (confidence_score state).

Definition set_validation (state : AgentState) (v : bool) (c : Confidence)
  : AgentState :=
  mkState (messages state) (user_context state) (user_query state)
          (sql_query state) (sql_result state) (final_answer state)
          (retry_count state) (error_log state) (schema_metadata state)
          v c.

(** [_generate_sql_node] *)
Definition _generate_sql_node (state : AgentState) : M AgentState :=
  match (if (retry_count state =? 0)%Z
         then SecurityValidator.is_data_query (user_query state)
         else (true, "")) with
  | (false, conversational_response) =>
      ret (set_final_answer state (Some conversational_response))
  | (true, _) =>
      let '(is_allowed, error_msg) :=
        SecurityValidator.validate_query_intent (user_query state)
                                                (user_context state) in
      if negb is_allowed then
        ret (set_final_answer
               (append_error state ("Authorization error: " ++ error_msg))
               (Some error_msg))
      else
        do _ <- lift (get_schema_description self) ;;
        do content <- invoke_llm state ;;
        let sql := strip content in
        let sql := strip (replace "```" "" (replace "```sql" "" sql)) in
        ret (append_message (set_sql_query state (Some sql))
                            ("assistant", "Generated SQL: " ++ sql))
  end.

(** [_validate_sql_node] *)
Definition _validate_sql_node (state : AgentState) : M AgentState :=
  match sql_query state with
  | None => raise "'NoneType' object has no attribute 'upper'"
  | Some sql =>
      let '(is_valid, error_msg) := SecurityValidator.validate_query sql in
      if negb is_valid then
        ret (append_error state
                          ("Security validation failed: " ++ error_msg))
      else
        let sql := SecurityValidator.apply_rbac sql (user_context state) in
        ret (set_sql_query state (Some sql))
  end.

(** [_execute_sql_node] *)
Definition _execute_sql_node (state : AgentState) : M AgentState :=
  let sql := sql_query state in
  match execute_query sql with
  | (true, Some df, _) =>
      ret (append_message
             (set_sql_result state (Some df))
             ("system",
              "Query executed successfully. Rows returned: "
                ++ str_of_int (Z.of_nat (nrows self df))))
  | (true, None, _) => raise "object of type 'NoneType' has no len()"
  | (false, _, error) =>
      let sanitized_error := SecurityValidator.sanitize_error error in
      ret (append_error state ("SQL execution error: " ++ sanitized_error))
  end.

(** [_handle_error_node] *)
Definition _handle_error_node (state : AgentState) : M AgentState :=
  ret (set_retry_count state (retry_count state + 1)%Z).

(** [_generate_answer_node]: the result summary and the conversation
    context only feed the prompt. *)
Definition _generate_answer_node (state : AgentState) : M AgentState :=
  match sql_result state with
  | None => raise "'NoneType' object has no attribute 'empty'"
  | Some result_df =>
      do content <- invoke_llm state ;;
      let llm_answer := strip content in
      let '(is_valid, warning, confidence) :=
        validate_answer self result_df llm_answer in
      let validated_answer :=
        format_validated_answer self llm_answer is_valid warning confidence
          (if negb is_valid then Some result_df else None) in
      ret (set_validation
             (set_final_answer state (Some validated_answer))
             is_valid confidence)
  end.

(** [error_log[-1]] of a non-empty log. *)
Definition last_error (log : list string) : option string :=
  last (map Some log) None.

(** [_sql_generation_router] *)
Definition _sql_generation_router (state : AgentState) : string :=
  if truthy (final_answer state) then "blocked" else "validate".

(** [_validation_router] *)
Definition _validation_router (state : AgentState) : string :=
  match last_error (error_log state) with
  | Some e =>
      if startswith "Security validation" e then "error" else "execute"
  | None => "execute"
  end.

(** [_execution_router] *)
Definition _execution_router (state : AgentState) : string :=
  if is_some (sql_result state) then "success" else "error".

(** [_error_router] *)
Definition _error_router (state : AgentState) : string :=
  if (retry_count state <? max_retries self)%Z then "retry" else "fail".

(** [_build_graph]: the conditional edges, as the dictionaries given to
    [add_conditional_edges]. *)
Fixpoint edge (label : string) (targets : list (string * node))
  : result node :=
  match targets with
  | [] => Raise label
  | (l, n) :: rest => if l =? label then Ok n else edge label rest
  end.

Definition route (n : node) (state : AgentState) : result node :=
  match n with
  | generate_sql =>
      edge (_sql_generation_router state)
           [("validate", validate_sql); ("blocked", END)]
  | validate_sql =>
      edge (_validation_router state)
           [("execute", execute_sql); ("error", handle_error)]
  | execute_sql =>
      edge (_execution_router state)
           [("success", generate_answer); ("error", handle_error)]
  | handle_error =>
      edge (_error_router state)
           [("retry", generate_sql); ("fail", END)]
  | generate_answer => Ok END
  | END => Ok END
  end.

Definition run_node (n : node) (state : AgentState) : M AgentState :=
  match n with
  | generate_sql => _generate_sql_node state
  | validate_sql => _validate_sql_node state
  | execute_sql => _execute_sql_node state
  | handle_error => _handle_error_node state
  | generate_answer => _generate_answer_node state
  | END => ret state
  end.

(** One move of the compiled graph: the node runs, then its router picks
    the next node. *)
Definition step (n : node) (state : AgentState) : M (node * AgentState) :=
  do state' <- run_node n state ;;
  do n' <- lift (route n state') ;;
  ret (n', state').

(** [self.graph.invoke]: moves are made until [END]; [None] when the
    fuel does not reach it.  The fuel is the number of node runs that the
    recursion limit of LangGraph admits; where the model gives [None],
    LangGraph raises [GraphRecursionError]. *)
Fixpoint invoke (fuel : nat) (n : node) (state : AgentState)
  : M (option AgentState) :=
  match n with
  | END => ret (Some state)
  | _ =>
      match fuel with
      | O => ret None
      | S fuel' =>
          do ns <- step n state ;;
          invoke fuel' (fst ns) (snd ns)
      end
  end.

(** The dictionary [query] returns; [error_type] and [technical_details]
    are [None] when the key is absent or holds [None]. *)
Record Response : Type := mkResponse {
  success : bool;
  answer : string;
  r_sql_query : option string;
  r_retry_count : Z;
  errors : list string;
  r_validation_passed : bool;
  confidence : Confidence;
  error_type : option string;
  technical_details : option string
}.

Definition debug_enabled : bool :=
  lower (match DEBUG_MODE self with Some v => v | None => "false" end)
  =? "true".

(** The [if]/[elif] chain of [_handle_query_error]: the friendly message
    and the error type. *)
Definition classify_error (error_msg : string) : string * string :=
  if contains "RESOURCE_EXHAUSTED" error_msg || contains "429" error_msg
     || contains "quota" (lower error_msg)
  then ("I've reached my API usage limit. Please try again in a minute or contact your administrator for a higher quota tier.",
        "API_QUOTA")
  else if contains "API_KEY" error_msg
          || contains "authentication" (lower error_msg)
          || contains "401" error_msg
  then ("I'm having trouble connecting to my AI service. Please contact your administrator to verify the API key configuration.",
        "API_AUTH")
  else if contains "connection" (lower error_msg)
          || contains "timeout" (lower error_msg)
  then ("I'm having trouble connecting to my AI service. Please check your internet connection and try again in a moment.",
        "NETWORK")
  else if contains "database" (lower error_msg)
          || contains "sqlite" (lower error_msg)
  then ("I'm having trouble accessing the database. Please ensure the database file exists.",
        "DATABASE")
  else ("I encountered an unexpected error while processing your question. Please try rephrasing or contact your administrator.",
        "GENERAL").

(** [_handle_query_error] *)
Definition _handle_query_error (error_msg : string) (user_query : string)
  : Response :=
  let '(friendly_msg, error_type) := classify_error error_msg in
  mkResponse false friendly_msg None 0%Z [error_type] true
             (confidence_zero self)
             (Some error_type)
             (if debug_enabled then Some error_msg else None).

Definition initial_state (user_query : string) (uc : UserContext)
           (schema : Schema) : AgentState :=
  mkState [] uc user_query None None None 0%Z [] schema true
          (confidence_one self).

Definition apology : string :=
  "I apologize, but I couldn't generate an answer. Please try rephrasing your question.".

(** The response built from the final state. *)
Definition prepare_response (final_state : AgentState) : Response :=
  mkResponse (is_some (final_answer final_state))
             (if truthy (final_answer final_state)
              then match final_answer final_state with
                   | Some a => a
                   | None => apology
                   end
              else apology)
             (sql_query final_state)
             (retry_count final_state)
             (error_log final_state)
             (validation_passed final_state)
             (confidence_score final_state)
             None None.

(** The body of the [try] block of [query], up to the final state: the
    initial state, then the graph. *)
Definition query_run (fuel : nat) (user_query : string) (uc : UserContext)
  : M (option AgentState) :=
  do schema <- lift (get_schema_metadata self) ;;
  invoke fuel generate_sql (initial_state user_query uc schema).

(** [query]: [None] when the fuel does not reach the end of the run (the
    program then answers as it does for any other exception of the graph,
    with the response of [_handle_query_error] for the text of
    [GraphRecursionError], which is not modelled).  The conversation
    memory, written after the run, is a collaborator outside the
    response. *)
Definition query (fuel : nat) (user_query : string) (uc : UserContext)
  : option Response :=
  match query_run fuel user_query uc 0 with
  | Ok (Some final_state, _) => Some (prepare_response final_state)
  | Ok (None, _) => None
  | Raise msg => Some (_handle_query_error msg user_query)
  end.

(** Fuel that reaches [END] whatever the collaborators answer. *)
Definition enough_fuel : nat := 4 * Z.to_nat (max_retries self) + 5.

(** The default of [config["recursion_limit"]] in LangGraph, the limit of
    every run that [query] starts.  It admits 24 node runs at the least. *)
Definition DEFAULT_RECURSION_LIMIT : nat := 25.

(** The points of a run: [reach q uc schema k n state calls] when, [k]
    moves after the start, the graph is about to run node [n] in [state],
    [calls] calls having been made to the generator. *)
Inductive reach (user_query : string) (uc : UserContext) (schema : Schema)
  : nat -> node -> AgentState -> nat -> Prop :=
| reach_start :
    reach user_query uc schema 0 generate_sql
          (initial_state user_query uc schema) 0
| reach_step : forall k n state calls n' state' calls',
    reach user_query uc schema k n state calls ->
    n <> END ->
    step n state calls = Ok ((n', state'), calls') ->
    reach user_query uc schema (S k) n' state' calls'.


(** The moves left before [END], at most. *)
Definition moves_left (n : node) (state : AgentState) : nat :=
  4 * Z.to_nat (max_retries self - retry_count state)
  + match n with
    | generate_sql => 4
    | validate_sql => 3
    | execute_sql => 2
    | handle_error => 1
    | generate_answer => 1
    | END => 0
    end.

(** What one move does to the retry counter and where it leads. *)
Definition step_post (n : node) (state : AgentState) (calls : nat)
           (n' : node) (state' : AgentState) (calls' : nat) : Prop :=
  match n with
  | generate_sql =>
      retry_count state' = retry_count state
      /\ (n' = validate_sql \/ n' = END)
  | validate_sql =>
      retry_count state' = retry_count state /\ calls' = calls
      /\ (n' = execute_sql \/ n' = handle_error)
  | execute_sql =>
      retry_count state' = retry_count state /\ calls' = calls
      /\ (n' = generate_answer \/ n' = handle_error)
  | handle_error =>
      state' = set_retry_count state (retry_count state + 1)%Z
      /\ calls' = calls
      /\ ((_error_router state' = "retry" /\ n' = generate_sql
           /\ (retry_count state + 1 < max_retries self)%Z)
          \/ (_error_router state' = "fail" /\ n' = END
              /\ (max_retries self <= retry_count state + 1)%Z))
  | generate_answer => retry_count state' = retry_count state /\ n' = END
  | END => False
  end.

End Agent.

Arguments AgentState : clear implicits.
Arguments PropertyManagementAgent : clear implicits.
Arguments Response : clear implicits.

(* ================================================================= *)
(** ** [agent/validation.py]: [AnswerValidator.numbers_match] *)

Module AnswerValidator.

Definition epsilon : Q := 1 # 100.

(** Modelled from the spec: [agent/validation.py] is not among the
    sources (only its tests are); [numbers_match] follows section 4.6 of
    the specification, on exact rationals: true when the larger magnitude
    is within the absolute epsilon of zero, else true iff
    [|a - b| <= tolerance * max(|a|, |b|)]. *)
Definition numbers_match (a b tolerance : Q) : bool :=
  let larger := Qmax (Qabs a) (Qabs b) in
  if negb (Qle_bool epsilon larger) then true
  else Qle_bool (Qabs (a - b)) (tolerance * larger).

(** The default [tolerance=0.02]. *)
Definition default_tolerance : Q := 2 # 100.

End AnswerValidator.

(* ================================================================= *)
(** ** The vocabulary of the specification *)

(** The character before the position reached after [x], [prev] being the
    one before [x]. *)
Fixpoint last_of (prev : option ascii) (x : string) : option ascii :=
  match x with
  | EmptyString => prev
  | String c x' => last_of (Some c) x'
  end.

(** Equal up to the case of the letters. *)
Definition same_ci (x w : string) : Prop := lower x = lower w.

(** [w] stands in [s] at offset [n] as a whole word, case-insensitively:
    no word character right before it, none right after it. *)
Definition whole_word_at (w s : string) (n : nat) : Prop :=
  exists a x b,
    s = a ++ x ++ b /\ String.length a = n /\ same_ci x w
    /\ word_opt (last_of None a) = false /\ word_opt (shead b) = false.

Definition whole_word_in (w s : string) : Prop :=
  exists n, whole_word_at w s n.


(** The injection shapes; [gap] tells which characters may stand between
    the parts of a shape. *)
Definition separator_then_drop (s : string) : Prop :=
  exists a ws x b,
    s = a ++ ";" ++ ws ++ x ++ b
    /\ sforall is_space ws = true /\ same_ci x "DROP".

Definition comment_token_then_drop (gap : ascii -> bool) (s : string) : Prop :=
  exists a m x b,
    s = a ++ "--" ++ m ++ x ++ b
    /\ sforall gap m = true /\ same_ci x "DROP".

Definition comment_block_with_drop (gap : ascii -> bool) (s : string) : Prop :=
  exists a m1 x m2 b,
    s = a ++ "/*" ++ m1 ++ x ++ m2 ++ "*/" ++ b
    /\ sforall gap m1 = true /\ sforall gap m2 = true /\ same_ci x "DROP".

Definition union_select_from (gap : ascii -> bool) (s : string) : Prop :=
  exists a u m1 x m2 f b,
    s = a ++ u ++ m1 ++ x ++ m2 ++ f ++ b
    /\ same_ci u "UNION" /\ sforall gap m1 = true /\ same_ci x "SELECT"
    /\ sforall gap m2 = true /\ same_ci f "FROM".

Definition injection_shape (gap : ascii -> bool) (s : string) : Prop :=
  separator_then_drop s \/ comment_token_then_drop gap s
  \/ comment_block_with_drop gap s \/ union_select_from gap s.

(** The maximal runs of word characters of a text, from left to right. *)
Fixpoint words (s : string) : list string :=
  match s with
  | EmptyString => []
  | String c s' =>
      if is_word c then
        if word_opt (shead s') then
          match words s' with
          | w :: ws => String c w :: ws
          | [] => [String c EmptyString]
          end
        else String c EmptyString :: words s'
      else words s'
  end.

(** The literal [w] read at the head of [x], character by character, the
    way the matcher compares them. *)
Fixpoint lit_eq (ic : bool) (w x : string) : bool :=
  match w, x with
  | EmptyString, EmptyString => true
  | String a w', String b x' => chr_eq ic a b && lit_eq ic w' x'
  | _, _ => false
  end.

(** The length of the longest prefix made of characters satisfying [p]. *)
Fixpoint span_len (p : ascii -> bool) (s : string) : nat :=
  match s with
  | String c s' => if p c then S (span_len p s') else 0
  | EmptyString => 0
  end.

Definition nonempty (s : string) : bool :=
  match s with
  | EmptyString => false
  | String _ _ => true
  end.

(** A keyword that begins and ends with a word character. *)
Definition word_like (w : string) : Prop :=
  word_opt (shead w) = true /\ word_opt (last_of None w) = true.

Definition not_word (c : ascii) : bool := negb (is_word c).

(** The characters of a decimal numeral. *)
Definition numeral_char (c : ascii) : bool := is_digit c || Ascii.eqb c "-".

(** The characters the rewriter strips from the end of a statement. *)
Definition terminator_char (c : ascii) : bool :=
  is_space c || Ascii.eqb semicolon c.

(** The first guard of the rewriter, negated: the role is owner and an
    owner id is set. *)
Definition scoped_to_owner (uc : UserContext) : bool :=
  (lower (role uc) =? "owner") && is_some (owner_id uc).

(** A terminal clause keyword stands in [s] at offset [n]. *)
Definition terminal_at (s : string) (n : nat) : Prop :=
  exists w, In w SecurityValidator.TERMINAL_WORDS /\ whole_word_at w s n.


(** Somewhere in [s] stand FROM or JOIN, white space, and a name that
    begins with PROPERTIES, the letters in any case. *)
Definition names_properties_after (s : string) : Prop :=
  exists a k ws t b,
    s = a ++ k ++ ws ++ t ++ b
    /\ (same_ci k "FROM" \/ same_ci k "JOIN")
    /\ nonempty ws = true /\ sforall is_space ws = true
    /\ same_ci t "PROPERTIES".

(** The caller's own identifier, [f"LLC{owner_id}"]. *)
Definition own_name (uc : UserContext) : string :=
  "LLC" ++ str_of_owner_id (owner_id uc).

(** A cursor of the matcher that stands in the subject [s]. *)
Definition coherent (s : string) (cu : cursor) : Prop :=
  exists pre,
    s = pre ++ c_rest cu /\ c_pos cu = String.length pre
    /\ c_prev cu = last_of None pre.

(* ================================================================= *)
(** ** Runs of the agent on given collaborators *)

Module Scenario.

(** A data frame is its number of rows, a confidence a percentage; the
    answer validator accepts every answer as it is. *)
Definition toy_agent (max_retries : Z)
           (llm : nat -> AgentState nat unit nat -> result string)
           (db : option string -> result nat)
  : PropertyManagementAgent nat unit nat :=
  mkAgent max_retries llm db (Ok tt) (Ok "schema") (fun df => df)
          (fun _ _ => (true, None, 100)) (fun a _ _ _ _ => a)
          100 0 None.

Definition db_three_rows (sql : option string) : result nat := Ok 3.


(** The generator answers a DROP first and a SELECT from then on. *)
Definition llm_drop_then_select (n : nat) (state : AgentState nat unit nat)
  : result string :=
  match n with
  | O => Ok "DROP TABLE Properties"
  | S _ => Ok "SELECT COUNT(*) FROM Properties"
  end.

Definition llm_select_foo (n : nat) (state : AgentState nat unit nat)
  : result string :=
  Ok "SELECT * FROM Foo".


(** The generator separates FROM and the table name by two spaces. *)
Definition llm_two_spaces (n : nat) (state : AgentState nat unit nat)
  : result string :=
  Ok "SELECT COUNT(*) FROM  Properties".

(** The generator filters on a column right after the table name. *)
Definition llm_where_city (n : nat) (state : AgentState nat unit nat)
  : result string :=
  Ok "SELECT * FROM Properties WHERE city = 'Austin'".

Definition admin : UserContext := mkUserContext 999 "admin" None.
Definition owner (n : Z) : UserContext := mkUserContext n "owner" (Some n).

End Scenario.

(* ================================================================= *)
(** ** Further vocabulary for the orchestrator *)

(** The clean-up of the generator's answer in [_generate_sql_node]. *)
Definition clean_sql (content : string) : string :=
  strip (replace "```" "" (replace "```sql" "" (strip content))).

(** The generator calls made when the graph is about to run node [n],
    beyond one per retry counted. *)
Definition calls_ahead (n : node) : Z :=
  match n with
  | generate_sql => 0
  | _ => 1
  end.

Definition backtick : ascii := "`"%char.
Definition fence : string := "```".

(** The log ends with a rejection of the validator, and the run is in the
    retry loop. *)
Definition in_rejection_loop {DataFrame Schema Confidence : Type}
           (n : node) (state : AgentState DataFrame Schema Confidence)
  : Prop :=
  _validation_router state = "error"
  /\ (n = validate_sql \/ n = handle_error
      \/ (n = generate_sql /\ retry_count state <> 0%Z)).

(** A second scenario: the generator wraps its statement in a markdown
    fence and ends it with a semicolon. *)
Module Fenced.

Definition llm_fenced_count (n : nat) (state : AgentState nat unit nat)
  : result string :=
  Ok ("```sql" ++ SecurityValidator.nl
        ++ "SELECT COUNT(*) FROM Properties p;" ++ SecurityValidator.nl
        ++ "```").

Definition agent : PropertyManagementAgent nat unit nat :=
  Scenario.toy_agent 3 llm_fenced_count Scenario.db_three_rows.

Definition question : string := "How many properties do I have?".

(** The state in which the validator node runs, and the state in which
    the executor node runs, for owner 2. *)
Definition generated : AgentState nat unit nat :=
  mkState [("assistant", "Generated SQL: SELECT COUNT(*) FROM Properties p;")]
          (Scenario.owner 2) question
          (Some "SELECT COUNT(*) FROM Properties p;") None None 0%Z []
          tt true 100.

Definition rewritten : AgentState nat unit nat :=
  mkState [("assistant", "Generated SQL: SELECT COUNT(*) FROM Properties p;")]
          (Scenario.owner 2) question
          (Some "SELECT COUNT(*) FROM Properties p WHERE p.owner_id = 2 ")
          None None 0%Z [] tt true 100.

(** A run that exhausts a budget of one retry on a rejected statement. *)
Definition rejecting : PropertyManagementAgent nat unit nat :=
  Scenario.toy_agent 1 Scenario.llm_drop_then_select Scenario.db_three_rows.

Definition exhausted : AgentState nat unit nat :=
  mkState [("assistant", "Generated SQL: DROP TABLE Properties")]
          Scenario.admin question (Some "DROP TABLE Properties") None None
          1%Z
          ["Security validation failed: Forbidden SQL operation detected: \bDROP\b"]
          tt true 100.

End Fenced.

(** The phrases of [conversational_patterns], the words of the first seven
    [sensitive_patterns], and the identifiers the second of the viewer's
    [owner_patterns] reads. *)
Definition CONVERSATIONAL_WORDS : list string :=
  [ "hello"; "hi"; "hey"; "greetings";
    "how are you"; "how's it going";
    "what can you do"; "what are you"; "who are you";
    "help me"; "explain"; "tell me about yourself";
    "good morning"; "good afternoon"; "good evening";
    "thank you"; "thanks"; "bye"; "goodbye" ].

Definition SENSITIVE_WORDS : list string :=
  [ "address"; "tenant"; "name"; "contact"; "phone"; "email"; "unit number" ].

Definition VIEWER_OWNER_DIGITS : list ascii :=
  [ "1"; "2"; "3"; "4"; "5"; "6" ]%char.

(** Any character but the semicolon. *)
Definition not_semicolon (c : ascii) : bool := negb (Ascii.eqb semicolon c).

(** The two patterns of [sanitize_error], and what they find read off the
    text: a slash, a character that is no white space, and a further slash
    before the next white space; a capital letter, a colon, a backslash
    and a character that is no white space. *)
Definition posix_path : regex :=
  (Chr "/" ;; Plus SecurityValidator.not_space ;; Chr "/")%re.

Definition windows_path : regex :=
  (Cls is_upper_letter ;; Chr ":" ;; Chr "\"
     ;; Plus SecurityValidator.not_space)%re.

Definition slash : ascii := "/"%char.

(** A slash stands before the first white space of [s]. *)
Fixpoint run_has_slash (s : string) : bool :=
  match s with
  | EmptyString => false
  | String c s' =>
      if is_space c then false else Ascii.eqb slash c || run_has_slash s'
  end.

Definition posix_here (s : string) : bool :=
  match s with
  | String a s1 =>
      Ascii.eqb slash a
      && match s1 with
         | String c s' => SecurityValidator.not_space c && run_has_slash s'
         | EmptyString => false
         end
  | EmptyString => false
  end.

Definition windows_here (s : string) : bool :=
  match s with
  | String x s1 =>
      is_upper_letter x
      && match s1 with
         | String c1 s2 =>
             Ascii.eqb ":" c1
             && match s2 with
                | String c2 s3 =>
                    Ascii.eqb "\" c2
                    && match s3 with
                       | String c _ => SecurityValidator.not_space c
                       | EmptyString => false
                       end
                | EmptyString => false
                end
         | EmptyString => false
         end
  | EmptyString => false
  end.

(** The text is empty or begins with white space. *)
Definition spaced (s : string) : bool :=
  match s with
  | String c _ => is_space c
  | EmptyString => true
  end.

(** [here] holds of some suffix of the text. *)
Fixpoint somewhere (here : string -> bool) (s : string) : bool :=
  here s ||
  match s with
  | EmptyString => false
  | String _ s' => somewhere here s'
  end.

(* ================================================================= *)
(** ** [agent/memory.py]: [ConversationMemory]

    The context of a turn is a [dict] with at most the four keys
    ['location'], ['property_type'], ['topic'] and ['owner']; it is kept as
    the four optional values.  [datetime.now().isoformat()] is an argument
    of [add_interaction]. *)

Module ConversationMemory.

Inductive ContextKey : Type :=
| location
| property_type
| topic
| owner.

Record Context : Type := mkContext {
  ctx_location : option string;
  ctx_property_type : option string;
  ctx_topic : option string;
  ctx_owner : option string
}.

(** [context.get(key)] *)
Definition get (key : ContextKey) (context : Context) : option string :=
  match key with
  | location => ctx_location context
  | property_type => ctx_property_type context
  | topic => ctx_topic context
  | owner => ctx_owner context
  end.

(** [{}] *)
Definition empty : Context := mkContext None None None None.

Definition or_else (new old : option string) : option string :=
  match new with
  | Some v => Some v
  | None => old
  end.

(** [context.update(other)] *)
Definition update (context other : Context) : Context :=
  mkContext (or_else (ctx_location other) (ctx_location context))
            (or_else (ctx_property_type other) (ctx_property_type context))
            (or_else (ctx_topic other) (ctx_topic context))
            (or_else (ctx_owner other) (ctx_owner context)).

Definition STATE_ALIASES : list (string * string) :=
  [ ("california", "California"); ("ca", "California"); ("cali", "California");
    ("texas", "Texas"); ("tx", "Texas");
    ("arizona", "Arizona"); ("az", "Arizona"); ("ariz", "Arizona");
    ("florida", "Florida"); ("fl", "Florida");
    ("new york", "New York"); ("ny", "New York");
    ("illinois", "Illinois"); ("il", "Illinois") ].

Definition PROPERTY_TYPES : list string :=
  [ "Single Family"; "Multi-Family"; "Commercial";
    "Residential"; "Apartment"; "Condo" ].

(** [r'\b(LLC\d+)\b'] *)
Definition owner_pattern : regex :=
  (Bnd ;; Grp (lit "LLC" ;; Plus is_digit) ;; Bnd)%re.

(** [any(word in text for word in words)] *)
Definition any_in (words : list string) (text : string) : bool :=
  existsb (fun word => contains word text) words.

Definition _extract_context (query sql : string) : Context :=
  let combined_text := lower (query ++ " " ++ sql) in
  mkContext
    (option_map snd
       (find (fun entry =>
                re_test true (SecurityValidator.word_pat (fst entry))
                        combined_text)
             STATE_ALIASES))
    (find (fun prop_type => contains (lower prop_type) combined_text)
          PROPERTY_TYPES)
    (if any_in ["rent"; "rental"; "income"; "average"] combined_text
     then Some "rent"
     else if any_in ["profit"; "profitable"; "profitability"] combined_text
     then Some "profitability"
     else if any_in ["count"; "how many"; "number of"] combined_text
     then Some "count"
     else if any_in ["property"; "properties"] combined_text
     then Some "properties"
     else None)
    (match re_search true owner_pattern query with
     | Some owner_match => Some (upper (group1 owner_match query))
     | None => None
     end).

Section Memory.
Context {Result : Type}.

Record ConversationTurn : Type := mkTurn {
  timestamp : string;
  query : string;
  sql_query : option string;
  result : Result;
  answer : string;
  context : Context
}.

Record Memory : Type := mkMemory {
  max_history : Z;
  history : list ConversationTurn;
  current_context : Context
}.

(** [__init__] *)
Definition init (max_history : Z) : Memory := mkMemory max_history [] empty.

(** [l[-n:]] for [n > 0] *)
Definition last_n {A : Type} (n : nat) (l : list A) : list A :=
  skipn (List.length l - n) l.

Definition _update_context (self : Memory) : Memory :=
  mkMemory (max_history self) (history self)
    (match history self with
     | [] => empty
     | _ => fold_left update (map context (last_n 3 (history self))) empty
     end).

Definition add_interaction (self : Memory) (now query : string)
           (sql_query : option string) (result : Result) (answer : string)
  : Memory :=
  let context :=
    _extract_context query
      (match sql_query with
       | Some sql => sql
       | None => EmptyString
       end) in
  let turn := mkTurn now query sql_query result answer context in
  let history := (history self ++ [turn])%list in
  let history :=
    if (max_history self <? Z.of_nat (List.length history))%Z
    then tl history
    else history in
  _update_context (mkMemory (max_history self) history (current_context self)).

Definition clear_context (self : Memory) : Memory :=
  mkMemory (max_history self) (history self) empty.

Definition clear_history (self : Memory) : Memory :=
  mkMemory (max_history self) [] empty.

(** The arguments of one call of [add_interaction], and the calls made
    one after the other on a new memory. *)
Record Interaction : Type := mkInteraction {
  i_now : string;
  i_query : string;
  i_sql_query : option string;
  i_result : Result;
  i_answer : string
}.

Definition record (self : Memory) (i : Interaction) : Memory :=
  add_interaction self (i_now i) (i_query i) (i_sql_query i) (i_result i)
                  (i_answer i).

Definition turn_of (i : Interaction) : ConversationTurn :=
  mkTurn (i_now i) (i_query i) (i_sql_query i) (i_result i) (i_answer i)
         (_extract_context (i_query i)
            (match i_sql_query i with
             | Some sql => sql
             | None => EmptyString
             end)).

Definition session (max_history : Z) (inputs : list Interaction) : Memory :=
  fold_left record inputs (init max_history).

End Memory.

Arguments ConversationTurn : clear implicits.
Arguments Memory : clear implicits.
Arguments Interaction : clear implicits.

End ConversationMemory.

(* ================================================================= *)
(** * Properties *)

Import SecurityValidator.

(** ** Characters *)

Arguments code : simpl never.
Arguments is_word : simpl never.
Arguments is_space : simpl never.
Arguments is_dot : simpl never.
Arguments upper_char : simpl never.
Arguments lower_char : simpl never.
Arguments chr_eq : simpl never.

Ltac all_chars c :=
  destruct c as [[] [] [] [] [] [] [] []]; vm_compute; reflexivity.

Lemma lower_upper_char c : lower_char (upper_char c) = lower_char c.
Proof. all_chars c. Qed.

Lemma lower_lower_char c : lower_char (lower_char c) = lower_char c.
Proof. all_chars c. Qed.

Lemma is_word_upper_char c : is_word (upper_char c) = is_word c.
Proof. all_chars c. Qed.

Lemma is_word_lower_char c : is_word (lower_char c) = is_word c.
Proof. all_chars c. Qed.

Lemma is_space_upper_char c : is_space (upper_char c) = is_space c.
Proof. all_chars c. Qed.

Lemma is_dot_upper_char c : is_dot (upper_char c) = is_dot c.
Proof. all_chars c. Qed.

Lemma space_not_word c : is_space c = true -> is_word c = false.
Proof. destruct c as [[] [] [] [] [] [] [] []]; vm_compute; congruence. Qed.

Lemma chr_eq_ci a b :
  chr_eq true a b = true <-> lower_char a = lower_char b.
Proof. unfold chr_eq. apply Ascii.eqb_eq. Qed.

Lemma chr_eq_cs a b : chr_eq false a b = true <-> a = b.
Proof. unfold chr_eq. apply Ascii.eqb_eq. Qed.

Lemma chr_eq_word ic a b : chr_eq ic a b = true -> is_word b = is_word a.
Proof.
  destruct ic; intros H.
  - apply chr_eq_ci in H.
    rewrite <- (is_word_lower_char a), <- (is_word_lower_char b).
    now rewrite H.
  - apply chr_eq_cs in H. now subst.
Qed.

(** ** Strings *)

Lemma sapp_assoc (a b c : string) : (a ++ b) ++ c = a ++ b ++ c.
Proof. induction a; simpl; congruence. Qed.

Lemma sapp_nil_r (a : string) : a ++ "" = a.
Proof. induction a; simpl; congruence. Qed.

Lemma slength_app (a b : string) :
  String.length (a ++ b) = String.length a + String.length b.
Proof. induction a; simpl; congruence. Qed.

Lemma smap_app f (a b : string) : smap f (a ++ b) = smap f a ++ smap f b.
Proof. induction a; simpl; congruence. Qed.

Lemma smap_length f (a : string) : String.length (smap f a) = String.length a.
Proof. induction a; simpl; congruence. Qed.

Lemma upper_app a b : upper (a ++ b) = upper a ++ upper b.
Proof. apply smap_app. Qed.

Lemma lower_app a b : lower (a ++ b) = lower a ++ lower b.
Proof. apply smap_app. Qed.

Lemma lower_upper s : lower (upper s) = lower s.
Proof.
  unfold lower, upper. induction s; simpl; [reflexivity|].
  now rewrite lower_upper_char, IHs.
Qed.

Lemma lower_lower s : lower (lower s) = lower s.
Proof.
  unfold lower. induction s; simpl; [reflexivity|].
  now rewrite lower_lower_char, IHs.
Qed.

Lemma sforall_app p a b : sforall p (a ++ b) = sforall p a && sforall p b.
Proof.
  induction a; simpl; [reflexivity|].
  now rewrite IHa, andb_assoc.
Qed.

Lemma sforall_smap p f s :
  (forall c, p (f c) = p c) -> sforall p (smap f s) = sforall p s.
Proof. intros H. induction s; simpl; [reflexivity|]. now rewrite H, IHs. Qed.

Lemma sforall_impl (p q : ascii -> bool) s :
  (forall c, p c = true -> q c = true) ->
  sforall p s = true -> sforall q s = true.
Proof.
  intros H. induction s; simpl; [reflexivity|].
  intros E. apply andb_prop in E as [E1 E2].
  now rewrite (H _ E1), IHs.
Qed.

Lemma startswith_app w b : startswith w (w ++ b) = true.
Proof.
  induction w; simpl; [reflexivity|].
  now rewrite Ascii.eqb_refl, IHw.
Qed.

Lemma startswith_mono w a t :
  startswith w a = true -> startswith w (a ++ t) = true.
Proof.
  revert a. induction w as [|x w IHw]; intros [|c a]; simpl; try congruence.
  intros E. apply andb_prop in E as [E1 E2].
  now rewrite E1, IHw.
Qed.

Lemma startswith_inv w s :
  startswith w s = true -> exists b, s = w ++ b.
Proof.
  revert s. induction w as [|x w IHw]; intros s; simpl.
  - exists s. reflexivity.
  - destruct s as [|c s]; [discriminate|].
    intros E. apply andb_prop in E as [E1 E2].
    apply Ascii.eqb_eq in E1. subst.
    destruct (IHw _ E2) as [b ->]. now exists b.
Qed.

Lemma contains_app w a b : contains w (a ++ w ++ b) = true.
Proof.
  induction a as [|c a IHa]; simpl.
  - pose proof (startswith_app w b) as S.
    destruct (w ++ b); simpl; now rewrite S.
  - rewrite IHa. apply orb_true_r.
Qed.

Lemma contains_mono w a t :
  contains w a = true -> contains w (a ++ t) = true.
Proof.
  induction a as [|c a IHa]; simpl.
  - rewrite orb_false_r. intros E.
    destruct w; [|discriminate]. now destruct t.
  - intros E. apply orb_prop in E as [E|E].
    + pose proof (startswith_mono w (String c a) t E) as S.
      simpl in S. now rewrite S.
    + rewrite (IHa E). apply orb_true_r.
Qed.

Lemma contains_inv w s :
  contains w s = true -> exists a b, s = a ++ w ++ b.
Proof.
  induction s as [|c s IHs]; simpl.
  - rewrite orb_false_r. intros E. apply startswith_inv in E as [b E].
    exists "", b. exact E.
  - intros E. apply orb_prop in E as [E|E].
    + apply startswith_inv in E as [b E]. exists "", b. exact E.
    + destruct (IHs E) as (a' & b & ->). now exists (String c a'), b.
Qed.

Lemma take_app a b : take (String.length a) (a ++ b) = a.
Proof. induction a; simpl; [now destruct b|congruence]. Qed.

Lemma drop_app a b : drop (String.length a) (a ++ b) = b.
Proof. induction a; simpl; [now destruct b|congruence]. Qed.

Lemma take_drop n s : take n s ++ drop n s = s.
Proof.
  revert s. induction n; intros [|c s]; simpl; try reflexivity.
  now rewrite IHn.
Qed.


Lemma drop_all s : drop (String.length s) s = "".
Proof. induction s; simpl; congruence. Qed.

Lemma sapp_inv_length a a' b b' :
  a ++ b = a' ++ b' -> String.length a = String.length a' ->
  a = a' /\ b = b'.
Proof.
  revert a'. induction a as [|x a IHa]; intros [|c a']; simpl;
    try discriminate.
  - auto.
  - intros E L. injection E as -> E. injection L as L.
    destruct (IHa _ E L) as [-> ->]. auto.
Qed.

Lemma last_of_app prev a b : last_of prev (a ++ b) = last_of (last_of prev a) b.
Proof. revert prev. induction a; intros prev; simpl; auto. Qed.

Lemma last_of_smap f prev a :
  last_of (option_map f prev) (smap f a) = option_map f (last_of prev a).
Proof.
  revert prev. induction a as [|c a IHa]; intros prev; simpl; auto.
  apply (IHa (Some c)).
Qed.

Lemma shead_smap f s : shead (smap f s) = option_map f (shead s).
Proof. now destruct s. Qed.

Lemma word_opt_upper o : word_opt (option_map upper_char o) = word_opt o.
Proof. destruct o; simpl; auto using is_word_upper_char. Qed.

(** [rstrip] drops a run of stripped characters, and nothing else. *)
Lemma rstrip_by_spec p s :
  exists t, s = rstrip_by p s ++ t /\ sforall p t = true.
Proof.
  induction s as [|c s (t & E & F)]; simpl.
  - exists "". auto.
  - destruct (rstrip_by p s) eqn:R.
    + destruct (p c) eqn:Pc.
      * exists (String c s). split; [reflexivity|].
        simpl. rewrite Pc. simpl in E. now rewrite E.
      * exists t. split; [|exact F]. simpl in *. congruence.
    + exists t. split; [|exact F]. simpl in *. congruence.
Qed.



(** ** The matcher *)

Lemma is_some_true {A : Type} (o : option A) :
  is_some o = true <-> exists x, o = Some x.
Proof.
  destruct o; simpl; split; intros H; eauto; try discriminate.
  now destruct H.
Qed.

Lemma is_some_false {A : Type} (o : option A) : is_some o = false <-> o = None.
Proof. destruct o; simpl; split; congruence. Qed.

Lemma last_of_nonempty prev x :
  nonempty x = true -> last_of prev x = last_of None x.
Proof. destruct x; simpl; [discriminate|reflexivity]. Qed.

Lemma lit_eq_length ic w x :
  lit_eq ic w x = true -> String.length x = String.length w.
Proof.
  revert x. induction w as [|a w IH]; intros [|b x]; simpl; try discriminate.
  - reflexivity.
  - intros E. apply andb_prop in E as [_ E]. now rewrite (IH _ E).
Qed.

Lemma lit_eq_nonempty ic w x :
  lit_eq ic w x = true -> nonempty x = nonempty w.
Proof. destruct w, x; simpl; congruence. Qed.

Lemma lit_eq_head ic w x :
  lit_eq ic w x = true -> word_opt (shead x) = word_opt (shead w).
Proof.
  destruct w, x; simpl; try congruence.
  intros E. apply andb_prop in E as [E _]. eauto using chr_eq_word.
Qed.

Lemma lit_eq_last ic w x pw px :
  lit_eq ic w x = true -> word_opt px = word_opt pw ->
  word_opt (last_of px x) = word_opt (last_of pw w).
Proof.
  revert x pw px. induction w as [|a w IH]; intros [|b x] pw px; simpl;
    try discriminate.
  - auto.
  - intros E _. apply andb_prop in E as [E1 E2].
    apply IH; [exact E2|]. simpl. eauto using chr_eq_word.
Qed.

Lemma lit_eq_ci w x : lit_eq true w x = true <-> same_ci x w.
Proof.
  unfold same_ci, lower. revert x.
  induction w as [|a w IH]; intros [|b x]; simpl; split; intros E;
    try discriminate; try reflexivity.
  - apply andb_prop in E as [E1 E2]. apply chr_eq_ci in E1.
    apply IH in E2. congruence.
  - injection E as E1 E2. apply andb_true_intro. split.
    + now apply chr_eq_ci.
    + now apply IH.
Qed.

Lemma lit_eq_cs w x : lit_eq false w x = true <-> x = w.
Proof.
  revert x. induction w as [|a w IH]; intros [|b x]; simpl; split; intros E;
    try discriminate; try reflexivity.
  - apply andb_prop in E as [E1 E2]. apply chr_eq_cs in E1.
    apply IH in E2. congruence.
  - injection E as E1 E2. apply andb_true_intro. split.
    + now apply chr_eq_cs.
    + now apply IH.
Qed.

Lemma same_ci_upper x w : same_ci x w -> same_ci (upper x) w.
Proof. unfold same_ci. now rewrite lower_upper. Qed.

Section MatcherFacts.
Variable ic : bool.
Variable A : Type.
Implicit Types (k : cursor -> option A) (r : regex).

Lemma rmatch_lit_app w x b k pos prev g :
  lit_eq ic w x = true ->
  rmatch ic (lit w) k (Cur pos prev (x ++ b) g)
  = k (Cur (pos + String.length x) (last_of prev x) b g).
Proof.
  revert x pos prev. induction w as [|a w IH]; intros [|c x] pos prev;
    simpl; try discriminate.
  - intros _. now rewrite Nat.add_0_r.
  - intros E. apply andb_prop in E as [E1 E2].
    unfold one_char. simpl. rewrite E1, (IH _ _ _ E2).
    now rewrite Nat.add_succ_r.
Qed.

Lemma rmatch_lit_inv w k pos prev s g res :
  rmatch ic (lit w) k (Cur pos prev s g) = Some res ->
  exists x b,
    s = x ++ b /\ lit_eq ic w x = true
    /\ k (Cur (pos + String.length x) (last_of prev x) b g) = Some res.
Proof.
  revert pos prev s. induction w as [|a w IH]; intros pos prev s; simpl.
  - intros E. exists "", s. simpl. now rewrite Nat.add_0_r.
  - unfold one_char. simpl. destruct s as [|c s]; [discriminate|].
    destruct (chr_eq ic a c) eqn:E1; [|discriminate].
    intros E. apply IH in E as (x & b & -> & E2 & E3).
    exists (String c x), b. simpl. rewrite E1, E2.
    now rewrite Nat.add_succ_r.
Qed.

Lemma rep_fallback p k pos prev g s :
  is_some (k (Cur pos prev s g)) = true ->
  is_some (rep p k pos prev g s) = true.
Proof.
  intros H. destruct s as [|c s]; simpl; [exact H|].
  destruct (p c); [|exact H].
  destruct (rep p k (S pos) (Some c) g s); [reflexivity|exact H].
Qed.

Lemma rep_app p k pos prev g m b :
  sforall p m = true ->
  is_some (k (Cur (pos + String.length m) (last_of prev m) b g)) = true ->
  is_some (rep p k pos prev g (m ++ b)) = true.
Proof.
  revert pos prev. induction m as [|c m IH]; intros pos prev; simpl.
  - intros _ H. rewrite Nat.add_0_r in H. now apply rep_fallback.
  - intros E H. apply andb_prop in E as [E1 E2]. rewrite E1.
    rewrite Nat.add_succ_r in H.
    pose proof (IH (S pos) (Some c) E2 H) as R.
    destruct (rep p k (S pos) (Some c) g (m ++ b)); [reflexivity|].
    discriminate.
Qed.

Lemma rep_inv p k pos prev g s res :
  rep p k pos prev g s = Some res ->
  exists m b,
    s = m ++ b /\ sforall p m = true
    /\ k (Cur (pos + String.length m) (last_of prev m) b g) = Some res.
Proof.
  revert pos prev. induction s as [|c s IH]; intros pos prev; simpl.
  - intros E. exists "", "". simpl. now rewrite Nat.add_0_r.
  - destruct (p c) eqn:Pc.
    + destruct (rep p k (S pos) (Some c) g s) eqn:R.
      * intros E. injection E as <-.
        apply IH in R as (m & b & -> & F & K).
        exists (String c m), b. simpl. rewrite Pc, F.
        now rewrite Nat.add_succ_r.
      * intros E. exists "", (String c s). simpl.
        now rewrite Nat.add_0_r.
    + intros E. exists "", (String c s). simpl. now rewrite Nat.add_0_r.
Qed.

(** Before a continuation that accepts every position, the repetition
    takes the longest run. *)
Lemma rep_greedy p k (f : cursor -> A) pos prev g s :
  (forall cu, k cu = Some (f cu)) ->
  rep p k pos prev g s
  = Some (f (Cur (pos + span_len p s)
                 (last_of prev (take (span_len p s) s))
                 (drop (span_len p s) s) g)).
Proof.
  intros K. revert pos prev. induction s as [|c s IH]; intros pos prev;
    simpl.
  - now rewrite K, Nat.add_0_r.
  - destruct (p c) eqn:Pc; simpl.
    + rewrite IH. now rewrite Nat.add_succ_r.
    + now rewrite K, Nat.add_0_r.
Qed.

Lemma one_char_inv p k pos prev s g res :
  one_char p k (Cur pos prev s g) = Some res ->
  exists c s',
    s = String c s' /\ p c = true
    /\ k (Cur (S pos) (Some c) s' g) = Some res.
Proof.
  unfold one_char. simpl. destruct s as [|c s]; [discriminate|].
  destruct (p c) eqn:Pc; [|discriminate]. eauto.
Qed.

Lemma plus_inv p k pos prev s g res :
  rmatch ic (Plus p) k (Cur pos prev s g) = Some res ->
  exists m b,
    s = m ++ b /\ nonempty m = true /\ sforall p m = true
    /\ k (Cur (pos + String.length m) (last_of prev m) b g) = Some res.
Proof.
  simpl. intros E. apply one_char_inv in E as (c & s' & -> & Pc & E).
  simpl in E. apply rep_inv in E as (m & b & -> & F & K).
  exists (String c m), b. simpl. rewrite Pc, F.
  rewrite Nat.add_succ_r. auto.
Qed.

Lemma plus_app p k pos prev g m b :
  nonempty m = true -> sforall p m = true ->
  is_some (k (Cur (pos + String.length m) (last_of prev m) b g)) = true ->
  is_some (rmatch ic (Plus p) k (Cur pos prev (m ++ b) g)) = true.
Proof.
  destruct m as [|c m]; [discriminate|]. intros _ E H. simpl in *.
  apply andb_prop in E as [E1 E2]. unfold one_char. simpl. rewrite E1.
  apply rep_app; [exact E2|]. now rewrite Nat.add_succ_r in H.
Qed.
End MatcherFacts.

(** ** [re.search] *)

Lemma search_app ic r pos prev a b :
  is_some (match_here ic r (pos + String.length a) (last_of prev a) b) = true ->
  is_some (search_from ic r pos prev (a ++ b)) = true.
Proof.
  revert pos prev. induction a as [|c a IH]; intros pos prev; simpl.
  - rewrite Nat.add_0_r. intros H. destruct b; simpl.
    + destruct (match_here ic r pos prev ""); [reflexivity|discriminate].
    + destruct (match_here ic r pos prev (String a b)); [reflexivity|discriminate].
  - rewrite Nat.add_succ_r. intros H.
    destruct (match_here ic r pos prev (String c (a ++ b))); [reflexivity|].
    now apply IH.
Qed.

Lemma search_inv ic r pos prev s m :
  search_from ic r pos prev s = Some m ->
  exists a b,
    s = a ++ b
    /\ match_here ic r (pos + String.length a) (last_of prev a) b = Some m
    /\ forall a' b', s = a' ++ b' -> String.length a' < String.length a ->
         match_here ic r (pos + String.length a') (last_of prev a') b' = None.
Proof.
  revert pos prev. induction s as [|c s IH]; intros pos prev; simpl.
  - destruct (match_here ic r pos prev "") eqn:E; [|discriminate].
    intros H. injection H as ->. exists "", "". simpl.
    rewrite Nat.add_0_r. repeat split; auto. intros a' b' _ L. lia.
  - destruct (match_here ic r pos prev (String c s)) eqn:E.
    + intros H. injection H as ->. exists "", (String c s). simpl.
      rewrite Nat.add_0_r. repeat split; auto. intros a' b' _ L. lia.
    + intros H. apply IH in H as (a & b & -> & M & Min).
      exists (String c a), b. simpl. rewrite Nat.add_succ_r.
      repeat split; auto.
      intros [|c' a'] b' Eq L; simpl in *.
      * rewrite Nat.add_0_r. now subst b'.
      * injection Eq as <- Eq. rewrite Nat.add_succ_r.
        apply Min; [exact Eq|lia].
Qed.

Lemma search_none ic r pos prev s :
  search_from ic r pos prev s = None ->
  forall a b, s = a ++ b ->
    match_here ic r (pos + String.length a) (last_of prev a) b = None.
Proof.
  intros H a b ->.
  destruct (match_here ic r (pos + String.length a) (last_of prev a) b) eqn:E;
    [|reflexivity].
  pose proof (search_app ic r pos prev a b) as S.
  rewrite E, H in S. discriminate (S eq_refl).
Qed.

(** ** Word patterns: [\bW\b] finds the whole-word occurrences of [W] *)

Lemma word_like_nonempty w : word_like w -> nonempty w = true.
Proof. intros [H _]. destruct w; [discriminate|reflexivity]. Qed.

Lemma shead_app_nonempty x b : nonempty x = true -> shead (x ++ b) = shead x.
Proof. destruct x; [discriminate|reflexivity]. Qed.

Lemma match_here_word ic w pos prev s m :
  word_like w ->
  match_here ic (word_pat w) pos prev s = Some m <->
  exists x b,
    s = x ++ b /\ lit_eq ic w x = true /\ word_opt prev = false
    /\ word_opt (shead b) = false
    /\ m = Match pos (pos + String.length x) None.
Proof.
  intros W. pose proof (word_like_nonempty w W) as Wn. destruct W as [W1 W2].
  assert (Hx : forall x, lit_eq ic w x = true ->
            nonempty x = true /\ word_opt (shead x) = true
            /\ forall p, word_opt (last_of p x) = true).
  { intros x E. assert (N : nonempty x = true)
      by (now rewrite (lit_eq_nonempty ic w x E)).
    repeat split; [exact N|now rewrite (lit_eq_head ic w x E)|].
    intros p. rewrite (last_of_nonempty p x N).
    now rewrite (lit_eq_last ic w x None None E eq_refl). }
  unfold match_here, word_pat.
  change (rmatch ic (Bnd;; lit w;; Bnd)%re ?k ?cu)
    with (if at_boundary (c_prev cu) (c_rest cu)
          then rmatch ic (lit w) (rmatch ic Bnd k) cu else None).
  cbn [c_prev c_rest]. split.
  - destruct (at_boundary prev s) eqn:B1; [|discriminate].
    intros E. apply rmatch_lit_inv in E as (x & b & -> & L & E).
    destruct (Hx x L) as (N & H1 & H2).
    cbn [rmatch c_prev c_rest c_pos c_grp] in E.
    destruct (at_boundary (last_of prev x) b) eqn:B2; [|discriminate].
    injection E as <-. exists x, b. repeat split; auto.
    + unfold at_boundary in B1. rewrite (shead_app_nonempty x b N), H1 in B1.
      now destruct (word_opt prev).
    + unfold at_boundary in B2. rewrite H2 in B2.
      now destruct (word_opt (shead b)).
  - intros (x & b & -> & L & P & Q & ->).
    destruct (Hx x L) as (N & H1 & H2).
    unfold at_boundary at 1. rewrite (shead_app_nonempty x b N), H1, P.
    cbn [xorb]. rewrite (rmatch_lit_app ic _ w x b _ pos prev None L).
    cbn [rmatch c_prev c_rest c_pos c_grp].
    unfold at_boundary. now rewrite H2, Q.
Qed.

Lemma re_search_word_some w s m :
  word_like w ->
  re_search true (word_pat w) s = Some m ->
  whole_word_at w s (m_start m)
  /\ m_end m = m_start m + String.length w
  /\ forall n, n < m_start m -> ~ whole_word_at w s n.
Proof.
  intros W E. unfold re_search in E.
  apply search_inv in E as (a & rest & -> & E & Min).
  apply (match_here_word true w _ _ _ _ W) in E
    as (x & b & -> & L & P & Q & ->).
  cbn [m_start m_end]. simpl. repeat split.
  - exists a, x, b. repeat split; auto. now apply lit_eq_ci.
  - now rewrite (lit_eq_length true w x L).
  - intros n Ln (a' & x' & b' & Eq & La & Sc & P' & Q').
    specialize (Min a' (x' ++ b') Eq ltac:(lia)).
    assert (M : match_here true (word_pat w) (0 + String.length a')
                  (last_of None a') (x' ++ b')
                = Some (Match (0 + String.length a')
                              (0 + String.length a' + String.length x') None)).
    { apply (match_here_word true w _ _ _ _ W). exists x', b'.
      repeat split; auto. now apply lit_eq_ci. }
    congruence.
Qed.

Lemma re_search_word_none w s :
  word_like w ->
  re_search true (word_pat w) s = None ->
  forall n, ~ whole_word_at w s n.
Proof.
  intros W E n (a & x & b & Eq & La & Sc & P & Q).
  pose proof (search_none true _ 0 None s E a (x ++ b) Eq) as N.
  assert (M : match_here true (word_pat w) (0 + String.length a)
                (last_of None a) (x ++ b)
              = Some (Match (0 + String.length a)
                            (0 + String.length a + String.length x) None)).
  { apply (match_here_word true w _ _ _ _ W). exists x, b.
    repeat split; auto. now apply lit_eq_ci. }
  congruence.
Qed.

Lemma re_test_word w s :
  word_like w ->
  re_test true (word_pat w) s = true <-> whole_word_in w s.
Proof.
  intros W. unfold re_test. split.
  - intros E. apply is_some_true in E as [m E].
    exists (m_start m). now apply (re_search_word_some w s m W).
  - intros [n H]. destruct (re_search true (word_pat w) s) eqn:E;
      [reflexivity|].
    exfalso. exact (re_search_word_none w s W E n H).
Qed.

Lemma whole_word_in_upper w s : whole_word_in w s -> whole_word_in w (upper s).
Proof.
  intros (n & a & x & b & -> & La & Sc & P & Q).
  exists n, (upper a), (upper x), (upper b). repeat split.
  - now rewrite !upper_app.
  - unfold upper. now rewrite smap_length.
  - now apply same_ci_upper.
  - unfold upper.
    change None with (option_map upper_char None).
    now rewrite last_of_smap, word_opt_upper.
  - unfold upper. now rewrite shead_smap, word_opt_upper.
Qed.

Lemma same_ci_of_upper x w : same_ci (upper x) w -> same_ci x w.
Proof. unfold same_ci. now rewrite lower_upper. Qed.

Lemma smap_app_inv f s a' b' :
  smap f s = a' ++ b' ->
  exists a b, s = a ++ b /\ smap f a = a' /\ smap f b = b'.
Proof.
  revert s. induction a' as [|c a' IH]; intros s; simpl.
  - intros E. exists "", s. auto.
  - destruct s as [|d s]; simpl; [discriminate|].
    intros E. injection E as E1 E2.
    destruct (IH _ E2) as (a & b & -> & <- & <-).
    exists (String d a), b. simpl. now rewrite E1.
Qed.

Lemma whole_word_in_of_upper w s :
  whole_word_in w (upper s) -> whole_word_in w s.
Proof.
  intros (n & a' & x' & b' & E & La & Sc & P & Q).
  unfold upper in E. apply smap_app_inv in E as (a & r & -> & <- & E).
  apply smap_app_inv in E as (x & b & -> & <- & <-).
  exists n, a, x, b. repeat split.
  - now rewrite smap_length in La.
  - now apply same_ci_of_upper.
  - change None with (option_map upper_char None) in P.
    now rewrite last_of_smap, word_opt_upper in P.
  - now rewrite shead_smap, word_opt_upper in Q.
Qed.

Lemma DML_WORDS_word_like : Forall word_like DML_WORDS.
Proof. repeat constructor. Qed.

Lemma OWNER_WORDS_word_like : Forall word_like OWNER_WORDS.
Proof. repeat constructor. Qed.

Lemma TERMINAL_WORDS_word_like : Forall word_like TERMINAL_WORDS.
Proof. repeat constructor. Qed.

(** ** [validate_query] *)

(** The loop over [DML_PATTERNS] finds nothing exactly when no denylisted
    word stands in the statement. *)
Lemma dml_loop_none sql :
  find (fun p => re_test true (snd p) (upper sql)) DML_PATTERNS = None
  <-> forall w, In w DML_WORDS -> ~ whole_word_in w sql.
Proof.
  split.
  - intros F w Hw H.
    pose proof (find_none _ _ F (pattern_text w, word_pat w)) as N.
    cbn [snd] in N.
    assert (T : re_test true (word_pat w) (upper sql) = true).
    { apply re_test_word.
      - exact (proj1 (Forall_forall _ _) DML_WORDS_word_like w Hw).
      - now apply whole_word_in_upper. }
    rewrite N in T; [discriminate|].
    unfold DML_PATTERNS.
    exact (in_map (fun w => (pattern_text w, word_pat w)) _ _ Hw).
  - intros H.
    destruct (find _ DML_PATTERNS) as [p|] eqn:F; [|reflexivity].
    exfalso. apply find_some in F as [I T].
    unfold DML_PATTERNS in I. apply in_map_iff in I as (w & <- & Hw).
    cbn [snd] in T. apply (H w Hw). apply whole_word_in_of_upper.
    apply re_test_word; [|exact T].
    exact (proj1 (Forall_forall _ _) DML_WORDS_word_like w Hw).
Qed.


Lemma validate_query_dml sql w :
  In w DML_WORDS -> whole_word_in w sql -> fst (validate_query sql) = false.
Proof.
  intros Hw H. unfold validate_query.
  destruct (find _ DML_PATTERNS) eqn:F; [reflexivity|].
  exfalso. exact (proj1 (dml_loop_none sql) F w Hw H).
Qed.

Lemma validate_query_injection sql p :
  In p injection_patterns -> re_test true p (upper sql) = true ->
  fst (validate_query sql) = false.
Proof.
  intros I T. unfold validate_query.
  destruct (find _ DML_PATTERNS); [reflexivity|].
  assert (E : existsb (fun p => re_test true p (upper sql)) injection_patterns
              = true) by (apply existsb_exists; eauto).
  now rewrite E.
Qed.

Lemma lit_eq_upper w x : same_ci x w -> lit_eq true w (upper x) = true.
Proof. intros H. apply lit_eq_ci. now apply same_ci_upper. Qed.

Lemma sforall_upper_space s : sforall is_space (upper s) = sforall is_space s.
Proof. apply sforall_smap, is_space_upper_char. Qed.

Lemma sforall_upper_dot s : sforall is_dot (upper s) = sforall is_dot s.
Proof. apply sforall_smap, is_dot_upper_char. Qed.

Lemma rmatch_seq ic A r1 r2 (k : cursor -> option A) cu :
  rmatch ic (Seq r1 r2) k cu = rmatch ic r1 (rmatch ic r2 k) cu.
Proof. reflexivity. Qed.

Lemma rmatch_star ic A p (k : cursor -> option A) pos prev s g :
  rmatch ic (Star p) k (Cur pos prev s g) = rep p k pos prev g s.
Proof. reflexivity. Qed.

Lemma separator_then_drop_found sql :
  separator_then_drop sql ->
  re_test true (Chr ";" ;; Star is_space ;; lit "DROP")%re (upper sql) = true.
Proof.
  intros (a & ws & x & b & -> & S & D).
  rewrite !upper_app. unfold re_test, re_search.
  apply search_app. unfold match_here.
  change (upper ";") with ";".
  change (";" ++ ?t) with (String ";" t).
  rewrite rmatch_seq. cbn [rmatch]. unfold one_char. cbn [c_rest].
  change (chr_eq true ";" ";") with true. cbv iota.
  cbn [c_pos c_prev c_grp c_rest].
  apply rep_app; [now rewrite sforall_upper_space|].
  now rewrite (rmatch_lit_app true _ "DROP" (upper x) _ _ _ _ _
                 (lit_eq_upper _ _ D)).
Qed.

Lemma comment_token_then_drop_found sql :
  comment_token_then_drop is_dot sql ->
  re_test true (lit "--" ;; Star is_dot ;; lit "DROP")%re (upper sql) = true.
Proof.
  intros (a & m & x & b & -> & S & D).
  rewrite !upper_app. unfold re_test, re_search.
  apply search_app. unfold match_here.
  rewrite rmatch_seq.
  rewrite (rmatch_lit_app true _ "--" (upper "--") _ _ _ _ _ eq_refl).
  rewrite rmatch_seq, rmatch_star.
  apply rep_app; [now rewrite sforall_upper_dot|].
  now rewrite (rmatch_lit_app true _ "DROP" (upper x) _ _ _ _ _
                 (lit_eq_upper _ _ D)).
Qed.

Lemma comment_block_with_drop_found sql :
  comment_block_with_drop is_dot sql ->
  re_test true
    (lit "/*" ;; Star is_dot ;; lit "DROP" ;; Star is_dot ;; lit "*/")%re
    (upper sql) = true.
Proof.
  intros (a & m1 & x & m2 & b & -> & S1 & S2 & D).
  rewrite !upper_app. unfold re_test, re_search.
  apply search_app. unfold match_here.
  rewrite rmatch_seq.
  rewrite (rmatch_lit_app true _ "/*" (upper "/*") _ _ _ _ _ eq_refl).
  rewrite rmatch_seq, rmatch_star.
  apply rep_app; [now rewrite sforall_upper_dot|].
  rewrite rmatch_seq.
  rewrite (rmatch_lit_app true _ "DROP" (upper x) _ _ _ _ _
             (lit_eq_upper _ _ D)).
  rewrite rmatch_seq, rmatch_star.
  apply rep_app; [now rewrite sforall_upper_dot|].
  now rewrite (rmatch_lit_app true _ "*/" (upper "*/") _ _ _ _ _ eq_refl).
Qed.

Lemma union_select_from_found sql :
  union_select_from is_dot sql ->
  re_test true
    (lit "UNION" ;; Star is_dot ;; lit "SELECT" ;; Star is_dot ;; lit "FROM")%re
    (upper sql) = true.
Proof.
  intros (a & u & m1 & x & m2 & f & b & -> & U & S1 & X & S2 & F).
  rewrite !upper_app. unfold re_test, re_search.
  apply search_app. unfold match_here.
  rewrite rmatch_seq.
  rewrite (rmatch_lit_app true _ "UNION" (upper u) _ _ _ _ _
             (lit_eq_upper _ _ U)).
  rewrite rmatch_seq, rmatch_star.
  apply rep_app; [now rewrite sforall_upper_dot|].
  rewrite rmatch_seq.
  rewrite (rmatch_lit_app true _ "SELECT" (upper x) _ _ _ _ _
             (lit_eq_upper _ _ X)).
  rewrite rmatch_seq, rmatch_star.
  apply rep_app; [now rewrite sforall_upper_dot|].
  now rewrite (rmatch_lit_app true _ "FROM" (upper f) _ _ _ _ _
                 (lit_eq_upper _ _ F)).
Qed.

Lemma validate_query_shape sql :
  injection_shape is_dot sql -> fst (validate_query sql) = false.
Proof.
  intros [H|[H|[H|H]]].
  - eapply validate_query_injection;
      [|exact (separator_then_drop_found sql H)]. simpl; auto.
  - eapply validate_query_injection;
      [|exact (comment_token_then_drop_found sql H)]. simpl; auto.
  - eapply validate_query_injection;
      [|exact (comment_block_with_drop_found sql H)]. simpl; auto.
  - eapply validate_query_injection;
      [|exact (union_select_from_found sql H)]. simpl; auto.
Qed.

(** ** The words of a text *)

Lemma words_head s :
  word_opt (shead s) = true -> exists x xs, words s = x :: xs.
Proof.
  destruct s as [|c s]; simpl; [discriminate|]. intros ->.
  destruct (word_opt (shead s)); [|eauto].
  destruct (words s); eauto.
Qed.

Lemma words_cons_word c s :
  is_word c = true -> word_opt (shead s) = true ->
  exists x xs, words s = x :: xs /\ words (String c s) = String c x :: xs.
Proof.
  intros C H. destruct (words_head s H) as (x & xs & E).
  exists x, xs. split; [exact E|]. simpl. now rewrite C, H, E.
Qed.

Lemma words_cons_last c s :
  is_word c = true -> word_opt (shead s) = false ->
  words (String c s) = String c "" :: words s.
Proof. intros C H. simpl. now rewrite C, H. Qed.

Lemma words_cons_other c s : is_word c = false -> words (String c s) = words s.
Proof. intros C. simpl. now rewrite C. Qed.

(** A text splits into its words at any point that is not inside a word. *)
Lemma words_app_r a b :
  word_opt (shead b) = false -> words (a ++ b) = (words a ++ words b)%list.
Proof.
  intros B. induction a as [|c a IH]; [reflexivity|].
  change (String c a ++ b) with (String c (a ++ b)).
  destruct (is_word c) eqn:C.
  - destruct (word_opt (shead a)) eqn:H.
    + assert (H' : word_opt (shead (a ++ b)) = true)
        by (destruct a; [discriminate|exact H]).
      destruct (words_cons_word c a C H) as (x & xs & E1 & E2).
      destruct (words_cons_word c (a ++ b) C H') as (y & ys & E3 & E4).
      rewrite E2, E4. rewrite IH, E1 in E3. simpl in E3.
      injection E3 as <- <-. reflexivity.
    + assert (H' : word_opt (shead (a ++ b)) = false)
        by (destruct a; [exact B|exact H]).
      rewrite (words_cons_last c a C H), (words_cons_last c _ C H'), IH.
      reflexivity.
  - rewrite (words_cons_other c _ C), (words_cons_other c _ C).
    exact IH.
Qed.

Lemma words_app_l a b :
  word_opt (last_of None a) = false ->
  words (a ++ b) = (words a ++ words b)%list.
Proof.
  induction a as [|c a IH]; [reflexivity|]. intros L.
  change (String c a ++ b) with (String c (a ++ b)).
  destruct a as [|d a].
  - simpl in L. now rewrite (words_cons_other c _ L), (words_cons_other c _ L).
  - assert (L' : word_opt (last_of None (String d a)) = false) by exact L.
    specialize (IH L').
    destruct (is_word c) eqn:C.
    + destruct (is_word d) eqn:D.
      * destruct (words_cons_word c (String d a) C D) as (x & xs & E1 & E2).
        destruct (words_cons_word c (String d a ++ b) C D)
          as (y & ys & E3 & E4).
        rewrite E2, E4. rewrite IH, E1 in E3. simpl in E3.
        injection E3 as <- <-. reflexivity.
      * rewrite (words_cons_last c (String d a) C D).
        rewrite (words_cons_last c (String d a ++ b) C D), IH.
        reflexivity.
    + rewrite (words_cons_other c _ C), (words_cons_other c _ C).
      exact IH.
Qed.

Lemma words_word x :
  nonempty x = true -> sforall is_word x = true -> words x = [x].
Proof.
  induction x as [|c x IH]; [discriminate|]. intros _ F.
  simpl in F. apply andb_prop in F as [C F].
  destruct x as [|d x].
  - simpl. now rewrite C.
  - assert (D : is_word d = true)
      by (simpl in F; now apply andb_prop in F as [D _]).
    destruct (words_cons_word c (String d x) C D) as (y & ys & E1 & E2).
    rewrite E2. rewrite (IH eq_refl F) in E1. now injection E1 as <- <-.
Qed.

Lemma words_none s : sforall not_word s = true -> words s = [].
Proof.
  induction s as [|c s IH]; [reflexivity|]. simpl. intros F.
  apply andb_prop in F as [C F]. unfold not_word in C.
  apply negb_true_iff in C. now rewrite C, IH.
Qed.

(** A word occurrence is a word of the text. *)
Lemma words_occurrence a x b :
  nonempty x = true -> sforall is_word x = true ->
  word_opt (last_of None a) = false -> word_opt (shead b) = false ->
  In x (words (a ++ x ++ b)).
Proof.
  intros N F L B.
  rewrite (words_app_l a _ L), (words_app_r x b B), (words_word x N F).
  apply in_or_app. right. now left.
Qed.

Lemma words_first s :
  word_opt (shead s) = true ->
  exists x b,
    s = x ++ b /\ nonempty x = true /\ sforall is_word x = true
    /\ word_opt (shead b) = false /\ words s = x :: words b.
Proof.
  induction s as [|c s IH]; [discriminate|]. intros C. simpl in C.
  destruct (word_opt (shead s)) eqn:H.
  - destruct (IH eq_refl) as (x & b & -> & N & F & B & E).
    exists (String c x), b. repeat split; auto.
    + simpl. now rewrite C, F.
    + destruct (words_cons_word c (x ++ b) C H) as (y & ys & E1 & E2).
      rewrite E2. rewrite E in E1. now injection E1 as <- <-.
  - exists (String c ""), s. repeat split; auto.
    + simpl. now rewrite C.
    + now apply words_cons_last.
Qed.

(** A word of the text is a word occurrence. *)
Lemma words_in_inv s x :
  In x (words s) ->
  exists a b,
    s = a ++ x ++ b /\ nonempty x = true /\ sforall is_word x = true
    /\ word_opt (last_of None a) = false /\ word_opt (shead b) = false.
Proof.
  remember (String.length s) as n eqn:Len. revert s Len x.
  induction n as [n IH] using lt_wf_ind. intros s Len x I.
  destruct s as [|c s]; [destruct I|].
  destruct (is_word c) eqn:C.
  - destruct (words_first (String c s) C) as (y & b & E & N & F & B & W).
    rewrite W in I. destruct I as [<-|I].
    + exists "", b. repeat split; auto.
    + assert (Lb : String.length b < n).
      { rewrite Len, E, slength_app. destruct y; [discriminate|simpl; lia]. }
      destruct (IH _ Lb b eq_refl x I) as (a' & b' & -> & N' & F' & L' & B').
      exists (y ++ a'), b'. rewrite E, sapp_assoc. repeat split; auto.
      rewrite last_of_app. destruct a' as [|d a'].
      * exfalso. simpl in B. destruct x as [|e x]; [discriminate|].
        simpl in B, F'. apply andb_prop in F' as [F' _].
        rewrite F' in B. discriminate B.
      * exact L'.
  - rewrite (words_cons_other c s C) in I.
    assert (Ls : String.length s < n) by (rewrite Len; simpl; lia).
    destruct (IH _ Ls s eq_refl x I) as (a' & b' & -> & N' & F' & L' & B').
    exists (String c a'), b'. repeat split; auto.
    destruct a' as [|d a']; [simpl; exact C|exact L'].
Qed.

Lemma same_ci_word x w :
  same_ci x w -> sforall is_word x = sforall is_word w.
Proof.
  unfold same_ci, lower. intros E.
  rewrite <- (sforall_smap is_word lower_char x is_word_lower_char).
  rewrite <- (sforall_smap is_word lower_char w is_word_lower_char).
  now rewrite E.
Qed.

Lemma same_ci_nonempty x w : same_ci x w -> nonempty x = nonempty w.
Proof. unfold same_ci, lower. destruct x, w; simpl; congruence. Qed.

(** For a keyword made of word characters, standing in the text as a whole
    word is being, up to case, one of its words. *)
Lemma whole_word_in_words w s :
  nonempty w = true -> sforall is_word w = true ->
  whole_word_in w s <-> exists x, In x (words s) /\ same_ci x w.
Proof.
  intros N F. split.
  - intros (n & a & x & b & -> & _ & Sc & L & B).
    exists x. split; [|exact Sc].
    apply words_occurrence; auto.
    + now rewrite (same_ci_nonempty x w Sc).
    + now rewrite (same_ci_word x w Sc).
  - intros (x & I & Sc).
    apply words_in_inv in I as (a & b & -> & _ & _ & L & B).
    exists (String.length a), a, x, b. repeat split; auto.
Qed.

Lemma words_rstrip_by p s :
  (forall c, p c = true -> is_word c = false) ->
  words (rstrip_by p s) = words s.
Proof.
  intros P. destruct (rstrip_by_spec p s) as (t & E & F).
  rewrite E at 2.
  assert (T : sforall not_word t = true).
  { apply (sforall_impl p); [|exact F].
    intros c Pc. unfold not_word. now rewrite (P c Pc). }
  rewrite words_app_r.
  - now rewrite (words_none t T), app_nil_r.
  - destruct t as [|c t]; [reflexivity|]. simpl in *.
    apply andb_prop in T as [T _]. unfold not_word in T.
    now apply negb_true_iff in T.
Qed.

Lemma semicolon_not_word c : Ascii.eqb semicolon c = true -> is_word c = false.
Proof. intros E. apply Ascii.eqb_eq in E. now subst. Qed.

Lemma words_strip_terminator sql : words (strip_terminator sql) = words sql.
Proof.
  unfold strip_terminator, rstrip, rstrip_semicolon.
  rewrite (words_rstrip_by is_space _ space_not_word).
  rewrite (words_rstrip_by _ _ semicolon_not_word).
  apply (words_rstrip_by is_space _ space_not_word).
Qed.

(** ** Decimal numerals *)

Lemma string_of_uint_numeral d :
  sforall numeral_char (NilEmpty.string_of_uint d) = true.
Proof. induction d; simpl; auto. Qed.

Lemma str_of_int_numeral z : sforall numeral_char (str_of_int z) = true.
Proof.
  unfold str_of_int, NilZero.string_of_int, NilZero.string_of_uint.
  destruct (Z.to_int z) as [d|d]; destruct d; try reflexivity;
    try apply (string_of_uint_numeral (_ d));
    apply (string_of_uint_numeral).
Qed.

(** ** [apply_rbac]: the stripped terminator and the guard *)

Lemma strip_terminator_spec sql :
  exists t, sql = strip_terminator sql ++ t /\ sforall terminator_char t = true.
Proof.
  unfold strip_terminator, rstrip, rstrip_semicolon.
  destruct (rstrip_by_spec is_space sql) as (t1 & E1 & F1).
  destruct (rstrip_by_spec (Ascii.eqb semicolon) (rstrip_by is_space sql))
    as (t2 & E2 & F2).
  destruct (rstrip_by_spec is_space
              (rstrip_by (Ascii.eqb semicolon) (rstrip_by is_space sql)))
    as (t3 & E3 & F3).
  exists (t3 ++ t2 ++ t1). split.
  - rewrite <- sapp_assoc, <- E3, <- sapp_assoc, <- E2. exact E1.
  - rewrite !sforall_app.
    rewrite (sforall_impl is_space terminator_char t3), 
            (sforall_impl (Ascii.eqb semicolon) terminator_char t2),
            (sforall_impl is_space terminator_char t1); auto;
      unfold terminator_char; intros c ->; auto using orb_true_r.
Qed.


Lemma sforall_last p w c :
  sforall p w = true -> last_of None w = Some c -> p c = true.
Proof.
  assert (G : forall prev, sforall p w = true ->
            (forall d, prev = Some d -> p d = true) ->
            last_of prev w = Some c -> p c = true).
  { induction w as [|a w IH]; simpl; intros prev F P L.
    - now apply P.
    - apply andb_prop in F as [Fa F]. apply (IH (Some a) F); auto.
      intros d E. now injection E as <-. }
  intros F L. apply (G None F); [discriminate|exact L].
Qed.

Lemma startswith_cut p w r t c :
  last_of None w = Some c -> p c = false -> sforall p t = true ->
  startswith w (r ++ t) = true -> startswith w r = true.
Proof.
  intros L P F. revert r L. induction w as [|a w IH]; intros r L;
    [discriminate|].
  destruct r as [|d r].
  - intros S. change ("" ++ t) with t in S.
    apply startswith_inv in S as [b E].
    rewrite E, sforall_app in F. apply andb_prop in F as [F _].
    rewrite (sforall_last p _ c F L) in P. discriminate.
  - simpl. intros S. apply andb_prop in S as [S1 S2]. rewrite S1.
    destruct w as [|a' w]; [reflexivity|].
    apply IH; [exact L|exact S2].
Qed.

Lemma contains_cut p w r t c :
  last_of None w = Some c -> p c = false -> sforall p t = true ->
  contains w (r ++ t) = true -> contains w r = true.
Proof.
  intros L P F. induction r as [|d r IH].
  - intros C. change ("" ++ t) with t in C.
    apply contains_inv in C as (a & b & E).
    rewrite E, !sforall_app in F. apply andb_prop in F as [_ F].
    apply andb_prop in F as [F _].
    rewrite (sforall_last p _ c F L) in P. discriminate.
  - intros C.
    change (String d r ++ t) with (String d (r ++ t)) in C.
    simpl in C. apply orb_prop in C as [C|C].
    + pose proof (startswith_cut p w (String d r) t c L P F C) as S.
      simpl in *. now rewrite S.
    + simpl. rewrite (IH C). apply orb_true_r.
Qed.

Lemma terminator_char_upper c :
  terminator_char (upper_char c) = terminator_char c.
Proof. all_chars c. Qed.

Lemma references_properties_strip sql :
  references_properties (strip_terminator sql) = references_properties sql.
Proof.
  destruct (strip_terminator_spec sql) as (t & E & F).
  assert (Fu : sforall terminator_char (upper t) = true)
    by (unfold upper; now rewrite sforall_smap by apply terminator_char_upper).
  assert (K : forall w c, last_of None w = Some c -> terminator_char c = false ->
            contains w (upper (strip_terminator sql)) = contains w (upper sql)).
  { intros w c L P. rewrite E at 2. rewrite upper_app.
    destruct (contains w (upper (strip_terminator sql))) eqn:C.
    - symmetry. now apply contains_mono.
    - destruct (contains w (upper (strip_terminator sql) ++ upper t)) eqn:D;
        [|reflexivity].
      rewrite (contains_cut terminator_char w _ _ c L P Fu D) in C.
      discriminate. }
  unfold references_properties.
  now rewrite (K "FROM PROPERTIES" "S"%char eq_refl eq_refl),
              (K "JOIN PROPERTIES" "S"%char eq_refl eq_refl).
Qed.

Lemma apply_rbac_unscoped sql uc :
  scoped_to_owner uc = false -> apply_rbac sql uc = sql.
Proof.
  unfold scoped_to_owner, apply_rbac. intros H.
  rewrite <- negb_andb, H. reflexivity.
Qed.

Lemma apply_rbac_scoped sql uc :
  scoped_to_owner uc = true ->
  apply_rbac sql uc =
  let s := strip_terminator sql in
  if references_properties s then
    let cond := owner_condition s (owner_id uc) in
    match re_search true (word_pat "WHERE") s with
    | Some where_match =>
        take (m_end where_match) s ++ " " ++ cond ++ " AND "
          ++ drop (m_end where_match) s
    | None =>
        rstrip (take (insert_pos s) s) ++ " WHERE " ++ cond ++ " "
          ++ drop (insert_pos s) s
    end
  else s.
Proof.
  unfold scoped_to_owner, apply_rbac. intros H.
  rewrite <- negb_andb, H. cbn [negb]. cbv zeta.
  unfold references_properties. rewrite <- negb_orb.
  now destruct (contains "FROM PROPERTIES" _ || contains "JOIN PROPERTIES" _).
Qed.

(** ** [apply_rbac]: where the clause is inserted *)


(** The loop keeps the least start met so far. *)
Lemma insert_loop_spec s (ws : list string) (p0 : nat) :
  Forall word_like ws ->
  let r := fold_left
             (fun pos pat =>
                match re_search true pat s with
                | Some m => if (m_start m <? pos)%nat then m_start m else pos
                | None => pos
                end)
             (map word_pat ws) p0 in
  r <= p0
  /\ (r = p0 \/ exists w, In w ws /\ whole_word_at w s r)
  /\ forall w n, In w ws -> whole_word_at w s n -> r <= n.
Proof.
  intros W. revert p0. induction W as [|w ws Ww W IH]; intros p0; simpl.
  - repeat split; auto. intros w n [].
  - set (p1 := match re_search true (word_pat w) s with
               | Some m => if (m_start m <? p0)%nat then m_start m else p0
               | None => p0
               end).
    assert (H1 : p1 <= p0
                 /\ (p1 = p0 \/ whole_word_at w s p1)
                 /\ forall n, whole_word_at w s n -> p1 <= n).
    { unfold p1. destruct (re_search true (word_pat w) s) as [m|] eqn:E.
      - destruct (re_search_word_some w s m Ww E) as (At & _ & Min).
        assert (Le : forall n, whole_word_at w s n -> m_start m <= n).
        { intros n Hn. destruct (Nat.lt_ge_cases n (m_start m)) as [L|L];
            [|exact L]. exfalso. exact (Min n L Hn). }
        destruct (Nat.ltb_spec (m_start m) p0).
        + repeat split; auto; lia.
        + repeat split; auto. intros n Hn. specialize (Le n Hn). lia.
      - repeat split; auto. intros n Hn.
        exfalso. exact (re_search_word_none w s Ww E n Hn). }
    destruct H1 as (L1 & C1 & M1).
    destruct (IH p1) as (L2 & C2 & M2). repeat split.
    + lia.
    + destruct C2 as [C2|(w' & I & At)].
      * rewrite C2. destruct C1 as [C1|C1]; [now left|].
        right. exists w. split; [now left|exact C1].
      * right. exists w'. split; [now right|exact At].
    + intros w' n [<-|I] Hn.
      * specialize (M1 n Hn). lia.
      * exact (M2 w' n I Hn).
Qed.

Lemma insert_pos_cases s :
  insert_pos s <= String.length s
  /\ (insert_pos s = String.length s \/ terminal_at s (insert_pos s))
  /\ forall n, terminal_at s n -> insert_pos s <= n.
Proof.
  destruct (insert_loop_spec s TERMINAL_WORDS (String.length s)
              TERMINAL_WORDS_word_like) as (L & C & M).
  repeat split; auto. intros n (w & I & At). exact (M w n I At).
Qed.



(** The end of the first match of [\bWHERE\b], read off an occurrence. *)
Lemma where_match_split s m :
  re_search true (word_pat "WHERE") s = Some m ->
  exists a x b,
    s = a ++ x ++ b /\ same_ci x "WHERE"
    /\ word_opt (last_of None a) = false /\ word_opt (shead b) = false
    /\ String.length a = m_start m
    /\ take (m_end m) s = a ++ x /\ drop (m_end m) s = b.
Proof.
  intros E.
  destruct (re_search_word_some "WHERE" s m (conj eq_refl eq_refl) E)
    as ((a & x & b & -> & La & Sc & L & B) & End & _).
  exists a, x, b. repeat split; auto.
  - assert (Lx : String.length x = 5).
    { apply lit_eq_ci in Sc. exact (lit_eq_length true "WHERE" x Sc). }
    assert (Eq : m_end m = String.length (a ++ x))
      by (rewrite slength_app, End, La, Lx; reflexivity).
    rewrite Eq, <- sapp_assoc. apply take_app.
  - assert (Lx : String.length x = 5).
    { apply lit_eq_ci in Sc. exact (lit_eq_length true "WHERE" x Sc). }
    assert (Eq : m_end m = String.length (a ++ x))
      by (rewrite slength_app, End, La, Lx; reflexivity).
    rewrite Eq, <- sapp_assoc. apply drop_app.
Qed.

(** ** [apply_rbac]: the detected alias is a word of the statement *)

Lemma nonempty_last m :
  nonempty m = true -> exists c, last_of None m = Some c.
Proof.
  destruct m as [|a m]; [discriminate|]. intros _. simpl.
  generalize a. induction m as [|b m IH]; intros a0; simpl; eauto.
Qed.

Section Inversions.
Variable ic : bool.
Variable A : Type.
Implicit Types (k : cursor -> option A).

Lemma bnd_inv k cu res :
  rmatch ic Bnd k cu = Some res -> k cu = Some res.
Proof.
  simpl. now destruct (at_boundary (c_prev cu) (c_rest cu)).
Qed.

Lemma alt_inv r1 r2 k cu res :
  rmatch ic (Alt r1 r2) k cu = Some res ->
  rmatch ic r1 k cu = Some res \/ rmatch ic r2 k cu = Some res.
Proof.
  cbn [rmatch]. destruct (rmatch ic r1 k cu); auto.
Qed.

Lemma opt_inv r k cu res :
  rmatch ic (Opt r) k cu = Some res ->
  rmatch ic r k cu = Some res \/ k cu = Some res.
Proof.
  cbn [rmatch]. destruct (rmatch ic r k cu); auto.
Qed.

Lemma coh_lit s w k cu res :
  coherent s cu -> rmatch ic (lit w) k cu = Some res ->
  exists cu', coherent s cu' /\ k cu' = Some res.
Proof.
  destruct cu as [pos prev rest g]. intros (pre & E & P & L) M.
  cbn [c_rest c_pos c_prev] in *.
  apply rmatch_lit_inv in M as (x & b & -> & _ & K).
  eexists. split; [|exact K]. exists (pre ++ x).
  cbn [c_rest c_pos c_prev]. repeat split.
  - now rewrite sapp_assoc.
  - now rewrite slength_app, P.
  - now rewrite last_of_app, L.
Qed.

Lemma coh_plus s p k cu res :
  coherent s cu -> rmatch ic (Plus p) k cu = Some res ->
  exists cu',
    coherent s cu' /\ k cu' = Some res
    /\ exists c, c_prev cu' = Some c /\ p c = true.
Proof.
  destruct cu as [pos prev rest g]. intros (pre & E & P & L) M.
  cbn [c_rest c_pos c_prev] in *.
  apply plus_inv in M as (m & b & -> & N & F & K).
  eexists. split; [|split; [exact K|]].
  - exists (pre ++ m). cbn [c_rest c_pos c_prev]. repeat split.
    + now rewrite sapp_assoc.
    + now rewrite slength_app, P.
    + now rewrite last_of_app, L.
  - cbn [c_prev]. rewrite (last_of_nonempty prev m N).
    destruct (nonempty_last m N) as [c Ec]. exists c. split; [exact Ec|].
    exact (sforall_last p m c F Ec).
Qed.
End Inversions.

Lemma span_take p s : sforall p (take (span_len p s) s) = true.
Proof.
  induction s as [|c s IH]; [reflexivity|]. simpl.
  destruct (p c) eqn:Pc; [|reflexivity]. simpl. now rewrite Pc.
Qed.

Lemma span_drop_word s :
  word_opt (shead (drop (span_len is_word s) s)) = false.
Proof.
  induction s as [|c s IH]; [reflexivity|]. simpl.
  destruct (is_word c) eqn:C; [exact IH|]. simpl. exact C.
Qed.

Lemma group_is_word s pos0 cu m :
  coherent s cu -> word_opt (c_prev cu) = false ->
  rmatch true (Grp (Plus is_word))
         (fun cu' => Some (Match pos0 (c_pos cu') (c_grp cu'))) cu = Some m ->
  In (group1 m s) (words s).
Proof.
  destruct cu as [pos prev rest g]. intros (pre & E & P & L) W M.
  cbn [c_rest c_pos c_prev c_grp rmatch] in *.
  apply one_char_inv in M as (c & r & -> & C & M).
  cbn [c_rest c_pos c_prev c_grp] in M.
  rewrite (rep_greedy _ is_word _
             (fun cu'' => Match pos0 (c_pos cu'') (Some (pos, c_pos cu'')))) in M
    by reflexivity.
  cbn [c_pos] in M. injection M as <-.
  unfold group1. cbn [m_span1].
  set (n := span_len is_word r).
  rewrite E, P, drop_app.
  match goal with
  | |- context [take ?k (String c r)] => replace k with (S n) by lia
  end.
  cbn [take].
  rewrite <- (take_drop n r) at 2.
  change (String c (take n r ++ drop n r))
    with (String c (take n r) ++ drop n r).
  apply words_occurrence.
  - reflexivity.
  - simpl. rewrite C. apply span_take.
  - now rewrite <- L.
  - apply span_drop_word.
Qed.

Lemma alias_is_word s m :
  re_search true alias_pattern s = Some m -> In (group1 m s) (words s).
Proof.
  unfold re_search. intros E.
  apply search_inv in E as (a & rest & Es & E & _).
  unfold match_here, alias_pattern in E.
  assert (C0 : coherent s (Cur (0 + String.length a) (last_of None a) rest None))
    by (exists a; auto).
  rewrite rmatch_seq in E. apply bnd_inv in E.
  rewrite rmatch_seq in E.
  assert (E1 : exists cu, coherent s cu /\
             rmatch true
               (Plus is_space;; lit "PROPERTIES";; Plus is_space;;
                Opt (lit "AS";; Plus is_space);; Grp (Plus is_word))%re
               (fun cu => Some (Match (0 + String.length a) (c_pos cu)
                                      (c_grp cu))) cu = Some m).
  { apply alt_inv in E as [E|E]; now apply (coh_lit true _ s) in E. }
  clear E C0. destruct E1 as (cu1 & C1 & E).
  rewrite rmatch_seq in E.
  apply (coh_plus true _ s) in E as (cu2 & C2 & E & _); [|exact C1].
  rewrite rmatch_seq in E.
  apply (coh_lit true _ s) in E as (cu3 & C3 & E); [|exact C2].
  rewrite rmatch_seq in E.
  apply (coh_plus true _ s) in E as (cu4 & C4 & E & (c4 & P4 & S4));
    [|exact C3].
  rewrite rmatch_seq in E. apply opt_inv in E as [E|E].
  - rewrite rmatch_seq in E.
    apply (coh_lit true _ s) in E as (cu5 & C5 & E); [|exact C4].
    apply (coh_plus true _ s) in E as (cu6 & C6 & E & (c6 & P6 & S6));
      [|exact C5].
    apply (group_is_word s (0 + String.length a) cu6 m C6); [|exact E].
    rewrite P6. simpl. now apply space_not_word.
  - apply (group_is_word s (0 + String.length a) cu4 m C4); [|exact E].
    rewrite P4. simpl. now apply space_not_word.
Qed.

Lemma words_table_ref s x :
  In x (words (table_ref s)) -> In x (words s) \/ x = "Properties".
Proof.
  unfold table_ref. destruct (re_search true alias_pattern s) eqn:E.
  - apply alias_is_word in E. intros I. left.
    destruct (words_in_inv _ _ E) as (_ & _ & _ & N & F & _).
    rewrite (words_word _ N F) in I. destruct I as [<-|[]]. exact E.
  - intros [<-|[]]. now right.
Qed.

(** ** [apply_rbac]: the words of the rewritten statement *)

Lemma words_space s : words (" " ++ s) = words s.
Proof. reflexivity. Qed.

Lemma words_splice_and P Q tr num :
  words (P ++ " " ++ (tr ++ ".owner_id = " ++ num) ++ " AND " ++ Q)
  = (words P ++ words tr ++ "owner_id" :: words num ++ "AND" :: words Q)%list.
Proof.
  rewrite !sapp_assoc.
  rewrite (words_app_r P) by reflexivity. f_equal.
  rewrite words_space.
  rewrite (words_app_r tr) by reflexivity. f_equal.
  rewrite (words_app_l ".owner_id = ") by reflexivity.
  change (words ".owner_id = ") with ["owner_id"]. cbn [app]. f_equal.
  now rewrite (words_app_r num) by reflexivity.
Qed.

Lemma words_splice_where P Q tr num :
  words (P ++ " WHERE " ++ (tr ++ ".owner_id = " ++ num) ++ " " ++ Q)
  = (words P ++ "WHERE" :: words tr ++ "owner_id" :: words num ++ words Q)%list.
Proof.
  rewrite !sapp_assoc.
  rewrite (words_app_r P) by reflexivity. f_equal.
  rewrite (words_app_l " WHERE ") by reflexivity.
  change (words " WHERE ") with ["WHERE"]. cbn [app]. f_equal.
  rewrite (words_app_r tr) by reflexivity. f_equal.
  rewrite (words_app_l ".owner_id = ") by reflexivity.
  change (words ".owner_id = ") with ["owner_id"]. cbn [app]. f_equal.
  now rewrite (words_app_r num) by reflexivity.
Qed.

(** Every word of the rewritten statement is a word of the statement, a
    word of the table reference or of the numeral, or one of [owner_id],
    [AND], [WHERE]. *)
Lemma apply_rbac_words sql uc oid x :
  scoped_to_owner uc = true -> owner_id uc = Some oid ->
  In x (words (apply_rbac sql uc)) ->
  In x (words sql) \/ x = "Properties" \/ x = "owner_id" \/ x = "AND"
  \/ x = "WHERE" \/ In x (words (str_of_int oid)).
Proof.
  intros Sc Oid. rewrite (apply_rbac_scoped sql uc Sc). cbv zeta.
  rewrite Oid. unfold owner_condition. cbn [str_of_owner_id].
  rewrite <- (words_strip_terminator sql).
  set (s := strip_terminator sql).
  assert (Tr : In x (words (table_ref s)) ->
               In x (words s) \/ x = "Properties" \/ x = "owner_id"
               \/ x = "AND" \/ x = "WHERE" \/ In x (words (str_of_int oid))).
  { intros I. destruct (words_table_ref s x I); auto. }
  destruct (references_properties s); [|auto].
  destruct (re_search true (word_pat "WHERE") s) as [m|] eqn:E.
  - destruct (where_match_split s m E)
      as (a & y & b & Es & _ & _ & B & _ & -> & ->).
    rewrite words_splice_and.
    assert (Ws : words s = (words (a ++ y) ++ words b)%list)
      by (rewrite Es, <- sapp_assoc; now apply words_app_r).
    intros I.
    repeat (apply in_app_or in I as [I|I] || destruct I as [<-|I]);
      try (left; rewrite Ws; apply in_or_app; auto; fail); auto 10.
  - set (n := insert_pos s).
    assert (Ws : words s = (words (take n s) ++ words (drop n s))%list).
    { rewrite <- (take_drop n s) at 1.
      destruct (insert_pos_cases s) as (_ & [C|C] & _); fold n in C.
      - apply words_app_r. now rewrite C, drop_all.
      - destruct C as (w & _ & (a & y & b & Es & La & _ & L & _)).
        apply words_app_l.
        now rewrite Es, <- La, take_app. }
    rewrite words_splice_where.
    unfold rstrip. rewrite (words_rstrip_by is_space _ space_not_word).
    intros I.
    repeat (apply in_app_or in I as [I|I] || destruct I as [<-|I]);
      try (left; rewrite Ws; apply in_or_app; auto; fail); auto 10.
Qed.

Lemma numeral_not_letter c :
  numeral_char c = true -> is_lower_letter (lower_char c) = false.
Proof. destruct c as [[] [] [] [] [] [] [] []]; vm_compute; congruence. Qed.

Lemma numeral_not_dml x w :
  In w DML_WORDS -> sforall numeral_char x = true -> ~ same_ci x w.
Proof.
  intros I F Sc.
  assert (H : exists c r, lower w = String c r /\ is_lower_letter c = true).
  { simpl in I.
    repeat (destruct I as [<-|I]; [vm_compute; eauto|]). destruct I. }
  destruct H as (c & r & E & Lc). unfold same_ci in Sc. rewrite E in Sc.
  destruct x as [|d x]; [discriminate|].
  unfold lower in Sc. simpl in Sc. injection Sc as E1 _.
  simpl in F. apply andb_prop in F as [F _].
  apply numeral_not_letter in F. congruence.
Qed.

Lemma inserted_not_dml x w :
  In w DML_WORDS ->
  x = "Properties" \/ x = "owner_id" \/ x = "AND" \/ x = "WHERE" ->
  ~ same_ci x w.
Proof.
  intros I H Sc. unfold same_ci in Sc. simpl in I.
  repeat (destruct I as [<-|I];
          [destruct H as [ -> | [ -> | [ -> | -> ] ] ];
           vm_compute in Sc; discriminate|]).
  destruct I.
Qed.

Lemma DML_WORDS_words w :
  In w DML_WORDS -> nonempty w = true /\ sforall is_word w = true.
Proof.
  intros I. simpl in I.
  repeat (destruct I as [<-|I]; [split; reflexivity|]). destruct I.
Qed.

(** ** [validate_query_intent] for an owner *)

Lemma validate_query_intent_owner q uc :
  lower (role uc) = "owner" ->
  validate_query_intent q uc =
  if existsb (fun p => re_test true p q
                       && negb (contains (lower (own_name uc)) (lower q)))
             OWNER_NAMES
  then (false, other_owner_msg (owner_id uc))
  else if existsb (fun term => contains term (lower q)) forbidden_terms
  then (false, forbidden_term_msg)
  else (true, "").
Proof. unfold validate_query_intent. intros ->. reflexivity. Qed.

Lemma whole_word_in_contains w q :
  whole_word_in w q -> contains (lower w) (lower q) = true.
Proof.
  intros (n & a & x & b & -> & _ & Sc & _).
  rewrite !lower_app, Sc. apply contains_app.
Qed.

Lemma existsb_false {A : Type} (f : A -> bool) l :
  (forall x, In x l -> f x = false) -> existsb f l = false.
Proof.
  intros H. destruct (existsb f l) eqn:E; [|reflexivity].
  apply existsb_exists in E as (x & I & T). now rewrite (H x I) in T.
Qed.

(* ================================================================= *)
(** * The claims *)




(** C5 fails on the code: for the owner of LLC2, [validate_query_intent]
    allows the question [Compare LLC2 and LLC3], in which the identifier of
    another owner stands as a whole word; the check on other owners is
    skipped as soon as the caller's own identifier occurs anywhere in the
    lower-cased text.  The same caller is denied when LLC3 is named
    alone. *)
Theorem validate_query_intent_allows_other_owner :
  let uc := Scenario.owner 2 in
  whole_word_in "LLC3" "Compare LLC2 and LLC3"
  /\ own_name uc = "LLC2"
  /\ validate_query_intent "Compare LLC2 and LLC3" uc = (true, "")
  /\ validate_query_intent "How many properties does LLC3 have?" uc
     = (false, other_owner_msg (Some 2%Z)).
Proof.
  intros uc. split; [|repeat split; vm_compute; reflexivity].
  exists 17, "Compare LLC2 and ", "LLC3", "". repeat split.
Qed.

Lemma upper_lower_char c : upper_char (lower_char c) = upper_char c.
Proof. all_chars c. Qed.

Lemma same_ci_same_upper x w : same_ci x w -> upper x = upper w.
Proof.
  unfold same_ci, lower, upper. revert w.
  induction x as [|c x IH]; intros [|d w] E; try discriminate; [reflexivity|].
  cbn [smap] in *. injection E as E1 E2.
  rewrite (IH w E2). f_equal.
  now rewrite <- (upper_lower_char c), E1, upper_lower_char.
Qed.

(** The one-space test of the rewriter finds a reference only where the
    statement names Properties after FROM or JOIN. *)
Lemma contains_keyword_names k s :
  contains (k ++ " PROPERTIES") (upper s) = true ->
  exists a x ws t b,
    s = a ++ x ++ ws ++ t ++ b /\ same_ci x k
    /\ nonempty ws = true /\ sforall is_space ws = true
    /\ same_ci t "PROPERTIES".
Proof.
  intros C. apply contains_inv in C as (a' & b' & E).
  unfold upper in E.
  apply smap_app_inv in E as (a & r & -> & _ & E).
  rewrite !sapp_assoc in E.
  apply smap_app_inv in E as (x & r2 & -> & Ex & E).
  change (" PROPERTIES" ++ b') with (" " ++ "PROPERTIES" ++ b') in E.
  apply smap_app_inv in E as (ws & r3 & -> & Ews & E).
  apply smap_app_inv in E as (t & b & -> & Et & _).
  exists a, x, ws, t, b. split; [reflexivity|].
  split; [apply same_ci_of_upper; unfold upper; now rewrite Ex|].
  split; [destruct ws; [discriminate|reflexivity]|].
  split.
  - rewrite <- sforall_upper_space. unfold upper. now rewrite Ews.
  - apply same_ci_of_upper. unfold upper. now rewrite Et.
Qed.

Lemma references_properties_names s :
  references_properties s = true -> names_properties_after s.
Proof.
  unfold references_properties. intros H. apply orb_prop in H as [H|H].
  - destruct (contains_keyword_names "FROM" s H)
      as (a & x & ws & t & b & E & X & W1 & W2 & T).
    exists a, x, ws, t, b. auto.
  - destruct (contains_keyword_names "JOIN" s H)
      as (a & x & ws & t & b & E & X & W1 & W2 & T).
    exists a, x, ws, t, b. auto.
Qed.

Lemma names_properties_upper s :
  names_properties_after s -> contains "PROPERTIES" (upper s) = true.
Proof.
  intros (a & k & ws & t & b & -> & _ & _ & _ & T).
  replace (a ++ k ++ ws ++ t ++ b) with ((a ++ k ++ ws) ++ t ++ b)
    by (now rewrite !sapp_assoc).
  unfold upper. rewrite smap_app, (smap_app _ t b). fold (upper t).
  rewrite (same_ci_same_upper t "PROPERTIES" T).
  change (upper "PROPERTIES") with "PROPERTIES".
  apply contains_app.
Qed.

(** C6, as it is written, fails: a statement that does not name Properties
    comes back without its trailing semicolon. *)
Lemma apply_rbac_strips_unreferenced :
  references_properties "SELECT * FROM Units;" = false
  /\ apply_rbac "SELECT * FROM Units;" (Scenario.owner 2)
     = "SELECT * FROM Units"
  /\ apply_rbac "SELECT * FROM Units;" (Scenario.owner 2)
     <> "SELECT * FROM Units;".
Proof.
  split; [vm_compute; reflexivity|].
  split; [vm_compute; reflexivity|].
  intros H. vm_compute in H. discriminate H.
Qed.

(** C6 (amended): [apply_rbac] returns the statement unchanged when the
    role is not owner or no owner id is set.  For an owner with an owner
    id and a statement of ASCII characters in which FROM or JOIN, white
    space and a name that begins with Properties stand nowhere (the letters
    in any case), it returns the statement without its trailing white space
    and semicolon, [sql.rstrip().rstrip(';').rstrip()], and nothing else
    changed. *)
Theorem apply_rbac_frame :
  forall sql uc,
    (lower (role uc) <> "owner" \/ owner_id uc = None ->
     apply_rbac sql uc = sql)
    /\ (lower (role uc) = "owner" -> owner_id uc <> None ->
        ascii_text sql = true ->
        ~ names_properties_after sql ->
        apply_rbac sql uc = rstrip (rstrip_by (Ascii.eqb ";") (rstrip sql))
        /\ exists t,
             sql = apply_rbac sql uc ++ t
             /\ sforall terminator_char t = true).
Proof.
  intros sql uc. split.
  - intros H. apply apply_rbac_unscoped. unfold scoped_to_owner.
    destruct H as [H| ->]; [|apply andb_false_r].
    destruct (String.eqb_spec (lower (role uc)) "owner"); [contradiction|].
    reflexivity.
  - intros R Oid _ N.
    assert (S : scoped_to_owner uc = true).
    { unfold scoped_to_owner. rewrite R.
      destruct (owner_id uc); [reflexivity|contradiction]. }
    assert (Ref : references_properties sql = false).
    { destruct (references_properties sql) eqn:Ref; [|reflexivity].
      exfalso. exact (N (references_properties_names sql Ref)). }
    assert (E : apply_rbac sql uc = strip_terminator sql).
    { rewrite (apply_rbac_scoped sql uc S). cbv zeta.
      now rewrite references_properties_strip, Ref. }
    split; [exact E|]. rewrite E. apply strip_terminator_spec.
Qed.

Lemma apply_rbac_frame_witness :
  apply_rbac "SELECT * FROM Units ; " (Scenario.owner 2)
  = "SELECT * FROM Units"
  /\ exists t,
       "SELECT * FROM Units ; "
       = apply_rbac "SELECT * FROM Units ; " (Scenario.owner 2) ++ t
       /\ sforall terminator_char t = true.
Proof.
  apply (proj2 (apply_rbac_frame "SELECT * FROM Units ; " (Scenario.owner 2))
               eq_refl ltac:(discriminate) eq_refl).
  intros H. apply names_properties_upper in H. vm_compute in H.
  discriminate H.
Defined.




(** C2 fails on the code.  For the owner with owner id 2 the validator
    accepts a count over [FROM  Properties], in which two spaces stand
    between FROM and the table name; the rewriter returns it as it is,
    without an owner predicate, and [query] runs it and reports success, so
    that the count is over the properties of every owner.  The rewriter
    looks for the table with the one-space texts [FROM PROPERTIES] and
    [JOIN PROPERTIES], whereas its alias pattern admits any white space.
    And where WHERE follows the table name the alias pattern takes it for
    the alias: the predicate spliced is on [WHERE.owner_id]. *)
Theorem apply_rbac_leaves_properties_unscoped :
  let uc := Scenario.owner 2 in
  let sql := "SELECT COUNT(*) FROM  Properties" in
  let self := Scenario.toy_agent 3 Scenario.llm_two_spaces
                                 Scenario.db_three_rows in
  validate_query sql = (true, "")
  /\ names_properties_after sql
  /\ apply_rbac sql uc = sql
  /\ contains "owner_id" (apply_rbac sql uc) = false
  /\ (exists resp,
        query self (enough_fuel self) "How many properties do I have?" uc
        = Some resp
        /\ success resp = true /\ r_sql_query resp = Some sql)
  /\ validate_query "SELECT * FROM Properties WHERE city = 'Austin'"
     = (true, "")
  /\ apply_rbac "SELECT * FROM Properties WHERE city = 'Austin'" uc
     = "SELECT * FROM Properties WHERE WHERE.owner_id = 2 AND  city = 'Austin'".
Proof.
  intros uc sql self.
  split; [vm_compute; reflexivity|].
  split.
  { exists "SELECT COUNT(*) ", "FROM", "  ", "Properties", "".
    repeat split. left. reflexivity. }
  split; [vm_compute; reflexivity|].
  split; [vm_compute; reflexivity|].
  split.
  { eexists. split; [vm_compute; reflexivity|]. split; reflexivity. }
  split; vm_compute; reflexivity.
Qed.

(** ** The orchestrator *)

Lemma node_eq_END (n : node) : n = END \/ n <> END.
Proof. destruct n; auto; right; discriminate. Qed.

Section AgentFacts.
Context {DataFrame Schema Confidence : Type}.
Variable self : PropertyManagementAgent DataFrame Schema Confidence.

Implicit Types (state : AgentState DataFrame Schema Confidence) (n : node)
         (calls : nat).

Lemma edge_inv label targets n :
  edge label targets = Ok n -> In (label, n) targets.
Proof.
  induction targets as [|[l m] rest IH]; simpl; [discriminate|].
  destruct (String.eqb_spec l label) as [->|_].
  - intros E. injection E as ->. now left.
  - intros E. right. now apply IH.
Qed.

Ltac route_cases E :=
  apply edge_inv in E; simpl in E;
  repeat (destruct E as [E|E]; [injection E as _ <-; auto|]);
  try destruct E.

Lemma step_inv n state calls n' state' calls' :
  n <> END ->
  step self n state calls = Ok ((n', state'), calls') ->
  step_post self n state calls n' state' calls'.
Proof.
  intros NE. unfold step, bind, lift, ret.
  destruct (run_node self n state calls) as [[s1 c1]|msg] eqn:R;
    [|discriminate].
  destruct (route self n s1) as [n1|msg] eqn:Rt; [|discriminate].
  intros E. injection E as <- <- <-.
  destruct n; cbn [run_node step_post route] in *.
  - (* generate_sql *)
    assert (Rc : retry_count s1 = retry_count state).
    { unfold _generate_sql_node, bind, lift, ret, invoke_llm in R.
      destruct (if (retry_count state =? 0)%Z then _ else _) as [[] r].
      - destruct (SecurityValidator.validate_query_intent _ _) as [[] m];
          cbn [negb] in R.
        + destruct (get_schema_description self); [|discriminate].
          destruct (llm_invoke self calls state); [|discriminate].
          now injection R as <- _.
        + now injection R as <- _.
      - now injection R as <- _. }
    split; [exact Rc|]. route_cases Rt.
  - (* validate_sql *)
    assert (Rc : retry_count s1 = retry_count state /\ c1 = calls).
    { unfold _validate_sql_node, raise, ret in R.
      destruct (sql_query state); [|discriminate].
      destruct (SecurityValidator.validate_query _) as [[] m];
        cbn [negb] in R; now injection R as <- <-. }
    destruct Rc as [Rc Cc]. repeat split; auto. route_cases Rt.
  - (* execute_sql *)
    assert (Rc : retry_count s1 = retry_count state /\ c1 = calls).
    { unfold _execute_sql_node, raise, ret in R.
      destruct (execute_query self (sql_query state)) as [[[] [df|]] e];
        try discriminate; now injection R as <- <-. }
    destruct Rc as [Rc Cc]. repeat split; auto. route_cases Rt.
  - (* handle_error *)
    unfold _handle_error_node, ret in R. injection R as <- <-.
    repeat split; auto.
    unfold _error_router in *. cbn [retry_count set_retry_count] in *.
    destruct (Z.ltb_spec (retry_count state + 1) (max_retries self));
      simpl in Rt; injection Rt as <-.
    + left. repeat split; auto.
    + right. repeat split; auto.
  - (* generate_answer *)
    split; [|now injection Rt as <-].
    unfold _generate_answer_node, raise, bind, ret, invoke_llm in R.
    destruct (sql_result state); [|discriminate].
    destruct (llm_invoke self calls state); [|discriminate].
    destruct (validate_answer self _ _) as [[v w] cf].
    now injection R as <- _.
  - now elim NE.
Qed.

Lemma step_moves_left n state calls n' state' calls' :
  n <> END ->
  step self n state calls = Ok ((n', state'), calls') ->
  moves_left self n' state' < moves_left self n state.
Proof.
  intros NE E. pose proof (step_inv _ _ _ _ _ _ NE E) as P.
  unfold moves_left. destruct n; cbn [step_post] in P.
  - destruct P as (-> & [->| ->]); lia.
  - destruct P as (-> & _ & [->| ->]); lia.
  - destruct P as (-> & _ & [->| ->]); lia.
  - destruct P as (-> & _ & [(_ & -> & L)|(_ & -> & L)]);
      cbn [retry_count set_retry_count]; lia.
  - destruct P as (-> & ->); lia.
  - destruct P.
Qed.

(** The graph reaches [END], or raises, within [moves_left] moves. *)
Lemma invoke_total fuel n state calls :
  moves_left self n state <= fuel ->
  (exists final calls', invoke self fuel n state calls
                        = Ok (Some final, calls'))
  \/ (exists msg, invoke self fuel n state calls = Raise msg).
Proof.
  revert n state calls. induction fuel as [|fuel IH]; intros n state calls L.
  - destruct n; try (unfold moves_left in L; lia).
    left. now exists state, calls.
  - destruct (node_eq_END n) as [->|NE].
    + left. now exists state, calls.
    + assert (U : invoke self (S fuel) n state calls
                  = match step self n state calls with
                    | Ok (ns, c) => invoke self fuel (fst ns) (snd ns) c
                    | Raise msg => Raise msg
                    end) by (destruct n; try reflexivity; now elim NE).
      rewrite U.
      destruct (step self n state calls) as [[[n' s'] c']|msg] eqn:E.
      * apply IH. pose proof (step_moves_left _ _ _ _ _ _ NE E).
        cbn [fst snd]. lia.
      * right. now exists msg.
Qed.

Section Run.
Variable user_query : string.
Variable uc : UserContext.
Variable schema : Schema.

Let reach := reach self user_query uc schema.
Let start := initial_state self user_query uc schema.

(** The run of the graph passes through every point it reaches. *)
Lemma invoke_reach k n state calls :
  reach k n state calls ->
  forall fuel,
    invoke self (k + fuel) generate_sql start 0
    = invoke self fuel n state calls.
Proof.
  induction 1 as [|k n state calls n' state' calls' R IH NE E];
    intros fuel; [reflexivity|].
  replace (S k + fuel) with (k + S fuel) by lia. rewrite IH.
  destruct n; try (now elim NE);
    cbn [invoke]; unfold bind; now rewrite E.
Qed.

Lemma reach_invariant k n state calls :
  reach k n state calls ->
  k + moves_left self n state <= 4 * Z.to_nat (max_retries self) + 4
  /\ (0 <= retry_count state)%Z
  /\ ((1 <= max_retries self)%Z ->
      (retry_count state <= max_retries self)%Z
      /\ (n <> END -> (retry_count state < max_retries self)%Z)).
Proof.
  induction 1 as [|k n state calls n' state' calls' R IH NE E].
  - unfold moves_left. cbn [retry_count initial_state].
    repeat split; try lia.
  - destruct IH as (M & Z0 & B).
    pose proof (step_moves_left _ _ _ _ _ _ NE E) as D.
    pose proof (step_inv _ _ _ _ _ _ NE E) as P.
    split; [lia|].
    destruct n; cbn [step_post] in P; try (now elim NE).
    + destruct P as (-> & _). split; [exact Z0|]. intros H1.
      destruct (B H1) as (B1 & B2). split; [exact B1|].
      intros _. apply B2. discriminate.
    + destruct P as (-> & _). split; [exact Z0|]. intros H1.
      destruct (B H1) as (B1 & B2). split; [exact B1|].
      intros _. apply B2. discriminate.
    + destruct P as (-> & _). split; [exact Z0|]. intros H1.
      destruct (B H1) as (B1 & B2). split; [exact B1|].
      intros _. apply B2. discriminate.
    + destruct P as (-> & _ & Q). cbn [retry_count set_retry_count].
      split; [lia|]. intros H1. destruct (B H1) as (B1 & B2).
      specialize (B2 ltac:(discriminate)).
      destruct Q as [(_ & -> & L)|(_ & -> & L)]; split; try lia.
      intros X. now elim X.
    + destruct P as (-> & ->). split; [exact Z0|]. intros H1.
      destruct (B H1) as (B1 & _). split; [exact B1|].
      intros X. now elim X.
Qed.

Lemma query_of_run fuel :
  get_schema_metadata self = Ok schema ->
  query_run self fuel user_query uc 0
  = invoke self fuel generate_sql start 0.
Proof.
  intros Hs. unfold query_run, bind, lift. now rewrite Hs.
Qed.

End Run.

Lemma validate_query_intent_denied_reason q uc :
  fst (SecurityValidator.validate_query_intent q uc) = false ->
  nonempty (snd (SecurityValidator.validate_query_intent q uc)) = true.
Proof.
  unfold SecurityValidator.validate_query_intent.
  destruct (if lower (role uc) =? "viewer" then _ else None) as [r|] eqn:V.
  - intros _. cbn [snd].
    destruct (lower (role uc) =? "viewer"); [|discriminate].
    unfold SecurityValidator.viewer_denial in V.
    destruct (existsb _ SecurityValidator.sensitive_patterns);
      [now injection V as <-|].
    destruct (existsb _ SecurityValidator.owner_patterns);
      [now injection V as <-|discriminate].
  - destruct (negb (lower (role uc) =? "owner")); [discriminate|].
    destruct (existsb _ SecurityValidator.OWNER_NAMES); [reflexivity|].
    destruct (existsb _ SecurityValidator.forbidden_terms);
      [reflexivity|discriminate].
Qed.

Lemma is_data_query_response q :
  fst (SecurityValidator.is_data_query q) = false ->
  SecurityValidator.is_data_query q
  = (false, SecurityValidator.conversational_response).
Proof.
  unfold SecurityValidator.is_data_query.
  now destruct (existsb _ SecurityValidator.conversational_patterns).
Qed.

Lemma truthy_nonempty s : nonempty s = true -> truthy (Some s) = true.
Proof. now destruct s. Qed.



End AgentFacts.

Section AgentClaims.
Context {DataFrame Schema Confidence : Type}.
Variable self : PropertyManagementAgent DataFrame Schema Confidence.

(** C10: when the request is conversational or is denied by the
    authorization check, the graph goes from its first node straight to
    the end, no call having been made to the generator; [query] returns
    with success true, the canned response or the denial reason as
    answer, no SQL and a retry count of 0. *)
Theorem blocked_request_response :
  forall q uc schema fuel,
    get_schema_metadata self = Ok schema ->
    fst (SecurityValidator.is_data_query q) = false
    \/ fst (SecurityValidator.validate_query_intent q uc) = false ->
    let reply :=
      if fst (SecurityValidator.is_data_query q)
      then snd (SecurityValidator.validate_query_intent q uc)
      else snd (SecurityValidator.is_data_query q) in
    exists final,
      step self generate_sql (initial_state self q uc schema) 0
      = Ok ((END, final), 0)
      /\ final_answer final = Some reply
      /\ query self (S fuel) q uc = Some (prepare_response final)
      /\ success (prepare_response final) = true
      /\ answer (prepare_response final) = reply
      /\ r_sql_query (prepare_response final) = None
      /\ r_retry_count (prepare_response final) = 0%Z.
Proof.
  intros q uc schema fuel Hs H reply.
  assert (T : nonempty reply = true).
  { unfold reply. destruct (fst (SecurityValidator.is_data_query q)) eqn:D.
    - destruct H as [H|H]; [discriminate|].
      now apply validate_query_intent_denied_reason.
    - now rewrite (is_data_query_response q D). }
  assert (G : exists final,
             _generate_sql_node self (initial_state self q uc schema) 0
             = Ok (final, 0)
             /\ final_answer final = Some reply
             /\ sql_query final = None
             /\ retry_count final = 0%Z).
  { unfold _generate_sql_node, reply.
    cbn [retry_count initial_state user_query user_context].
    change (0 =? 0)%Z with true. cbv iota.
    destruct (SecurityValidator.is_data_query q) as [[] r] eqn:D;
      cbn [fst snd].
    - destruct H as [H|H]; [discriminate|].
      destruct (SecurityValidator.validate_query_intent q uc) as [a m].
      cbn [fst snd] in *. subst a. cbn [negb].
      eexists. split; [reflexivity|]. auto.
    - eexists. split; [reflexivity|]. auto. }
  destruct G as (final & G & F & Q & R).
  assert (St : step self generate_sql (initial_state self q uc schema) 0
               = Ok ((END, final), 0)).
  { unfold step, bind. cbn [run_node]. rewrite G.
    cbn [route]. unfold _sql_generation_router.
    now rewrite F, (truthy_nonempty reply T). }
  exists final.
  split; [exact St|]. split; [exact F|]. split.
  { unfold query. rewrite (query_of_run self q uc schema (S fuel) Hs).
    cbn [invoke]. unfold bind. rewrite St. cbn [fst snd].
    now destruct fuel. }
  unfold prepare_response.
  cbn [success answer r_sql_query r_retry_count].
  rewrite F, (truthy_nonempty reply T). auto.
Qed.


End AgentClaims.

(** The next point of a run, computed. *)
Ltac advance R :=
  match type of R with
  | reach ?self ?q ?uc ?sch ?k ?n ?st ?c =>
      let r := eval vm_compute in (step self n st c) in
      match r with
      | Ok ((?n', ?st'), ?c') =>
          let R' := fresh "R" in
          assert (R' : reach self q uc sch (S k) n' st' c')
            by (apply (reach_step self q uc sch k n st c n' st' c' R);
                [discriminate|vm_compute; reflexivity]);
          clear R; rename R' into R
      end
  end.

(** C1 fails on the code: after a first attempt rejected by the validator,
    the second statement is accepted by [validate_query] and rewritten, but
    the router still reads the entry logged for the first attempt and sends
    the run to the error node; the run ends with its retries exhausted and
    no answer. *)
Theorem validation_router_reads_stale_log :
  let self := Scenario.toy_agent 3 Scenario.llm_drop_then_select
                                 Scenario.db_three_rows in
  let q := "How many properties are there?" in
  exists k state calls sql state' resp,
    reach self q Scenario.admin tt k validate_sql state calls
    /\ sql_query state = Some sql
    /\ SecurityValidator.validate_query sql = (true, "")
    /\ step self validate_sql state calls = Ok ((handle_error, state'), calls)
    /\ sql_query state'
       = Some (SecurityValidator.apply_rbac sql Scenario.admin)
    /\ _validation_router state' = "error"
    /\ query self (enough_fuel self) q Scenario.admin = Some resp
    /\ success resp = false
    /\ r_retry_count resp = 3%Z.
Proof.
  intros self q.
  pose proof (reach_start self q Scenario.admin tt) as R.
  do 4 advance R.
  match type of R with
  | reach _ _ _ _ ?k _ ?st ?c => exists k, st, c
  end.
  eexists. eexists. eexists.
  split; [exact R|].
  split; [reflexivity|].
  split; [vm_compute; reflexivity|].
  split; [vm_compute; reflexivity|].
  split; [vm_compute; reflexivity|].
  split; [vm_compute; reflexivity|].
  split; [vm_compute; reflexivity|].
  split; reflexivity.
Qed.

(** C3 fails on the code: an agent built with [max_retries = 0] ends its
    first failed attempt, three node runs after the start, with a retry
    count of 1, above [max_retries]; [_handle_error_node] adds one to the
    counter before [_error_router] compares it with [max_retries]. *)
Lemma retry_count_exceeds_zero_budget :
  let self := Scenario.toy_agent 0 Scenario.llm_drop_then_select
                                 Scenario.db_three_rows in
  exists resp,
    query self (enough_fuel self) "How many properties are there?"
          Scenario.admin = Some resp
    /\ r_retry_count resp = 1%Z
    /\ (max_retries self < r_retry_count resp)%Z.
Proof.
  intros self. eexists. split; [vm_compute; reflexivity|].
  split; reflexivity.
Qed.



Lemma blocked_request_response_witness :
  let self := Scenario.toy_agent 3 Scenario.llm_select_foo
                                 Scenario.db_three_rows in
  let q := "How many properties does LLC3 have?" in
  let reply :=
    if fst (SecurityValidator.is_data_query q)
    then snd (SecurityValidator.validate_query_intent q (Scenario.owner 2))
    else snd (SecurityValidator.is_data_query q) in
  exists final,
    step self generate_sql (initial_state self q (Scenario.owner 2) tt) 0
    = Ok ((END, final), 0)
    /\ final_answer final = Some reply
    /\ query self 1 q (Scenario.owner 2) = Some (prepare_response final)
    /\ success (prepare_response final) = true
    /\ answer (prepare_response final) = reply
    /\ r_sql_query (prepare_response final) = None
    /\ r_retry_count (prepare_response final) = 0%Z.
Proof.
  intros self q.
  apply (blocked_request_response self q (Scenario.owner 2) tt 0 eq_refl).
  right. vm_compute. reflexivity.
Defined.

(** ** [numbers_match] *)

(** C9: [numbers_match] is true when the larger magnitude is below the
    absolute epsilon, and otherwise true exactly when
    [|a - b| <= tolerance * max(|a|, |b|)]; with the default tolerance it
    matches 100 and 101, and 0 and 0.005, and neither 100 and 103 nor 0 and
    0.02. *)
Theorem numbers_match_spec :
  (forall a b tolerance,
      (Qmax (Qabs a) (Qabs b) < AnswerValidator.epsilon)%Q ->
      AnswerValidator.numbers_match a b tolerance = true)
  /\ (forall a b tolerance,
         (AnswerValidator.epsilon <= Qmax (Qabs a) (Qabs b))%Q ->
         AnswerValidator.numbers_match a b tolerance = true
         <-> (Qabs (a - b) <= tolerance * Qmax (Qabs a) (Qabs b))%Q)
  /\ AnswerValidator.numbers_match 100 101 AnswerValidator.default_tolerance
     = true
  /\ AnswerValidator.numbers_match 100 103 AnswerValidator.default_tolerance
     = false
  /\ AnswerValidator.numbers_match 0 (5 # 1000)
       AnswerValidator.default_tolerance = true
  /\ AnswerValidator.numbers_match 0 (2 # 100)
       AnswerValidator.default_tolerance = false.
Proof.
  split; [|split; [|repeat split; vm_compute; reflexivity]].
  - intros a b tolerance H. unfold AnswerValidator.numbers_match.
    destruct (Qle_bool AnswerValidator.epsilon (Qmax (Qabs a) (Qabs b))) eqn:E;
      [|reflexivity].
    apply Qle_bool_iff in E. exfalso. exact (Qlt_not_le _ _ H E).
  - intros a b tolerance H. unfold AnswerValidator.numbers_match.
    apply Qle_bool_iff in H. rewrite H. cbn [negb].
    apply Qle_bool_iff.
Qed.

Lemma numbers_match_spec_witness :
  AnswerValidator.numbers_match 100 102 AnswerValidator.default_tolerance
  = true.
Proof.
  apply (proj1 (proj2 numbers_match_spec) 100%Q 102%Q).
  - vm_compute. discriminate.
  - vm_compute. discriminate.
Defined.

(* ================================================================= *)
(** * Further properties of the orchestrator *)

Lemma last_error_app log e : last_error (log ++ [e])%list = Some e.
Proof.
  unfold last_error. rewrite map_app. simpl. apply last_last.
Qed.

Section AgentMoves.
Context {DataFrame Schema Confidence : Type}.
Variable self : PropertyManagementAgent DataFrame Schema Confidence.
Implicit Types (state : AgentState DataFrame Schema Confidence) (n : node)
         (calls : nat).

Lemma step_generate state calls n' state' calls' :
  final_answer state = None ->
  step self generate_sql state calls = Ok ((n', state'), calls') ->
  (n' = END /\ calls' = calls
   /\ (exists reply,
          state' = set_final_answer state (Some reply)
          \/ state' = set_final_answer
                        (append_error state ("Authorization error: " ++ reply))
                        (Some reply)))
  \/ (n' = validate_sql /\ calls' = S calls
      /\ exists content,
           llm_invoke self calls state = Ok content
           /\ state' = append_message
                         (set_sql_query state (Some (clean_sql content)))
                         ("assistant", "Generated SQL: " ++ clean_sql content)).
Proof.
  intros F. unfold step, bind, lift, ret. cbn [run_node].
  destruct (_generate_sql_node self state calls) as [[s1 c1]|msg] eqn:R;
    [|discriminate].
  destruct (route self generate_sql s1) as [n1|msg] eqn:Rt; [|discriminate].
  intros E. injection E as <- <- <-.
  unfold _generate_sql_node, bind, lift, ret, invoke_llm in R.
  cbn [route] in Rt. unfold _sql_generation_router in Rt.
  destruct (if (retry_count state =? 0)%Z then _ else _) as [[] r] eqn:D.
  - destruct (validate_query_intent _ _) as [[] m] eqn:V; cbn [negb] in R.
    + destruct (get_schema_description self); [|discriminate].
      destruct (llm_invoke self calls state) as [content|]; [|discriminate].
      injection R as <- <-. right.
      cbn [final_answer append_message set_sql_query] in Rt.
      rewrite F in Rt. cbn in Rt. injection Rt as <-.
      repeat split. exists content. split; reflexivity.
    + injection R as <- <-. left.
      pose proof (validate_query_intent_denied_reason
                    (user_query state) (user_context state)) as N.
      rewrite V in N. specialize (N eq_refl). cbn [snd] in N.
      cbn [final_answer set_final_answer] in Rt.
      rewrite (truthy_nonempty m N) in Rt. cbn in Rt. injection Rt as <-.
      repeat split. exists m. now right.
  - injection R as <- <-. left.
    assert (N : nonempty r = true).
    { destruct (retry_count state =? 0)%Z; [|discriminate].
      pose proof (is_data_query_response (user_query state)) as Q.
      rewrite D in Q. specialize (Q eq_refl). now injection Q as ->. }
    cbn [final_answer set_final_answer] in Rt.
    rewrite (truthy_nonempty r N) in Rt. cbn in Rt. injection Rt as <-.
    repeat split. exists r. now left.
Qed.

Lemma step_validate state calls n' state' calls' :
  step self validate_sql state calls = Ok ((n', state'), calls') ->
  exists sql,
    sql_query state = Some sql /\ calls' = calls
    /\ ((fst (validate_query sql) = false /\ n' = handle_error
         /\ state' = append_error state
                       ("Security validation failed: "
                          ++ snd (validate_query sql)))
        \/ (fst (validate_query sql) = true
            /\ (n' = execute_sql \/ n' = handle_error)
            /\ (n' = execute_sql <-> _validation_router state' = "execute")
            /\ state' = set_sql_query state
                          (Some (apply_rbac sql (user_context state))))).
Proof.
  unfold step, bind, lift, ret. cbn [run_node].
  destruct (_validate_sql_node state calls) as [[s1 c1]|msg] eqn:R;
    [|discriminate].
  destruct (route self validate_sql s1) as [n1|msg] eqn:Rt; [|discriminate].
  intros E. injection E as <- <- <-.
  unfold _validate_sql_node, raise, ret in R. cbn [route] in Rt.
  destruct (sql_query state) as [sql|]; [|discriminate].
  exists sql. split; [reflexivity|].
  destruct (validate_query sql) as [[] m]; cbn [negb fst snd] in *;
    injection R as <- <-; (split; [reflexivity|]).
  - right. split; [reflexivity|].
    unfold _validation_router in *.
    destruct (last_error _) as [e|].
    + destruct (startswith "Security validation" e); cbn in Rt;
        injection Rt as <-; repeat split; auto; discriminate.
    + cbn in Rt. injection Rt as <-. repeat split; auto.
  - left. split; [reflexivity|].
    unfold _validation_router in Rt. cbn [error_log append_error] in Rt.
    rewrite last_error_app in Rt. cbn in Rt. injection Rt as <-. auto.
Qed.

Lemma step_execute state calls :
  sql_result state = None ->
  (exists df,
      read_sql_query self (sql_query state) = Ok df
      /\ step self execute_sql state calls
         = Ok ((generate_answer,
                append_message
                  (set_sql_result state (Some df))
                  ("system",
                   "Query executed successfully. Rows returned: "
                     ++ str_of_int (Z.of_nat (nrows self df)))), calls))
  \/ (exists e,
         read_sql_query self (sql_query state) = Raise e
         /\ step self execute_sql state calls
            = Ok ((handle_error,
                   append_error state
                     ("SQL execution error: " ++ sanitize_error e)), calls)).
Proof.
  intros N. unfold step, bind, lift, ret. cbn [run_node].
  unfold _execute_sql_node, execute_query, ret.
  destruct (read_sql_query self (sql_query state)) as [df|e].
  - left. exists df. split; [reflexivity|].
    cbn [route]. unfold _execution_router.
    cbn [sql_result append_message set_sql_result is_some]. reflexivity.
  - right. exists e. split; [reflexivity|].
    cbn [route]. unfold _execution_router.
    cbn [sql_result append_error]. rewrite N. reflexivity.
Qed.

Lemma step_answer state calls n' state' calls' :
  step self generate_answer state calls = Ok ((n', state'), calls') ->
  n' = END /\ calls' = S calls
  /\ exists a v c,
       state' = set_validation (set_final_answer state (Some a)) v c.
Proof.
  unfold step, bind, lift, ret. cbn [run_node route].
  unfold _generate_answer_node, raise, bind, ret, invoke_llm.
  destruct (sql_result state); [|discriminate].
  destruct (llm_invoke self calls state); [|discriminate].
  destruct (validate_answer self _ _) as [[v w] cf].
  intros E. injection E as <- <- <-. repeat split. eauto.
Qed.

(** What holds at every point of a run. *)
Lemma reach_facts q uc schema k n state calls :
  reach self q uc schema k n state calls ->
  user_query state = q /\ user_context state = uc
  /\ (n <> END -> final_answer state = None)
  /\ (n <> END -> n <> generate_answer -> sql_result state = None)
  /\ (n = execute_sql ->
      exists sql, fst (validate_query sql) = true
                  /\ sql_query state = Some (apply_rbac sql uc))
  /\ (n = validate_sql ->
      exists content, sql_query state = Some (clean_sql content))
  /\ (n <> END -> Z.of_nat calls = (retry_count state + calls_ahead n)%Z)
  /\ (n = END -> (retry_count state <= Z.of_nat calls
                  <= retry_count state + 2)%Z)
  /\ (n <> END ->
      (Z.of_nat (List.length (error_log state))
       <= retry_count state
          + match n with handle_error => 1 | _ => 0 end)%Z)
  /\ (n = END -> (1 <= max_retries self)%Z ->
      (Z.of_nat (List.length (error_log state)) <= max_retries self)%Z
      /\ (final_answer state = None <->
          retry_count state = max_retries self)
      /\ (Z.of_nat calls <= max_retries self + 1)%Z).
Proof.
  induction 1 as [|k n state calls n' state' calls' R IH NE E].
  - cbn. repeat split; auto; try discriminate; try lia.
  - destruct IH as (Q & U & F & S & X & _ & C & _ & L & _).
    destruct (reach_invariant self q uc schema _ _ _ _ R) as (_ & Z0 & B).
    specialize (F NE). specialize (C NE). specialize (L NE).
    assert (B' : (1 <= max_retries self)%Z ->
                 (retry_count state < max_retries self)%Z)
      by (intros H1; now apply (B H1)).
    clear B X.
    destruct n; try (now elim NE).
    + (* generate_sql *)
      specialize (S NE ltac:(discriminate)).
      destruct (step_generate _ _ _ _ _ F E)
        as [(-> & -> & reply & [->| ->])|(-> & -> & content & _ & ->)];
        cbn [user_query user_context final_answer sql_result sql_query
             retry_count error_log set_final_answer append_error
             append_message set_sql_query calls_ahead] in *;
        try rewrite length_app; cbn [List.length];
        repeat split; intros; try contradiction; try discriminate;
        eauto; try lia.
      all: specialize (B' ltac:(assumption)); lia.
    + (* validate_sql *)
      specialize (S NE ltac:(discriminate)).
      destruct (step_validate _ _ _ _ _ E)
        as (sql & Sq & -> & [(V & -> & ->)|(V & [-> | ->] & _ & ->)]);
        cbn [user_query user_context final_answer sql_result sql_query
             retry_count error_log set_final_answer append_error
             append_message set_sql_query calls_ahead] in *;
        try rewrite length_app; cbn [List.length];
        repeat split; intros; try contradiction; try discriminate;
        auto; try lia.
      exists sql. split; [exact V|]. now rewrite U.
    + (* execute_sql *)
      specialize (S NE ltac:(discriminate)).
      destruct (step_execute state calls S)
        as [(df & _ & E')|(e & _ & E')]; rewrite E' in E;
        injection E as <- <- <-;
        cbn [user_query user_context final_answer sql_result sql_query
             retry_count error_log set_sql_result append_error
             append_message calls_ahead] in *;
        try rewrite length_app; cbn [List.length];
        repeat split; intros; try contradiction; try discriminate;
        auto; try lia.
    + (* handle_error *)
      specialize (S NE ltac:(discriminate)).
      pose proof (step_inv self _ _ _ _ _ _ NE E) as P.
      cbn [step_post] in P.
      destruct P as (-> & -> & [(_ & -> & Lt)|(_ & -> & Ge)]);
        cbn [user_query user_context final_answer sql_result sql_query
             retry_count error_log set_retry_count calls_ahead] in *;
        repeat split; intros; try contradiction; try discriminate;
        auto; try lia.
      all: specialize (B' ltac:(assumption)); lia.
    + (* generate_answer *)
      destruct (step_answer _ _ _ _ _ E) as (-> & -> & a & v & c & ->).
      cbn [user_query user_context final_answer sql_result sql_query
           retry_count error_log set_validation set_final_answer
           calls_ahead] in *;
        repeat split; intros; try contradiction; try discriminate;
        auto; try lia.
      all: specialize (B' ltac:(assumption)); lia.
Qed.
End AgentMoves.

(** ** What [apply_rbac] keeps of a validated statement *)

Lemma scoped_owner_id uc :
  scoped_to_owner uc = true -> exists oid, owner_id uc = Some oid.
Proof.
  unfold scoped_to_owner. intros H. apply andb_prop in H as [_ H].
  destruct (owner_id uc); [eauto|discriminate].
Qed.

Lemma apply_rbac_no_dml sql uc w :
  fst (validate_query sql) = true -> In w DML_WORDS ->
  ~ whole_word_in w (apply_rbac sql uc).
Proof.
  intros V I H. destruct (scoped_to_owner uc) eqn:Sc.
  - destruct (scoped_owner_id uc Sc) as [oid Oid].
    destruct (DML_WORDS_words w I) as [N F].
    apply (whole_word_in_words w _ N F) in H as (x & Ix & Sx).
    destruct (apply_rbac_words sql uc oid x Sc Oid Ix)
      as [J|[J|[J|[J|[J|J]]]]].
    + assert (H : whole_word_in w sql)
        by (apply (whole_word_in_words w _ N F); eauto).
      rewrite (validate_query_dml sql w I H) in V. discriminate.
    + apply (inserted_not_dml x w I); auto.
    + apply (inserted_not_dml x w I); auto.
    + apply (inserted_not_dml x w I); auto.
    + apply (inserted_not_dml x w I); auto.
    + apply (numeral_not_dml x w I); [|exact Sx].
      destruct (words_in_inv _ _ J) as (a & b & E & _).
      pose proof (str_of_int_numeral oid) as Nm.
      rewrite E, !sforall_app in Nm.
      apply andb_prop in Nm as [_ Nm]. now apply andb_prop in Nm as [Nm _].
  - rewrite (apply_rbac_unscoped sql uc Sc) in H.
    rewrite (validate_query_dml sql w I H) in V. discriminate.
Qed.

(** ** Runs and responses *)

Section AgentRuns.
Context {DataFrame Schema Confidence : Type}.
Variable self : PropertyManagementAgent DataFrame Schema Confidence.
Implicit Types (state : AgentState DataFrame Schema Confidence) (n : node)
         (calls : nat).

Lemma invoke_unfold fuel n state calls :
  n <> END ->
  invoke self (S fuel) n state calls
  = match step self n state calls with
    | Ok (ns, c) => invoke self fuel (fst ns) (snd ns) c
    | Raise msg => Raise msg
    end.
Proof. intros NE. destruct n; try reflexivity. now elim NE. Qed.

(** More fuel does not change a run that has ended. *)
Lemma invoke_more fuel n state calls :
  (forall c', invoke self fuel n state calls <> Ok (None, c')) ->
  forall extra,
    invoke self (fuel + extra) n state calls = invoke self fuel n state calls.
Proof.
  revert n state calls. induction fuel as [|fuel IH]; intros n state calls H extra.
  - destruct (node_eq_END n) as [->|NE]; [now destruct extra|].
    exfalso. apply (H calls). destruct n; try reflexivity. now elim NE.
  - destruct (node_eq_END n) as [->|NE]; [reflexivity|].
    change (S fuel + extra) with (S (fuel + extra)).
    rewrite !invoke_unfold by exact NE. rewrite invoke_unfold in H by exact NE.
    destruct (step self n state calls) as [[[n' s'] c']|msg]; [|reflexivity].
    now apply IH.
Qed.

Lemma invoke_reaches q uc schema fuel :
  forall k n state calls final calls',
    reach self q uc schema k n state calls ->
    invoke self fuel n state calls = Ok (Some final, calls') ->
    exists k', reach self q uc schema k' END final calls'.
Proof.
  induction fuel as [|fuel IH]; intros k n state calls final calls' R E.
  - destruct n; cbn in E; try discriminate. injection E as <- <-. eauto.
  - destruct (node_eq_END n) as [->|NE].
    + cbn in E. injection E as <- <-. eauto.
    + rewrite invoke_unfold in E by exact NE.
      destruct (step self n state calls) as [[[n' s'] c']|msg] eqn:St;
        [|discriminate].
      cbn [fst snd] in E.
      exact (IH _ _ _ _ _ _ (reach_step self q uc schema _ _ _ _ _ _ _
                               R NE St) E).
Qed.

Lemma query_run_reaches q uc fuel final calls :
  query_run self fuel q uc 0 = Ok (Some final, calls) ->
  exists schema k,
    get_schema_metadata self = Ok schema
    /\ reach self q uc schema k END final calls.
Proof.
  unfold query_run, bind, lift.
  destruct (get_schema_metadata self) as [schema|]; [|discriminate].
  intros E. exists schema.
  destruct (invoke_reaches q uc schema fuel _ _ _ _ _ _
              (reach_start self q uc schema) E) as [k R].
  eauto.
Qed.

(** X1: for an agent built with [max_retries] at most 5, [query] returns
    the response of a run that ends within 24 node runs, which the default
    recursion limit of LangGraph admits: the response is the same for every
    bound on the node runs from 24 on. *)
Theorem query_returns :
  forall q uc fuel,
    (max_retries self <= 5)%Z ->
    DEFAULT_RECURSION_LIMIT - 1 <= fuel ->
    exists response,
      query self fuel q uc = Some response
      /\ query self (DEFAULT_RECURSION_LIMIT - 1) q uc = Some response.
Proof.
  intros q uc fuel R F. unfold query, query_run, bind, lift.
  destruct (get_schema_metadata self) as [schema|msg]; [|eauto].
  set (start := initial_state self q uc schema).
  set (limit := DEFAULT_RECURSION_LIMIT - 1) in *.
  assert (M : moves_left self generate_sql start <= limit).
  { unfold moves_left, limit, DEFAULT_RECURSION_LIMIT, start.
    cbn [retry_count initial_state]. lia. }
  assert (N : forall c', invoke self limit generate_sql start 0
                         <> Ok (None, c')).
  { intros c' E.
    destruct (invoke_total self _ _ _ 0 M) as [(f & c & E')|(m & E')];
      congruence. }
  replace fuel with (limit + (fuel - limit)) by lia.
  rewrite (invoke_more _ _ _ _ N).
  destruct (invoke_total self _ _ _ 0 M) as [(f & c & E')|(m & E')];
    rewrite E'; eauto.
Qed.

(** X2: the generator is called at most [max_retries + 1] times. *)
Theorem generator_calls_bounded :
  forall q uc fuel final calls,
    query_run self fuel q uc 0 = Ok (Some final, calls) ->
    (retry_count final <= Z.of_nat calls <= retry_count final + 2)%Z
    /\ ((1 <= max_retries self)%Z ->
        (Z.of_nat calls <= max_retries self + 1)%Z).
Proof.
  intros q uc fuel final calls E.
  destruct (query_run_reaches q uc fuel final calls E) as (schema & k & _ & R).
  destruct (reach_facts self q uc schema _ _ _ _ R)
    as (_ & _ & _ & _ & _ & _ & _ & C & _ & L).
  split; [now apply C|]. intros H1. now apply (L eq_refl H1).
Qed.

(** X3: a response never lists more errors than [max_retries]. *)
Theorem errors_bounded :
  forall q uc fuel response,
    (1 <= max_retries self)%Z ->
    query self fuel q uc = Some response ->
    (Z.of_nat (List.length (errors response)) <= max_retries self)%Z.
Proof.
  intros q uc fuel response H1. unfold query.
  destruct (query_run self fuel q uc 0) as [[[final|] calls]|msg] eqn:E;
    try discriminate; intros Q; injection Q as <-.
  - destruct (query_run_reaches q uc fuel final calls E)
      as (schema & k & _ & R).
    destruct (reach_facts self q uc schema _ _ _ _ R)
      as (_ & _ & _ & _ & _ & _ & _ & _ & _ & L).
    unfold prepare_response. cbn [errors]. now apply (L eq_refl H1).
  - unfold _handle_query_error. destruct (classify_error msg).
    cbn [errors List.length]. lia.
Qed.

(** X4: a response built from a final state reports failure exactly when
    the retries are exhausted, and then carries the apology. *)
Theorem failure_means_exhaustion :
  forall q uc fuel final calls,
    (1 <= max_retries self)%Z ->
    query_run self fuel q uc 0 = Ok (Some final, calls) ->
    (success (prepare_response final) = false
     <-> r_retry_count (prepare_response final) = max_retries self)
    /\ (success (prepare_response final) = false ->
        answer (prepare_response final) = apology).
Proof.
  intros q uc fuel final calls H1 E.
  destruct (query_run_reaches q uc fuel final calls E) as (schema & k & _ & R).
  destruct (reach_facts self q uc schema _ _ _ _ R)
    as (_ & _ & _ & _ & _ & _ & _ & _ & _ & L).
  destruct (L eq_refl H1) as (_ & Iff & _).
  unfold prepare_response. cbn [success answer r_retry_count].
  destruct (final_answer final) as [a|]; cbn [is_some truthy]; split.
  - split; [discriminate|]. intros Eq. now apply Iff in Eq.
  - discriminate.
  - split; [intros _; now apply Iff|reflexivity].
  - reflexivity.
Qed.

(** X22: for an agent built with [max_retries >= 1], the retry counter is
    at most [max_retries] at every point of a run, and so is the retry
    count of every response. *)
Theorem retry_count_bounded :
  (1 <= max_retries self)%Z ->
  (forall q uc schema k n state calls,
      reach self q uc schema k n state calls ->
      (retry_count state <= max_retries self)%Z)
  /\ (forall q uc fuel response,
        query self fuel q uc = Some response ->
        (r_retry_count response <= max_retries self)%Z).
Proof.
  intros H1.
  assert (B : forall q uc schema k n state calls,
             reach self q uc schema k n state calls ->
             (retry_count state <= max_retries self)%Z).
  { intros q uc schema k n state calls R.
    destruct (reach_invariant self q uc schema _ _ _ _ R) as (_ & _ & I).
    now destruct (I H1). }
  split; [exact B|].
  intros q uc fuel response. unfold query.
  destruct (query_run self fuel q uc 0) as [[[final|] calls]|msg] eqn:E;
    try discriminate; intros Q; injection Q as <-.
  - destruct (query_run_reaches q uc fuel final calls E)
      as (schema & k & _ & R).
    unfold prepare_response. cbn [r_retry_count]. exact (B _ _ _ _ _ _ _ R).
  - unfold _handle_query_error. destruct (classify_error msg).
    cbn [r_retry_count]. lia.
Qed.

(** X5: every statement handed to the engine is the rewriting of a
    statement that [validate_query] accepted; when that statement is of
    ASCII characters, none of the ten keywords INSERT, UPDATE, DELETE, DROP,
    TRUNCATE, ALTER, CREATE, REPLACE, EXEC, EXECUTE stands in the rewritten
    statement as a whole word. *)
Theorem executed_sql_is_validated :
  forall q uc schema k state calls,
    reach self q uc schema k execute_sql state calls ->
    exists sql,
      fst (validate_query sql) = true
      /\ sql_query state = Some (apply_rbac sql uc)
      /\ (ascii_text sql = true ->
          forall w,
            In w ["INSERT"; "UPDATE"; "DELETE"; "DROP"; "TRUNCATE"; "ALTER";
                  "CREATE"; "REPLACE"; "EXEC"; "EXECUTE"] ->
            ~ whole_word_in w (apply_rbac sql uc)).
Proof.
  intros q uc schema k state calls R.
  destruct (reach_facts self q uc schema _ _ _ _ R)
    as (_ & _ & _ & _ & X & _).
  destruct (X eq_refl) as (sql & V & E).
  exists sql. repeat split; auto. intros _ w I. now apply apply_rbac_no_dml.
Qed.

(** X7: a failure of the engine never leaves the executor node as an
    exception: the node logs the sanitized error and the run goes to the
    error node; when the engine answers, the run goes to the answer node. *)
Theorem execution_outcomes :
  forall q uc schema k state calls,
    reach self q uc schema k execute_sql state calls ->
    (exists df,
        read_sql_query self (sql_query state) = Ok df
        /\ exists state',
             step self execute_sql state calls
             = Ok ((generate_answer, state'), calls)
             /\ sql_result state' = Some df
             /\ error_log state' = error_log state)
    \/ (exists e,
           read_sql_query self (sql_query state) = Raise e
           /\ exists state',
                step self execute_sql state calls
                = Ok ((handle_error, state'), calls)
                /\ sql_result state' = None
                /\ error_log state'
                   = (error_log state
                        ++ [("SQL execution error: "
                               ++ sanitize_error e)%string])%list).
Proof.
  intros q uc schema k state calls R.
  destruct (reach_facts self q uc schema _ _ _ _ R)
    as (_ & _ & _ & S & _).
  specialize (S ltac:(discriminate) ltac:(discriminate)).
  destruct (step_execute self state calls S)
    as [(df & Rd & E)|(e & Rd & E)].
  - left. exists df. split; [exact Rd|]. eexists. split; [exact E|].
    split; reflexivity.
  - right. exists e. split; [exact Rd|]. eexists. split; [exact E|].
    split; [exact S|reflexivity].
Qed.

End AgentRuns.

(** ** The clean-up of the generated SQL *)

Lemma replace_skip_drop old new k s :
  replace_skip old new k s = replace_skip old new 0 (drop k s).
Proof.
  revert k. induction s as [|c s IH]; intros [|k]; try reflexivity.
  simpl. apply IH.
Qed.

Lemma slength_drop_le k s : String.length (drop k s) <= String.length s.
Proof.
  revert k. induction s as [|c s IH]; intros [|k]; simpl; try lia.
  specialize (IH k). lia.
Qed.

Lemma contains_cons_other w0 w c s :
  Ascii.eqb w0 c = false ->
  contains (String w0 w) (String c s) = contains (String w0 w) s.
Proof. intros E. simpl. now rewrite E. Qed.

Lemma contains_app_l w a b : contains w b = true -> contains w (a ++ b) = true.
Proof.
  intros H. induction a as [|c a IH]; [exact H|].
  simpl. rewrite IH. apply orb_true_r.
Qed.

Lemma lstrip_by_spec p s :
  exists t, s = t ++ lstrip_by p s /\ sforall p t = true.
Proof.
  induction s as [|c s (t & E & F)]; simpl.
  - now exists "".
  - destruct (p c) eqn:Pc.
    + exists (String c t). simpl. rewrite Pc, F. now rewrite <- E.
    + now exists "".
Qed.

Lemma contains_strip w s : contains w (strip s) = true -> contains w s = true.
Proof.
  unfold strip, rstrip. intros H.
  destruct (lstrip_by_spec is_space s) as (t1 & E1 & _).
  destruct (rstrip_by_spec is_space (lstrip_by is_space s)) as (t2 & E2 & _).
  rewrite E1. apply contains_app_l. rewrite E2. now apply contains_mono.
Qed.

Lemma fence_at_head s :
  startswith fence s = true -> 3 <= span_len (Ascii.eqb backtick) s.
Proof.
  unfold fence, backtick.
  destruct s as [|a [|b [|c s]]]; cbn [startswith span_len];
    repeat match goal with
           | |- context [Ascii.eqb "`" ?x] =>
               destruct (Ascii.eqb "`" x); cbn [andb]
           end; try discriminate.
  intros _. lia.
Qed.

Lemma fence_not_at_head s :
  startswith fence (String backtick s) = false ->
  span_len (Ascii.eqb backtick) s <= 1.
Proof.
  unfold fence, backtick.
  destruct s as [|a [|b s]]; cbn [startswith span_len];
    rewrite ?Ascii.eqb_refl; cbn [andb];
    repeat match goal with
           | |- context [Ascii.eqb "`" ?x] =>
               destruct (Ascii.eqb "`" x); cbn [andb]
           end; intros; try discriminate; lia.
Qed.

Lemma contains_cons w c s :
  contains w (String c s) = startswith w (String c s) || contains w s.
Proof. reflexivity. Qed.

Lemma no_fence_cons s :
  contains fence s = false -> span_len (Ascii.eqb backtick) s <= 1 ->
  contains fence (String backtick s) = false.
Proof.
  intros C L. rewrite contains_cons, C, orb_false_r.
  destruct (startswith fence (String backtick s)) eqn:S; [|reflexivity].
  apply fence_at_head in S. cbn [span_len] in S.
  rewrite Ascii.eqb_refl in S. lia.
Qed.

Lemma replace_fence_spec n s :
  String.length s <= n ->
  contains fence (replace fence "" s) = false
  /\ (span_len (Ascii.eqb backtick) s < 3 ->
      span_len (Ascii.eqb backtick) (replace fence "" s)
      = span_len (Ascii.eqb backtick) s).
Proof.
  unfold replace. revert s. induction n as [|n IH]; intros s L.
  - destruct s; [|simpl in L; lia]. split; reflexivity.
  - destruct s as [|c s]; [split; reflexivity|].
    simpl in L. cbn [replace_skip].
    destruct (startswith fence (String c s)) eqn:S.
    + rewrite replace_skip_drop. cbn [append].
      assert (Ld : String.length (drop (String.length fence - 1) s) <= n).
      { eapply Nat.le_trans; [apply slength_drop_le|lia]. }
      destruct (IH _ Ld) as (C & _). split; [exact C|].
      intros Lt. apply fence_at_head in S. lia.
    + destruct (IH s ltac:(lia)) as (C & Sp).
      destruct (Ascii.eqb backtick c) eqn:B.
      * apply Ascii.eqb_eq in B. subst c.
        pose proof (fence_not_at_head _ S) as Ls.
        specialize (Sp ltac:(lia)). split.
        -- apply no_fence_cons; [exact C|]. lia.
        -- intros _. cbn [span_len]. rewrite Ascii.eqb_refl.
           now rewrite Sp.
      * split.
        -- unfold fence. rewrite contains_cons_other; [exact C|exact B].
        -- intros _. cbn [span_len]. now rewrite B.
Qed.

Lemma clean_sql_has_no_fence :
  forall content, contains fence (clean_sql content) = false.
Proof.
  intros content. unfold clean_sql.
  destruct (contains fence (strip (replace "```" "" _))) eqn:C;
    [|reflexivity].
  apply contains_strip in C.
  now rewrite (proj1 (replace_fence_spec _ _ (le_n _))) in C.
Qed.

(** X8: the statement the validator node is given never holds a markdown
    fence, whatever the generator answered. *)
Theorem validated_sql_has_no_fence :
  forall {DataFrame Schema Confidence : Type}
         (self : PropertyManagementAgent DataFrame Schema Confidence)
         q uc schema k state calls,
    reach self q uc schema k validate_sql state calls ->
    exists sql,
      sql_query state = Some sql /\ contains fence sql = false.
Proof.
  intros DataFrame Schema Confidence self q uc schema k state calls R.
  destruct (reach_facts self q uc schema _ _ _ _ R)
    as (_ & _ & _ & _ & _ & X & _).
  destruct (X eq_refl) as (content & E).
  exists (clean_sql content). split; [exact E|apply clean_sql_has_no_fence].
Qed.

Lemma validated_sql_has_no_fence_witness :
  reach Fenced.agent Fenced.question (Scenario.owner 2) tt 1 validate_sql
        Fenced.generated 1
  /\ exists sql,
       sql_query Fenced.generated = Some sql /\ contains fence sql = false.
Proof.
  pose proof (reach_start Fenced.agent Fenced.question (Scenario.owner 2) tt)
    as R.
  advance R.
  split; [exact R|].
  exact (validated_sql_has_no_fence Fenced.agent Fenced.question
           (Scenario.owner 2) tt 1 Fenced.generated 1 R).
Defined.

(** ** The properties of runs, on the two scenarios *)

Lemma query_returns_witness :
  (max_retries Fenced.agent <= 5)%Z
  /\ DEFAULT_RECURSION_LIMIT - 1 <= 25
  /\ exists response,
       query Fenced.agent 25 Fenced.question (Scenario.owner 2)
       = Some response
       /\ query Fenced.agent (DEFAULT_RECURSION_LIMIT - 1) Fenced.question
                (Scenario.owner 2)
          = Some response.
Proof.
  assert (R : (max_retries Fenced.agent <= 5)%Z) by (vm_compute; discriminate).
  assert (F : DEFAULT_RECURSION_LIMIT - 1 <= 25) by (vm_compute; lia).
  split; [exact R|]. split; [exact F|].
  exact (query_returns Fenced.agent Fenced.question (Scenario.owner 2) 25 R F).
Defined.

Lemma generator_calls_bounded_witness :
  query_run Fenced.rejecting 9 Fenced.question Scenario.admin 0
  = Ok (Some Fenced.exhausted, 1)
  /\ (retry_count Fenced.exhausted <= Z.of_nat 1
      <= retry_count Fenced.exhausted + 2)%Z
  /\ ((1 <= max_retries Fenced.rejecting)%Z ->
      (Z.of_nat 1 <= max_retries Fenced.rejecting + 1)%Z).
Proof.
  assert (E : query_run Fenced.rejecting 9 Fenced.question Scenario.admin 0
              = Ok (Some Fenced.exhausted, 1)) by (vm_compute; reflexivity).
  split; [exact E|].
  exact (generator_calls_bounded Fenced.rejecting Fenced.question
           Scenario.admin 9 Fenced.exhausted 1 E).
Defined.

Lemma errors_bounded_witness :
  (1 <= max_retries Fenced.rejecting)%Z
  /\ query Fenced.rejecting 9 Fenced.question Scenario.admin
     = Some (prepare_response Fenced.exhausted)
  /\ (Z.of_nat (List.length (errors (prepare_response Fenced.exhausted)))
      <= max_retries Fenced.rejecting)%Z.
Proof.
  assert (H1 : (1 <= max_retries Fenced.rejecting)%Z)
    by (vm_compute; discriminate).
  assert (E : query Fenced.rejecting 9 Fenced.question Scenario.admin
              = Some (prepare_response Fenced.exhausted))
    by (vm_compute; reflexivity).
  split; [exact H1|]. split; [exact E|].
  exact (errors_bounded Fenced.rejecting Fenced.question Scenario.admin 9
           (prepare_response Fenced.exhausted) H1 E).
Defined.

Lemma retry_count_bounded_witness :
  (1 <= max_retries Fenced.rejecting)%Z
  /\ query Fenced.rejecting 9 Fenced.question Scenario.admin
     = Some (prepare_response Fenced.exhausted)
  /\ (r_retry_count (prepare_response Fenced.exhausted)
      <= max_retries Fenced.rejecting)%Z.
Proof.
  assert (H1 : (1 <= max_retries Fenced.rejecting)%Z)
    by (vm_compute; discriminate).
  assert (E : query Fenced.rejecting 9 Fenced.question Scenario.admin
              = Some (prepare_response Fenced.exhausted))
    by (vm_compute; reflexivity).
  split; [exact H1|]. split; [exact E|].
  exact (proj2 (retry_count_bounded Fenced.rejecting H1)
               Fenced.question Scenario.admin 9
               (prepare_response Fenced.exhausted) E).
Defined.

Lemma failure_means_exhaustion_witness :
  (1 <= max_retries Fenced.rejecting)%Z
  /\ query_run Fenced.rejecting 9 Fenced.question Scenario.admin 0
     = Ok (Some Fenced.exhausted, 1)
  /\ (success (prepare_response Fenced.exhausted) = false
      <-> r_retry_count (prepare_response Fenced.exhausted)
          = max_retries Fenced.rejecting)
  /\ (success (prepare_response Fenced.exhausted) = false ->
      answer (prepare_response Fenced.exhausted) = apology).
Proof.
  assert (H1 : (1 <= max_retries Fenced.rejecting)%Z)
    by (vm_compute; discriminate).
  assert (E : query_run Fenced.rejecting 9 Fenced.question Scenario.admin 0
              = Ok (Some Fenced.exhausted, 1)) by (vm_compute; reflexivity).
  split; [exact H1|]. split; [exact E|].
  exact (failure_means_exhaustion Fenced.rejecting Fenced.question
           Scenario.admin 9 Fenced.exhausted 1 H1 E).
Defined.

Lemma reach_rewritten :
  reach Fenced.agent Fenced.question (Scenario.owner 2) tt 2 execute_sql
        Fenced.rewritten 1.
Proof.
  pose proof (reach_start Fenced.agent Fenced.question (Scenario.owner 2) tt)
    as R.
  do 2 advance R. exact R.
Defined.

Lemma executed_sql_is_validated_witness :
  reach Fenced.agent Fenced.question (Scenario.owner 2) tt 2 execute_sql
        Fenced.rewritten 1
  /\ exists sql,
       fst (validate_query sql) = true
       /\ sql_query Fenced.rewritten
          = Some (apply_rbac sql (Scenario.owner 2))
       /\ (ascii_text sql = true ->
           forall w,
             In w ["INSERT"; "UPDATE"; "DELETE"; "DROP"; "TRUNCATE"; "ALTER";
                   "CREATE"; "REPLACE"; "EXEC"; "EXECUTE"] ->
             ~ whole_word_in w (apply_rbac sql (Scenario.owner 2))).
Proof.
  split; [exact reach_rewritten|].
  exact (executed_sql_is_validated Fenced.agent Fenced.question
           (Scenario.owner 2) tt 2 Fenced.rewritten 1 reach_rewritten).
Defined.

Lemma execution_outcomes_witness :
  reach Fenced.agent Fenced.question (Scenario.owner 2) tt 2 execute_sql
        Fenced.rewritten 1
  /\ ((exists df,
          read_sql_query Fenced.agent (sql_query Fenced.rewritten) = Ok df
          /\ exists state',
               step Fenced.agent execute_sql Fenced.rewritten 1
               = Ok ((generate_answer, state'), 1)
               /\ sql_result state' = Some df
               /\ error_log state' = error_log Fenced.rewritten)
      \/ (exists e,
             read_sql_query Fenced.agent (sql_query Fenced.rewritten)
             = Raise e
             /\ exists state',
                  step Fenced.agent execute_sql Fenced.rewritten 1
                  = Ok ((handle_error, state'), 1)
                  /\ sql_result state' = None
                  /\ error_log state'
                     = (error_log Fenced.rewritten
                          ++ [("SQL execution error: "
                                 ++ sanitize_error e)%string])%list)).
Proof.
  split; [exact reach_rewritten|].
  exact (execution_outcomes Fenced.agent Fenced.question
           (Scenario.owner 2) tt 2 Fenced.rewritten 1 reach_rewritten).
Defined.

(** ** A rejected statement and the rest of the run *)

Section AgentDoom.
Context {DataFrame Schema Confidence : Type}.
Variable self : PropertyManagementAgent DataFrame Schema Confidence.
Implicit Types (state : AgentState DataFrame Schema Confidence) (n : node)
         (calls : nat).

Lemma step_generate_cases state calls n' state' calls' :
  final_answer state = None ->
  step self generate_sql state calls = Ok ((n', state'), calls') ->
  (n' = END
   /\ ((retry_count state = 0%Z
        /\ fst (is_data_query (user_query state)) = false)
       \/ fst (validate_query_intent (user_query state) (user_context state))
          = false))
  \/ (n' = validate_sql
      /\ fst (validate_query_intent (user_query state) (user_context state))
         = true
      /\ error_log state' = error_log state
      /\ retry_count state' = retry_count state).
Proof.
  intros F. unfold step, bind, lift, ret. cbn [run_node].
  destruct (_generate_sql_node self state calls) as [[s1 c1]|msg] eqn:R;
    [|discriminate].
  destruct (route self generate_sql s1) as [n1|msg] eqn:Rt; [|discriminate].
  intros E. injection E as <- <- <-.
  unfold _generate_sql_node, bind, lift, ret, invoke_llm in R.
  cbn [route] in Rt. unfold _sql_generation_router in Rt.
  destruct (if (retry_count state =? 0)%Z then _ else _) as [[] r] eqn:D.
  - destruct (validate_query_intent _ _) as [[] m] eqn:V; cbn [negb] in R.
    + destruct (get_schema_description self); [|discriminate].
      destruct (llm_invoke self calls state) as [content|]; [|discriminate].
      injection R as <- <-. right.
      cbn [final_answer append_message set_sql_query] in Rt.
      rewrite F in Rt. cbn in Rt. injection Rt as <-.
      repeat split.
    + injection R as <- <-. left.
      pose proof (validate_query_intent_denied_reason
                    (user_query state) (user_context state)) as N.
      rewrite V in N. specialize (N eq_refl). cbn [snd] in N.
      cbn [final_answer set_final_answer] in Rt.
      rewrite (truthy_nonempty m N) in Rt. cbn in Rt. injection Rt as <-.
      split; [reflexivity|]. now right.
  - injection R as <- <-. left.
    destruct (retry_count state =? 0)%Z eqn:Z0; [|discriminate].
    apply Z.eqb_eq in Z0.
    assert (N : nonempty r = true).
    { pose proof (is_data_query_response (user_query state)) as Q.
      rewrite D in Q. specialize (Q eq_refl). now injection Q as ->. }
    cbn [final_answer set_final_answer] in Rt.
    rewrite (truthy_nonempty r N) in Rt. cbn in Rt. injection Rt as <-.
    split; [reflexivity|]. left. split; [exact Z0|]. now rewrite D.
Qed.

Lemma step_handle state calls n' state' calls' :
  step self handle_error state calls = Ok ((n', state'), calls') ->
  calls' = calls
  /\ state' = set_retry_count state (retry_count state + 1)%Z
  /\ (n' = generate_sql \/ n' = END).
Proof.
  unfold step, bind, lift, ret. cbn [run_node route].
  unfold _handle_error_node, ret, _error_router.
  cbn [retry_count set_retry_count].
  destruct (retry_count state + 1 <? max_retries self)%Z; cbn;
    intros E; injection E as <- <- <-; auto.
Qed.

Lemma validation_router_log state state' :
  error_log state' = error_log state ->
  _validation_router state' = _validation_router state.
Proof. unfold _validation_router. now intros ->. Qed.

Lemma validation_router_rejected state m :
  _validation_router
    (append_error state ("Security validation failed: " ++ m)) = "error".
Proof.
  unfold _validation_router. cbn [error_log append_error].
  rewrite last_error_app.
  change ("Security validation failed: " ++ m)
    with ("Security validation" ++ (" failed: " ++ m)).
  now rewrite startswith_app.
Qed.

Variables (q : string) (uc : UserContext) (schema : Schema).

(** Past the first generation, the question has passed the authorization
    check. *)
Lemma reach_intent k n state calls :
  reach self q uc schema k n state calls ->
  n <> END -> (n = generate_sql -> retry_count state <> 0%Z) ->
  fst (validate_query_intent q uc) = true.
Proof.
  induction 1 as [|k n state calls n' state' calls' R IH NE E];
    intros NE' G.
  - now elim (G eq_refl).
  - destruct (reach_facts self q uc schema _ _ _ _ R) as (Q & U & F & _).
    destruct n; try (now elim NE); try (apply IH; discriminate).
    destruct (step_generate_cases _ _ _ _ _ (F NE) E)
      as [(-> & _)|(_ & V & _)]; [now elim NE'|].
    now rewrite Q, U in V.
Qed.

Lemma rejection_loop_step k n state calls n' state' calls' :
  reach self q uc schema k n state calls ->
  in_rejection_loop n state ->
  step self n state calls = Ok ((n', state'), calls') ->
  final_answer state' = None
  /\ (n' = END \/ in_rejection_loop n' state').
Proof.
  intros R [V N] E.
  destruct (reach_facts self q uc schema _ _ _ _ R) as (Q & U & F & _).
  destruct (reach_invariant self q uc schema _ _ _ _ R) as (_ & Z0 & _).
  destruct N as [->|[->|[-> Rc]]].
  - specialize (F ltac:(discriminate)).
    destruct (step_validate self _ _ _ _ _ E)
      as (sql & _ & _ & [(_ & -> & ->)|(_ & Nx & Iff & ->)]).
    + split; [exact F|]. right. split; [|auto].
      apply validation_router_rejected.
    + split; [exact F|]. right.
      assert (V' : _validation_router
                     (set_sql_query state
                        (Some (apply_rbac sql (user_context state))))
                   = "error")
        by (rewrite <- V; now apply validation_router_log).
      split; [exact V'|]. destruct Nx as [->| ->]; [|auto].
      rewrite V' in Iff. pose proof (proj1 Iff eq_refl) as X. discriminate X.
  - specialize (F ltac:(discriminate)).
    destruct (step_handle _ _ _ _ _ E) as (_ & -> & Nx).
    split; [exact F|]. destruct Nx as [->| ->]; [right|now left].
    split; [rewrite <- V; now apply validation_router_log|].
    right; right. split; [reflexivity|]. cbn [retry_count set_retry_count].
    lia.
  - specialize (F ltac:(discriminate)).
    pose proof (reach_intent _ _ _ _ R ltac:(discriminate) (fun _ => Rc))
      as I.
    destruct (step_generate_cases _ _ _ _ _ F E)
      as [(_ & [[Z1 _]|D])|(-> & _ & L & _)].
    + now elim Rc.
    + rewrite Q, U in D. congruence.
    + assert (F' : final_answer state' = None).
      { assert (R' : reach self q uc schema (S k) validate_sql state' calls')
          by (eapply reach_step; eauto; discriminate).
        destruct (reach_facts self q uc schema _ _ _ _ R')
          as (_ & _ & F' & _).
        now apply F'. }
      split; [exact F'|]. right. split; [|auto].
      rewrite <- V. now apply validation_router_log.
Qed.

Lemma rejection_loop_invoke fuel :
  forall k n state calls final calls',
    reach self q uc schema k n state calls ->
    in_rejection_loop n state ->
    invoke self fuel n state calls = Ok (Some final, calls') ->
    final_answer final = None.
Proof.
  induction fuel as [|fuel IH]; intros k n state calls final calls' R D E.
  - destruct D as [_ [->|[->|[-> _]]]]; discriminate.
  - assert (NE : n <> END)
      by (destruct D as [_ [->|[->|[-> _]]]]; discriminate).
    rewrite invoke_unfold in E by exact NE.
    destruct (step self n state calls) as [[[n' s'] c']|msg] eqn:St;
      [|discriminate].
    cbn [fst snd] in E.
    destruct (rejection_loop_step _ _ _ _ _ _ _ R D St) as [F [->|D']].
    + destruct fuel; cbn in E; injection E as <- <-; exact F.
    + exact (IH _ _ _ _ _ _ (reach_step self q uc schema _ _ _ _ _ _ _
                               R NE St) D' E).
Qed.

(** X9: once the validator has rejected a statement, the call of [query]
    cannot succeed: on every later attempt the validation router still
    reads the logged rejection, no statement is executed, and the response
    reports failure. *)
Theorem rejection_ends_in_failure :
  forall k state calls sql fuel response,
    get_schema_metadata self = Ok schema ->
    reach self q uc schema k validate_sql state calls ->
    sql_query state = Some sql ->
    fst (validate_query sql) = false ->
    query self fuel q uc = Some response ->
    success response = false.
Proof.
  intros k state calls sql fuel response Sch R Sq V.
  unfold query.
  destruct (query_run self fuel q uc 0) as [[[final|] c]|msg] eqn:E;
    try discriminate; intros X; injection X as <-.
  - rewrite (query_of_run self q uc schema fuel Sch) in E.
    assert (N : forall c', invoke self fuel generate_sql
                             (initial_state self q uc schema) 0
                           <> Ok (None, c')) by (intros c'; congruence).
    pose proof (invoke_more self _ _ _ _ N k) as M.
    rewrite Nat.add_comm, (invoke_reach self q uc schema _ _ _ _ R fuel), E
      in M.
    destruct fuel as [|fuel]; [discriminate|].
    rewrite invoke_unfold in M by discriminate.
    destruct (step self validate_sql state calls) as [[[n' s'] c']|] eqn:St;
      [|discriminate].
    cbn [fst snd] in M.
    destruct (step_validate self _ _ _ _ _ St)
      as (sql' & Sq' & _ & [(_ & -> & ->)|(V' & _)]);
      [|rewrite Sq in Sq'; injection Sq' as <-; congruence].
    assert (D : in_rejection_loop handle_error
                  (append_error state
                     ("Security validation failed: "
                        ++ snd (validate_query sql'))))
      by (split; [apply validation_router_rejected|auto]).
    pose proof (rejection_loop_invoke fuel _ _ _ _ _ _
                  (reach_step self q uc schema _ _ _ _ _ _ _ R
                     ltac:(discriminate) St) D M) as F.
    unfold prepare_response. cbn [success]. now rewrite F.
  - unfold _handle_query_error. now destruct (classify_error msg).
Qed.

End AgentDoom.

Lemma rejection_ends_in_failure_witness :
  let self := Scenario.toy_agent 3 Scenario.llm_drop_then_select
                                 Scenario.db_three_rows in
  let state : AgentState nat unit nat :=
    mkState [("assistant", "Generated SQL: DROP TABLE Properties")]
            Scenario.admin Fenced.question (Some "DROP TABLE Properties")
            None None 0%Z [] tt true 100 in
  reach self Fenced.question Scenario.admin tt 1 validate_sql state 1
  /\ exists response,
       query self (enough_fuel self) Fenced.question Scenario.admin
       = Some response
       /\ success response = false.
Proof.
  intros self state.
  pose proof (reach_start self Fenced.question Scenario.admin tt) as R.
  advance R. split; [exact R|].
  eexists. split; [vm_compute; reflexivity|].
  eapply (rejection_ends_in_failure self Fenced.question Scenario.admin tt
            1 state 1 "DROP TABLE Properties" (enough_fuel self) _
            eq_refl R eq_refl eq_refl).
  vm_compute. reflexivity.
Defined.

(** ** What [validate_query] accepts *)

Lemma upper_app_inv s a' b' :
  upper s = a' ++ b' ->
  exists a b, s = a ++ b /\ upper a = a' /\ upper b = b'.
Proof. apply smap_app_inv. Qed.

Lemma upper_cons_inv s c t' :
  upper s = String c t' ->
  exists c0 t, s = String c0 t /\ upper_char c0 = c /\ upper t = t'.
Proof.
  destruct s as [|c0 t]; [discriminate|]. intros E. injection E as E1 E2.
  eauto.
Qed.

Lemma lower_char_symbol c d :
  In d ["-"; "/"; "*"; ";"]%char -> lower_char c = d -> c = d.
Proof.
  intros [<-|[<-|[<-|[<-|[]]]]];
    destruct c as [[] [] [] [] [] [] [] []]; vm_compute; congruence.
Qed.

Lemma upper_char_symbol c d :
  In d ["-"; "/"; "*"; ";"]%char -> upper_char c = d -> c = d.
Proof.
  intros [<-|[<-|[<-|[<-|[]]]]];
    destruct c as [[] [] [] [] [] [] [] []]; vm_compute; congruence.
Qed.

(** A literal made of two symbols is only matched by itself. *)
Lemma lit_eq_symbols c1 c2 x :
  In c1 ["-"; "/"; "*"; ";"]%char -> In c2 ["-"; "/"; "*"; ";"]%char ->
  lit_eq true (String c1 (String c2 "")) (upper x) = true ->
  x = String c1 (String c2 "").
Proof.
  intros I1 I2 H. apply lit_eq_ci in H. apply same_ci_of_upper in H.
  unfold same_ci, lower in H.
  destruct x as [|a [|b [|? ?]]]; try discriminate.
  cbn [smap] in H. injection H as H1 H2.
  assert (L1 : lower_char c1 = c1)
    by (destruct I1 as [<-|[<-|[<-|[<-|[]]]]]; reflexivity).
  assert (L2 : lower_char c2 = c2)
    by (destruct I2 as [<-|[<-|[<-|[<-|[]]]]]; reflexivity).
  rewrite L1 in H1. rewrite L2 in H2.
  now rewrite (lower_char_symbol a c1 I1 H1), (lower_char_symbol b c2 I2 H2).
Qed.

Lemma lit_eq_of_upper w x :
  lit_eq true w (upper x) = true -> same_ci x w.
Proof. intros H. apply lit_eq_ci in H. now apply same_ci_of_upper. Qed.

Lemma separator_then_drop_sound sql :
  re_test true (Chr ";" ;; Star is_space ;; lit "DROP")%re (upper sql) = true ->
  separator_then_drop sql.
Proof.
  unfold re_test, re_search.
  destruct (search_from _ _ _ _ _) as [m|] eqn:E; [intros _|discriminate].
  apply search_inv in E as (a' & b' & Es & M & _).
  unfold match_here in M. rewrite rmatch_seq in M.
  apply (one_char_inv _ (chr_eq true ";")) in M as (c & s1 & -> & Ec & M).
  rewrite rmatch_seq, rmatch_star in M.
  apply rep_inv in M as (ws' & s2 & -> & Fw & M).
  apply rmatch_lit_inv in M as (x' & b2 & -> & Lx & _).
  apply upper_app_inv in Es as (a & r1 & -> & _ & E1).
  apply upper_cons_inv in E1 as (c0 & r2 & -> & Ec0 & E2).
  apply upper_app_inv in E2 as (ws & r3 & -> & <- & E3).
  apply upper_app_inv in E3 as (x & b & -> & <- & _).
  apply chr_eq_ci in Ec. subst c.
  assert (c0 = ";"%char) as ->.
  { apply upper_char_symbol; [simpl; auto|].
    apply lower_char_symbol; [simpl; auto|].
    now rewrite <- Ec. }
  exists a, ws, x, b. split; [reflexivity|]. split.
  - now rewrite sforall_upper_space in Fw.
  - now apply lit_eq_of_upper.
Qed.

Lemma comment_token_then_drop_sound sql :
  re_test true (lit "--" ;; Star is_dot ;; lit "DROP")%re (upper sql) = true ->
  comment_token_then_drop is_dot sql.
Proof.
  unfold re_test, re_search.
  destruct (search_from _ _ _ _ _) as [m|] eqn:E; [intros _|discriminate].
  apply search_inv in E as (a' & b' & Es & M & _).
  unfold match_here in M. rewrite rmatch_seq in M.
  apply rmatch_lit_inv in M as (t' & s1 & -> & Lt & M).
  rewrite rmatch_seq, rmatch_star in M.
  apply rep_inv in M as (m1' & s2 & -> & F1 & M).
  apply rmatch_lit_inv in M as (x' & b2 & -> & Lx & _).
  apply upper_app_inv in Es as (a & r1 & -> & _ & E1).
  apply upper_app_inv in E1 as (t & r2 & -> & <- & E2).
  apply upper_app_inv in E2 as (m1 & r3 & -> & <- & E3).
  apply upper_app_inv in E3 as (x & b & -> & <- & _).
  apply lit_eq_symbols in Lt; [subst t|simpl; auto|simpl; auto].
  exists a, m1, x, b. split; [reflexivity|]. split.
  - now rewrite sforall_upper_dot in F1.
  - now apply lit_eq_of_upper.
Qed.

Lemma comment_block_with_drop_sound sql :
  re_test true
    (lit "/*" ;; Star is_dot ;; lit "DROP" ;; Star is_dot ;; lit "*/")%re
    (upper sql) = true ->
  comment_block_with_drop is_dot sql.
Proof.
  unfold re_test, re_search.
  destruct (search_from _ _ _ _ _) as [m|] eqn:E; [intros _|discriminate].
  apply search_inv in E as (a' & b' & Es & M & _).
  unfold match_here in M. rewrite rmatch_seq in M.
  apply rmatch_lit_inv in M as (t' & s1 & -> & Lt & M).
  rewrite rmatch_seq, rmatch_star in M.
  apply rep_inv in M as (m1' & s2 & -> & F1 & M).
  rewrite rmatch_seq in M.
  apply rmatch_lit_inv in M as (x' & s3 & -> & Lx & M).
  rewrite rmatch_seq, rmatch_star in M.
  apply rep_inv in M as (m2' & s4 & -> & F2 & M).
  apply rmatch_lit_inv in M as (u' & b2 & -> & Lu & _).
  apply upper_app_inv in Es as (a & r1 & -> & _ & E1).
  apply upper_app_inv in E1 as (t & r2 & -> & <- & E2).
  apply upper_app_inv in E2 as (m1 & r3 & -> & <- & E3).
  apply upper_app_inv in E3 as (x & r4 & -> & <- & E4).
  apply upper_app_inv in E4 as (m2 & r5 & -> & <- & E5).
  apply upper_app_inv in E5 as (u & b & -> & <- & _).
  apply lit_eq_symbols in Lt; [subst t|simpl; auto|simpl; auto].
  apply lit_eq_symbols in Lu; [subst u|simpl; auto|simpl; auto].
  exists a, m1, x, m2, b. split; [reflexivity|].
  rewrite sforall_upper_dot in F1, F2. repeat split; auto.
  now apply lit_eq_of_upper.
Qed.

Lemma union_select_from_sound sql :
  re_test true
    (lit "UNION" ;; Star is_dot ;; lit "SELECT" ;; Star is_dot ;; lit "FROM")%re
    (upper sql) = true ->
  union_select_from is_dot sql.
Proof.
  unfold re_test, re_search.
  destruct (search_from _ _ _ _ _) as [m|] eqn:E; [intros _|discriminate].
  apply search_inv in E as (a' & b' & Es & M & _).
  unfold match_here in M. rewrite rmatch_seq in M.
  apply rmatch_lit_inv in M as (t' & s1 & -> & Lt & M).
  rewrite rmatch_seq, rmatch_star in M.
  apply rep_inv in M as (m1' & s2 & -> & F1 & M).
  rewrite rmatch_seq in M.
  apply rmatch_lit_inv in M as (x' & s3 & -> & Lx & M).
  rewrite rmatch_seq, rmatch_star in M.
  apply rep_inv in M as (m2' & s4 & -> & F2 & M).
  apply rmatch_lit_inv in M as (u' & b2 & -> & Lu & _).
  apply upper_app_inv in Es as (a & r1 & -> & _ & E1).
  apply upper_app_inv in E1 as (t & r2 & -> & <- & E2).
  apply upper_app_inv in E2 as (m1 & r3 & -> & <- & E3).
  apply upper_app_inv in E3 as (x & r4 & -> & <- & E4).
  apply upper_app_inv in E4 as (m2 & r5 & -> & <- & E5).
  apply upper_app_inv in E5 as (u & b & -> & <- & _).
  exists a, t, m1, x, m2, u, b. split; [reflexivity|].
  rewrite sforall_upper_dot in F1, F2.
  repeat split; auto; now apply lit_eq_of_upper.
Qed.

Lemma injection_loop_sound sql :
  existsb (fun p => re_test true p (upper sql)) injection_patterns = true ->
  injection_shape is_dot sql.
Proof.
  unfold injection_patterns. cbn [existsb]. rewrite !orb_true_iff.
  intros [H|[H|[H|[H|H]]]]; [| | | |discriminate].
  - left. now apply separator_then_drop_sound.
  - right; left. now apply comment_token_then_drop_sound.
  - right; right; left. now apply comment_block_with_drop_sound.
  - right; right; right. now apply union_select_from_sound.
Qed.

(** X10: [validate_query] accepts a statement of ASCII characters exactly
    when none of the ten keywords INSERT, UPDATE, DELETE, DROP, TRUNCATE,
    ALTER, CREATE, REPLACE, EXEC, EXECUTE stands in it as a whole word and
    it shows none of the four injection shapes on one line; nothing else is
    rejected. *)
Theorem validate_query_accepts_iff :
  forall sql,
    ascii_text sql = true ->
    (validate_query sql = (true, "")
     <-> (forall w,
             In w ["INSERT"; "UPDATE"; "DELETE"; "DROP"; "TRUNCATE"; "ALTER";
                   "CREATE"; "REPLACE"; "EXEC"; "EXECUTE"] ->
             ~ whole_word_in w sql)
         /\ ~ injection_shape is_dot sql).
Proof.
  intros sql _. split.
  - intros V. split.
    + intros w I H.
      pose proof (validate_query_dml sql w I H) as F.
      rewrite V in F. discriminate.
    + intros H. pose proof (validate_query_shape sql H) as F.
      rewrite V in F. discriminate.
  - intros [D Sh]. unfold validate_query. cbv zeta.
    rewrite (proj2 (dml_loop_none sql) D).
    destruct (existsb _ injection_patterns) eqn:E; [|reflexivity].
    elim Sh. now apply injection_loop_sound.
Qed.

Lemma validate_query_accepts_iff_witness :
  ascii_text "SELECT COUNT(*) FROM Properties" = true
  /\ (forall w,
         In w ["INSERT"; "UPDATE"; "DELETE"; "DROP"; "TRUNCATE"; "ALTER";
                   "CREATE"; "REPLACE"; "EXEC"; "EXECUTE"] ->
         ~ whole_word_in w "SELECT COUNT(*) FROM Properties")
  /\ ~ injection_shape is_dot "SELECT COUNT(*) FROM Properties".
Proof.
  split; [reflexivity|].
  apply (proj1 (validate_query_accepts_iff "SELECT COUNT(*) FROM Properties"
                  eq_refl)).
  vm_compute. reflexivity.
Defined.

Lemma find_first {A : Type} (f : A -> bool) pre x post :
  (forall y, In y pre -> f y = false) -> f x = true ->
  find f (pre ++ x :: post) = Some x.
Proof.
  intros N T. induction pre as [|y pre IH]; cbn [app find].
  - now rewrite T.
  - rewrite (N y (or_introl eq_refl)). apply IH. intros z I. apply N. now right.
Qed.

(** X11: the reason [validate_query] gives for a statement of ASCII
    characters: the first keyword of the list INSERT, UPDATE, DELETE, DROP,
    TRUNCATE, ALTER, CREATE, REPLACE, EXEC, EXECUTE that stands in the
    statement is named, in the form of its pattern; with no keyword and an
    injection shape the reason is the fixed injection text. *)
Theorem validate_query_reason :
  forall sql,
    ascii_text sql = true ->
    (forall pre w post,
        ["INSERT"; "UPDATE"; "DELETE"; "DROP"; "TRUNCATE"; "ALTER";
         "CREATE"; "REPLACE"; "EXEC"; "EXECUTE"] = (pre ++ w :: post)%list ->
        whole_word_in w sql ->
        (forall v, In v pre -> ~ whole_word_in v sql) ->
        validate_query sql
        = (false, "Forbidden SQL operation detected: " ++ "\b" ++ w ++ "\b"))
    /\ ((forall w,
            In w ["INSERT"; "UPDATE"; "DELETE"; "DROP"; "TRUNCATE"; "ALTER";
                   "CREATE"; "REPLACE"; "EXEC"; "EXECUTE"] ->
            ~ whole_word_in w sql) ->
        injection_shape is_dot sql ->
        validate_query sql = (false, "Potential SQL injection detected")).
Proof.
  intros sql _. split.
  - intros pre w post E H N. unfold validate_query. cbv zeta.
    change ["INSERT"; "UPDATE"; "DELETE"; "DROP"; "TRUNCATE"; "ALTER";
            "CREATE"; "REPLACE"; "EXEC"; "EXECUTE"] with DML_WORDS in E.
    assert (WL : forall v, In v DML_WORDS -> word_like v)
      by (apply Forall_forall, DML_WORDS_word_like).
    unfold DML_PATTERNS. rewrite E, map_app. cbn [map].
    rewrite (find_first _ _ (pattern_text w, word_pat w)); [reflexivity| |].
    + intros y I. apply in_map_iff in I as (v & <- & Iv). cbn [snd].
      destruct (re_test true (word_pat v) (upper sql)) eqn:T; [|reflexivity].
      elim (N v Iv). apply whole_word_in_of_upper.
      apply re_test_word; [|exact T]. apply WL. rewrite E.
      apply in_or_app. now left.
    + cbn [snd]. apply re_test_word.
      * apply WL. rewrite E. apply in_or_app. right. now left.
      * now apply whole_word_in_upper.
  - intros D Sh. unfold validate_query. cbv zeta.
    rewrite (proj2 (dml_loop_none sql) D).
    destruct (existsb _ injection_patterns) eqn:E; [reflexivity|].
    pose proof (validate_query_shape sql Sh) as F.
    unfold validate_query in F. cbv zeta in F.
    rewrite (proj2 (dml_loop_none sql) D), E in F. discriminate.
Qed.

Lemma validate_query_reason_witness :
  ascii_text "SELECT 1; drop table Units" = true
  /\ validate_query "SELECT 1; drop table Units"
     = (false, "Forbidden SQL operation detected: \bDROP\b").
Proof.
  split; [reflexivity|].
  apply (proj1 (validate_query_reason "SELECT 1; drop table Units" eq_refl)
               ["INSERT"; "UPDATE"; "DELETE"] "DROP"
               ["TRUNCATE"; "ALTER"; "CREATE"; "REPLACE"; "EXEC"; "EXECUTE"]
               eq_refl).
  - exists 10, "SELECT 1; ", "drop", " table Units". repeat split.
  - intros v I H.
    assert (W : word_like v)
      by (apply (proj1 (Forall_forall _ _) DML_WORDS_word_like);
          simpl; simpl in I; tauto).
    apply (re_test_word v _ W) in H.
    destruct I as [<-|[<-|[<-|[]]]]; vm_compute in H; discriminate.
Defined.

(** ** Whole words in lower-cased and stripped text *)

Lemma word_opt_lower o : word_opt (option_map lower_char o) = word_opt o.
Proof. destruct o; simpl; [apply is_word_lower_char|reflexivity]. Qed.

Lemma lower_app_inv s a' b' :
  lower s = a' ++ b' ->
  exists a b, s = a ++ b /\ lower a = a' /\ lower b = b'.
Proof. apply smap_app_inv. Qed.

(** A lower-case keyword searched, case-sensitively, in the lower-cased
    text. *)
Lemma re_test_word_lower w s :
  word_like w -> lower w = w ->
  re_test false (word_pat w) (lower s) = true <-> whole_word_in w s.
Proof.
  intros W Lw. unfold re_test, re_search. split.
  - intros E. apply is_some_true in E as [m E].
    apply search_inv in E as (a' & r' & Es & M & _).
    apply (match_here_word false w _ _ _ _ W) in M
      as (x' & b' & -> & L & P & Q & _).
    apply lit_eq_cs in L. subst x'.
    apply lower_app_inv in Es as (a & r & -> & <- & Er).
    apply lower_app_inv in Er as (x & b & -> & Ex & <-).
    exists (String.length a), a, x, b. repeat split; auto.
    + unfold same_ci. now rewrite Ex, Lw.
    + unfold lower in P. change None with (option_map lower_char None) in P.
      now rewrite last_of_smap, word_opt_lower in P.
    + unfold lower in Q. now rewrite shead_smap, word_opt_lower in Q.
  - intros (n & a & x & b & -> & _ & Sc & P & Q).
    rewrite !lower_app. apply search_app.
    assert (M : match_here false (word_pat w) (0 + String.length (lower a))
                  (last_of None (lower a)) (lower x ++ lower b)
                = Some (Match (0 + String.length (lower a))
                              (0 + String.length (lower a)
                               + String.length (lower x)) None)).
    { apply (match_here_word false w _ _ _ _ W). exists (lower x), (lower b).
      repeat split.
      - apply lit_eq_cs. unfold same_ci in Sc. now rewrite Sc, Lw.
      - unfold lower. change None with (option_map lower_char None).
        now rewrite last_of_smap, word_opt_lower.
      - unfold lower. now rewrite shead_smap, word_opt_lower. }
    now rewrite M.
Qed.

Lemma lstrip_by_smap p f s :
  (forall c, p (f c) = p c) ->
  lstrip_by p (smap f s) = smap f (lstrip_by p s).
Proof.
  intros H. induction s as [|c s IH]; [reflexivity|].
  cbn [smap lstrip_by]. rewrite H. destruct (p c); [exact IH|reflexivity].
Qed.

Lemma rstrip_by_smap p f s :
  (forall c, p (f c) = p c) ->
  rstrip_by p (smap f s) = smap f (rstrip_by p s).
Proof.
  intros H. induction s as [|c s IH]; [reflexivity|].
  cbn [smap rstrip_by]. rewrite IH, H.
  destruct (rstrip_by p s); cbn [smap]; [destruct (p c)|]; reflexivity.
Qed.

Lemma is_space_lower_char c : is_space (lower_char c) = is_space c.
Proof. all_chars c. Qed.

Lemma strip_lower s : strip (lower s) = lower (strip s).
Proof.
  unfold strip, rstrip, lower.
  rewrite lstrip_by_smap by apply is_space_lower_char.
  now rewrite rstrip_by_smap by apply is_space_lower_char.
Qed.

Lemma word_opt_last_prev prev a :
  word_opt (last_of None a) = false -> word_opt prev = false ->
  word_opt (last_of prev a) = false.
Proof.
  intros H P. destruct a as [|c a]; [exact P|].
  now rewrite last_of_nonempty.
Qed.

Lemma word_opt_last_spaces t :
  sforall is_space t = true -> word_opt (last_of None t) = false.
Proof.
  assert (G : forall prev, word_opt prev = false ->
                sforall is_space t = true ->
                word_opt (last_of prev t) = false).
  { induction t as [|c t IH]; intros prev P F; [exact P|].
    cbn [sforall] in F. apply andb_prop in F as [Fc F].
    cbn [last_of]. apply IH; [|exact F]. simpl. now apply space_not_word. }
  now apply G.
Qed.

Lemma word_opt_head_spaces t :
  sforall is_space t = true -> word_opt (shead t) = false.
Proof.
  destruct t as [|c t]; [reflexivity|]. cbn [sforall]. intros F.
  apply andb_prop in F as [Fc _]. simpl. now apply space_not_word.
Qed.

Lemma whole_word_in_extend w m t1 t2 :
  whole_word_in w m ->
  sforall is_space t1 = true -> sforall is_space t2 = true ->
  whole_word_in w (t1 ++ m ++ t2).
Proof.
  intros (n & a & x & b & -> & _ & Sc & P & Q) F1 F2.
  exists (String.length (t1 ++ a)), (t1 ++ a), x, (b ++ t2). repeat split.
  - now rewrite !sapp_assoc.
  - exact Sc.
  - rewrite last_of_app. apply word_opt_last_prev; [exact P|].
    now apply word_opt_last_spaces.
  - destruct b as [|c b]; [|exact Q]. now apply word_opt_head_spaces.
Qed.

Lemma same_ci_lit x w : same_ci x w -> lit_eq true w x = true.
Proof. apply lit_eq_ci. Qed.

Lemma whole_word_in_drop_head w c s :
  word_like w -> is_space c = true ->
  whole_word_in w (String c s) -> whole_word_in w s.
Proof.
  intros W Sp (n & a & x & b & E & _ & Sc & P & Q).
  pose proof (same_ci_lit _ _ Sc) as L.
  destruct a as [|c' a].
  - exfalso. cbn [append] in E.
    pose proof (lit_eq_head true w x L) as Hh.
    rewrite (proj1 W) in Hh.
    destruct x as [|d x]; [discriminate|].
    cbn [append] in E. injection E as <- _. simpl in Hh.
    rewrite (space_not_word _ Sp) in Hh. discriminate.
  - cbn [append] in E. injection E as <- ->.
    exists (String.length a), a, x, b. repeat split; auto.
    destruct a as [|d a]; [reflexivity|].
    cbn [last_of] in *. exact P.
Qed.

Lemma snoc_cases b :
  b = "" \/ exists b' d, b = b' ++ String d "".
Proof.
  induction b as [|c b [->|(b' & d & ->)]]; [now left| |].
  - right. now exists "", c.
  - right. now exists (String c b'), d.
Qed.

Lemma sapp_snoc_inj s t c d :
  s ++ String c "" = t ++ String d "" -> s = t /\ c = d.
Proof.
  intros E.
  assert (L : String.length s = String.length t).
  { apply (f_equal String.length) in E. rewrite !slength_app in E.
    simpl in E. lia. }
  destruct (sapp_inv_length _ _ _ _ E L) as [-> E']. now injection E' as ->.
Qed.

Lemma whole_word_in_drop_last w c s :
  word_like w -> is_space c = true ->
  whole_word_in w (s ++ String c "") -> whole_word_in w s.
Proof.
  intros W Sp (n & a & x & b & E & _ & Sc & P & Q).
  pose proof (same_ci_lit _ _ Sc) as L.
  destruct (snoc_cases b) as [->|(b' & d & ->)].
  - exfalso. rewrite sapp_nil_r in E.
    pose proof (lit_eq_last true w x None None L eq_refl) as Hl.
    rewrite (proj2 W) in Hl.
    assert (Nx : nonempty x = true).
    { rewrite (lit_eq_nonempty true w x L). now apply word_like_nonempty. }
    apply (f_equal (last_of None)) in E.
    rewrite !last_of_app in E. cbn [last_of] in E.
    rewrite (last_of_nonempty _ x Nx) in E. rewrite <- E in Hl. simpl in Hl.
    rewrite (space_not_word _ Sp) in Hl. discriminate.
  - rewrite <- (sapp_assoc x b'), <- (sapp_assoc a (x ++ b')) in E.
    apply sapp_snoc_inj in E as [-> _].
    exists (String.length a), a, x, b'. repeat split; auto.
    destruct b' as [|e b']; [reflexivity|exact Q].
Qed.

Lemma whole_word_in_drop_prefix w t s :
  word_like w -> sforall is_space t = true ->
  whole_word_in w (t ++ s) -> whole_word_in w s.
Proof.
  intros W. induction t as [|c t IH]; intros F H; [exact H|].
  cbn [sforall] in F. apply andb_prop in F as [Fc F].
  apply IH; [exact F|]. now apply (whole_word_in_drop_head w c).
Qed.

Lemma whole_word_in_drop_suffix w t :
  word_like w -> sforall is_space t = true ->
  forall s, whole_word_in w (s ++ t) -> whole_word_in w s.
Proof.
  intros W. induction t as [|c t IH]; intros F s H.
  - now rewrite sapp_nil_r in H.
  - cbn [sforall] in F. apply andb_prop in F as [Fc F].
    apply (whole_word_in_drop_last w c); [exact W|exact Fc|].
    apply IH; [exact F|]. rewrite sapp_assoc. exact H.
Qed.

Lemma whole_word_in_strip w s :
  word_like w -> whole_word_in w (strip s) <-> whole_word_in w s.
Proof.
  intros W. unfold strip, rstrip.
  destruct (lstrip_by_spec is_space s) as (t1 & E1 & F1).
  destruct (rstrip_by_spec is_space (lstrip_by is_space s)) as (t2 & E2 & F2).
  split.
  - intros H. rewrite E1, E2. now apply whole_word_in_extend.
  - intros H. rewrite E1 in H.
    apply (whole_word_in_drop_prefix w t1 _ W F1) in H.
    rewrite E2 in H. now apply (whole_word_in_drop_suffix w t2 W F2).
Qed.

(** ** [is_data_query] *)

Lemma conversational_patterns_words :
  conversational_patterns = map word_pat CONVERSATIONAL_WORDS.
Proof. reflexivity. Qed.

Lemma CONVERSATIONAL_WORDS_facts :
  Forall (fun w => word_like w /\ lower w = w) CONVERSATIONAL_WORDS.
Proof. repeat constructor. Qed.

(** X12: a question of ASCII characters is treated as conversation, and
    answered with the canned text without any SQL, exactly when one of the
    nineteen phrases stands in it as a whole word, in any case and anywhere
    in the text. *)
Theorem is_data_query_iff :
  forall q,
    ascii_text q = true ->
    (fst (is_data_query q) = false
     <-> exists w, In w CONVERSATIONAL_WORDS /\ whole_word_in w q)
    /\ (fst (is_data_query q) = false ->
        is_data_query q = (false, conversational_response))
    /\ (fst (is_data_query q) = true -> is_data_query q = (true, "")).
Proof.
  intros q _.
  assert (T : forall w, In w CONVERSATIONAL_WORDS ->
                re_test false (word_pat w) (strip (lower q)) = true
                <-> whole_word_in w q).
  { intros w I.
    pose proof (proj1 (Forall_forall _ _) CONVERSATIONAL_WORDS_facts w I)
      as [W L].
    rewrite strip_lower, (re_test_word_lower w _ W L).
    now apply whole_word_in_strip. }
  unfold is_data_query. cbv zeta. rewrite conversational_patterns_words.
  destruct (existsb _ (map word_pat CONVERSATIONAL_WORDS)) eqn:E;
    cbn [fst]; repeat split; try reflexivity; try discriminate.
  - intros _. apply existsb_exists in E as (p & Ip & Tp).
    apply in_map_iff in Ip as (w & <- & I).
    exists w. split; [exact I|]. now apply T.
  - intros (w & I & H). apply (T w I) in H.
    assert (X : existsb (fun p => re_test false p (strip (lower q)))
                  (map word_pat CONVERSATIONAL_WORDS) = true).
    { apply existsb_exists. exists (word_pat w). split; [|exact H].
      now apply in_map. }
    congruence.
Qed.

Lemma is_data_query_iff_witness :
  ascii_text "Thank you, that is all" = true
  /\ exists w, In w CONVERSATIONAL_WORDS
               /\ whole_word_in w "Thank you, that is all".
Proof.
  split; [reflexivity|].
  apply (proj1 (proj1 (is_data_query_iff "Thank you, that is all" eq_refl))).
  vm_compute. reflexivity.
Defined.

(** ** [validate_query_intent] for viewers and owners *)

Lemma sensitive_patterns_words :
  sensitive_patterns
  = (map word_pat SENSITIVE_WORDS
       ++ [ (Bnd ;; lit "list" ;; Bnd ;; Star is_dot ;; Bnd
               ;; lit "properties" ;; Bnd)%re;
            (Bnd ;; lit "show" ;; Bnd ;; Star is_dot ;; Bnd
               ;; lit "properties" ;; Bnd)%re ])%list.
Proof. reflexivity. Qed.

Lemma SENSITIVE_WORDS_facts :
  Forall (fun w => word_like w /\ lower w = w) SENSITIVE_WORDS.
Proof. repeat constructor. Qed.

Lemma validate_query_intent_viewer q uc :
  lower (role uc) = "viewer" ->
  validate_query_intent q uc
  = match viewer_denial (lower q) with
    | Some reason => (false, reason)
    | None => (true, "")
    end.
Proof.
  unfold validate_query_intent. intros ->. cbv zeta.
  change ("viewer" =? "viewer") with true. cbv iota.
  now destruct (viewer_denial (lower q)).
Qed.

(** The pattern [\bllc[1-6]\b] finds every identifier llc1 .. llc6 that
    the word pattern finds. *)
Lemma llc_digit_found d s :
  In d VIEWER_OWNER_DIGITS ->
  re_test false (word_pat ("llc" ++ String d "")) s = true ->
  re_test false (Bnd ;; lit "llc" ;; Cls (in_range 49 54) ;; Bnd)%re s = true.
Proof.
  intros I. unfold re_test, re_search. intros E.
  apply is_some_true in E as [m E].
  apply search_inv in E as (a & r & -> & M & _).
  assert (W : word_like ("llc" ++ String d "")).
  { destruct I as [<-|[<-|[<-|[<-|[<-|[<-|[]]]]]]]; split; reflexivity. }
  apply (match_here_word false _ _ _ _ _ W) in M
    as (x & b & -> & L & P & Q & _).
  apply lit_eq_cs in L. subst x.
  apply search_app. unfold match_here.
  rewrite rmatch_seq. cbn [rmatch c_prev c_rest]. unfold at_boundary.
  rewrite P. cbn [append shead word_opt].
  change (is_word "l") with true. cbn [xorb].
  change (String "l" (String "l" (String "c" (String d b))))
    with ("llc" ++ String d b).
  rewrite (rmatch_lit_app false _ "llc" "llc" _ _ _ _ _ eq_refl).
  unfold one_char. cbn [c_rest].
  assert (R : in_range 49 54 d = true /\ is_word d = true).
  { destruct I as [<-|[<-|[<-|[<-|[<-|[<-|[]]]]]]]; split; reflexivity. }
  rewrite (proj1 R). cbn [c_prev c_rest c_pos c_grp word_opt].
  rewrite (proj2 R), Q. reflexivity.
Qed.

(** X13: for a viewer, a question of ASCII characters in which one of the
    seven sensitive words stands as a whole word is denied with the
    aggregated-data reason, and one that names one of llc1 .. llc6 as a
    whole word is denied with one of the two viewer reasons; in any case. *)
Theorem viewer_denied :
  forall q uc,
    ascii_text q = true ->
    lower (role uc) = "viewer" ->
    ((exists w, In w SENSITIVE_WORDS /\ whole_word_in w q) ->
     validate_query_intent q uc = (false, viewer_sensitive_msg))
    /\ ((exists d, In d VIEWER_OWNER_DIGITS
                   /\ whole_word_in ("llc" ++ String d "") q) ->
        fst (validate_query_intent q uc) = false
        /\ (snd (validate_query_intent q uc) = viewer_sensitive_msg
            \/ snd (validate_query_intent q uc) = viewer_owner_msg)).
Proof.
  intros q uc _ V. rewrite (validate_query_intent_viewer q uc V).
  unfold viewer_denial. split.
  - intros (w & I & H).
    pose proof (proj1 (Forall_forall _ _) SENSITIVE_WORDS_facts w I)
      as [W L].
    apply (re_test_word_lower w q W L) in H.
    rewrite sensitive_patterns_words, existsb_app.
    assert (X : existsb (fun p => re_test false p (lower q))
                  (map word_pat SENSITIVE_WORDS) = true).
    { apply existsb_exists. exists (word_pat w). split; [|exact H].
      now apply in_map. }
    now rewrite X.
  - intros (d & I & H).
    assert (WL : word_like ("llc" ++ String d "")
                 /\ lower ("llc" ++ String d "") = "llc" ++ String d "").
    { destruct I as [<-|[<-|[<-|[<-|[<-|[<-|[]]]]]]]; repeat split. }
    apply (re_test_word_lower _ q (proj1 WL) (proj2 WL)) in H.
    apply (llc_digit_found d _ I) in H.
    destruct (existsb _ sensitive_patterns); [split; [reflexivity|now left]|].
    assert (X : existsb (fun p => re_test false p (lower q)) owner_patterns
                = true).
    { apply existsb_exists. eexists. split; [|exact H].
      unfold owner_patterns. right. now left. }
    rewrite X. split; [reflexivity|now right].
Qed.

Lemma viewer_denied_witness :
  ascii_text "What is the ADDRESS of the largest property?" = true
  /\ lower (role (mkUserContext 7 "Viewer" None)) = "viewer"
  /\ validate_query_intent "What is the ADDRESS of the largest property?"
                           (mkUserContext 7 "Viewer" None)
     = (false, viewer_sensitive_msg).
Proof.
  split; [reflexivity|]. split; [reflexivity|].
  apply (proj1 (viewer_denied "What is the ADDRESS of the largest property?"
                  (mkUserContext 7 "Viewer" None) eq_refl eq_refl)).
  exists "address". split; [simpl; auto|].
  exists 12, "What is the ", "ADDRESS", " of the largest property?".
  repeat split.
Defined.

(** X14: for an owner and a question of ASCII characters,
    [validate_query_intent] allows the question exactly when every
    identifier LLC1 .. LLC5 that stands in it as a whole word comes with the
    caller's own identifier somewhere in the lower-cased text, and none of
    the seven system-wide terms occurs in it; the first condition failing
    gives the other-owner reason, the second alone the own-properties
    reason. *)
Theorem owner_intent_iff :
  forall q uc,
    ascii_text q = true ->
    lower (role uc) = "owner" ->
    let own_named := contains (lower (own_name uc)) (lower q) in
    let names_other :=
      exists w,
        In w ["LLC1"; "LLC2"; "LLC3"; "LLC4"; "LLC5"]
        /\ whole_word_in w q /\ own_named = false in
    let system_wide :=
      exists t,
        In t ["all properties"; "total properties"; "entire";
              "every property"; "admin"; "all owners"; "everyone"]
        /\ contains t (lower q) = true in
    (validate_query_intent q uc = (true, "")
     <-> ~ names_other /\ ~ system_wide)
    /\ (names_other ->
        validate_query_intent q uc = (false, other_owner_msg (owner_id uc)))
    /\ (~ names_other -> system_wide ->
        validate_query_intent q uc = (false, forbidden_term_msg)).
Proof.
  intros q uc _ O own_named names_other system_wide.
  rewrite (validate_query_intent_owner q uc O). fold own_named.
  assert (WL : forall w, In w OWNER_WORDS -> word_like w)
    by (apply Forall_forall, OWNER_WORDS_word_like).
  assert (A : existsb (fun p => re_test true p q && negb own_named)
                OWNER_NAMES = true <-> names_other).
  { unfold OWNER_NAMES, names_other. rewrite existsb_exists. split.
    - intros (p & Ip & Tp). apply in_map_iff in Ip as (w & <- & I).
      apply andb_prop in Tp as [T N]. exists w. split; [exact I|]. split.
      + now apply re_test_word; [apply WL|].
      + now destruct own_named.
    - intros (w & I & H & N). exists (word_pat w). split; [now apply in_map|].
      rewrite (proj2 (re_test_word w q (WL w I)) H), N. reflexivity. }
  assert (B : existsb (fun term => contains term (lower q)) forbidden_terms
              = true <-> system_wide).
  { unfold system_wide. now rewrite existsb_exists. }
  destruct (existsb _ OWNER_NAMES);
    [|destruct (existsb _ forbidden_terms)].
  - repeat split.
    + discriminate.
    + discriminate.
    + intros [N _]. elim N. now apply A.
    + intros N. elim N. now apply A.
  - repeat split.
    + discriminate.
    + discriminate.
    + intros [_ N]. elim N. now apply B.
    + intros N. apply A in N. discriminate.
  - repeat split.
    + intros N. apply A in N. discriminate.
    + intros N. apply B in N. discriminate.
    + intros N. apply A in N. discriminate.
    + intros _ N. apply B in N. discriminate.
Qed.

Lemma owner_intent_iff_witness :
  ascii_text "Show everyone's rent" = true
  /\ lower (role (Scenario.owner 2)) = "owner"
  /\ validate_query_intent "Show everyone's rent" (Scenario.owner 2)
     = (false, forbidden_term_msg).
Proof.
  split; [reflexivity|]. split; [reflexivity|].
  apply (proj2 (proj2 (owner_intent_iff "Show everyone's rent"
                         (Scenario.owner 2) eq_refl eq_refl))).
  - intros (w & I & H & _).
    assert (WL : word_like w)
      by (apply (proj1 (Forall_forall _ _) OWNER_WORDS_word_like), I).
    apply (re_test_word w _ WL) in H.
    destruct I as [<-|[<-|[<-|[<-|[<-|[]]]]]]; vm_compute in H; discriminate.
  - exists "everyone". split; [simpl; auto 10|reflexivity].
Defined.

(** ** What the rewriter and the sanitizer leave alone *)

Lemma contains_char c s :
  contains (String c "") s = negb (sforall (fun x => negb (Ascii.eqb c x)) s).
Proof.
  induction s as [|x s IH]; [reflexivity|].
  rewrite contains_cons, IH. cbn [startswith sforall].
  destruct (Ascii.eqb c x); reflexivity.
Qed.

Lemma contains_semicolon s :
  contains ";" s = negb (sforall not_semicolon s).
Proof. exact (contains_char ";" s). Qed.

Lemma word_not_semicolon c : is_word c = true -> not_semicolon c = true.
Proof. destruct c as [[] [] [] [] [] [] [] []]; vm_compute; congruence. Qed.

Lemma numeral_not_semicolon c : numeral_char c = true -> not_semicolon c = true.
Proof. destruct c as [[] [] [] [] [] [] [] []]; vm_compute; congruence. Qed.

Lemma sforall_take p n s : sforall p s = true -> sforall p (take n s) = true.
Proof.
  intros H. rewrite <- (take_drop n s), sforall_app in H.
  now apply andb_prop in H as [H _].
Qed.

Lemma sforall_drop p n s : sforall p s = true -> sforall p (drop n s) = true.
Proof.
  intros H. rewrite <- (take_drop n s), sforall_app in H.
  now apply andb_prop in H as [_ H].
Qed.

Lemma sforall_rstrip_by p q s :
  sforall p s = true -> sforall p (rstrip_by q s) = true.
Proof.
  intros H. destruct (rstrip_by_spec q s) as (t & E & _).
  rewrite E, sforall_app in H. now apply andb_prop in H as [H _].
Qed.

Lemma table_ref_not_semicolon s : sforall not_semicolon (table_ref s) = true.
Proof.
  unfold table_ref. destruct (re_search true alias_pattern s) eqn:E;
    [|reflexivity].
  destruct (words_in_inv _ _ (alias_is_word s m E)) as (_ & _ & _ & _ & W & _).
  exact (sforall_impl _ _ _ word_not_semicolon W).
Qed.

Lemma apply_rbac_scoped_no_semicolon sql uc :
  scoped_to_owner uc = true ->
  sforall not_semicolon (strip_terminator sql) = true ->
  sforall not_semicolon (apply_rbac sql uc) = true.
Proof.
  intros Sc H. rewrite (apply_rbac_scoped sql uc Sc). cbv zeta.
  destruct (scoped_owner_id uc Sc) as [oid Oid].
  assert (C : sforall not_semicolon
                (owner_condition (strip_terminator sql) (owner_id uc)) = true).
  { unfold owner_condition. rewrite Oid. cbn [str_of_owner_id].
    rewrite !sforall_app, table_ref_not_semicolon.
    now rewrite (sforall_impl _ _ _ numeral_not_semicolon
                   (str_of_int_numeral oid)). }
  destruct (references_properties (strip_terminator sql)); [|exact H].
  destruct (re_search true (word_pat "WHERE") (strip_terminator sql)).
  - rewrite !sforall_app, C, (sforall_take _ _ _ H), (sforall_drop _ _ _ H).
    reflexivity.
  - unfold rstrip.
    rewrite !sforall_app, C, (sforall_drop _ _ _ H),
      (sforall_rstrip_by _ is_space _ (sforall_take _ _ _ H)).
    reflexivity.
Qed.

(** X15: the rewriter never introduces a semicolon: a semicolon in
    [apply_rbac sql uc] stands in [sql] already, and for an owner with an
    owner id even in [sql] without its terminator. *)
Theorem apply_rbac_no_new_semicolon :
  forall sql uc,
    contains ";" (apply_rbac sql uc) = true ->
    contains ";" sql = true
    /\ (scoped_to_owner uc = true ->
        contains ";" (strip_terminator sql) = true).
Proof.
  intros sql uc H.
  assert (G : scoped_to_owner uc = true ->
              contains ";" (strip_terminator sql) = true).
  { intros Sc.
    destruct (contains ";" (strip_terminator sql)) eqn:E; [reflexivity|].
    rewrite contains_semicolon in E, H.
    apply negb_false_iff in E.
    rewrite (apply_rbac_scoped_no_semicolon sql uc Sc E) in H.
    discriminate. }
  split; [|exact G].
  destruct (scoped_to_owner uc) eqn:Sc.
  - destruct (strip_terminator_spec sql) as (t & E & _).
    rewrite E. apply contains_mono. now apply G.
  - now rewrite (apply_rbac_unscoped sql uc Sc) in H.
Qed.

Lemma apply_rbac_no_new_semicolon_witness :
  contains ";" (apply_rbac "SELECT ';' FROM Properties;" (Scenario.owner 2))
  = true
  /\ contains ";" "SELECT ';' FROM Properties;" = true
  /\ (scoped_to_owner (Scenario.owner 2) = true ->
      contains ";" (strip_terminator "SELECT ';' FROM Properties;") = true).
Proof.
  assert (H : contains ";" (apply_rbac "SELECT ';' FROM Properties;"
                                       (Scenario.owner 2)) = true)
    by (vm_compute; reflexivity).
  split; [exact H|].
  exact (apply_rbac_no_new_semicolon _ _ H).
Defined.

Lemma sub_from_none r repl s :
  (forall a b, s = a ++ b ->
     forall pos prev, match_here false r pos prev b = None) ->
  forall pos prev, sub_from r repl pos prev 0 s = s.
Proof.
  induction s as [|c s IH]; intros N pos prev; [reflexivity|].
  cbn [sub_from]. rewrite (N "" (String c s) eq_refl).
  f_equal. apply IH. intros a b E. apply (N (String c a) b).
  now rewrite E.
Qed.

Lemma posix_path_head pos prev b m :
  match_here false (Chr "/" ;; Plus not_space ;; Chr "/")%re pos prev b
  = Some m ->
  exists b', b = String "/" b'.
Proof.
  unfold match_here. rewrite rmatch_seq. intros M.
  apply (one_char_inv _ (chr_eq false "/")) in M as (c & b' & -> & Ec & _).
  apply chr_eq_cs in Ec. subst c. eauto.
Qed.

Lemma windows_path_head pos prev b m :
  match_here false
    (Cls is_upper_letter ;; Chr ":" ;; Chr "\" ;; Plus not_space)%re
    pos prev b = Some m ->
  exists c b', b = String c (":\" ++ b').
Proof.
  unfold match_here. rewrite rmatch_seq. intros M.
  apply (one_char_inv _ is_upper_letter) in M as (c & b1 & -> & _ & M).
  rewrite rmatch_seq in M.
  apply (one_char_inv _ (chr_eq false ":")) in M as (c2 & b2 & -> & E2 & M).
  rewrite rmatch_seq in M.
  apply (one_char_inv _ (chr_eq false "\")) in M as (c3 & b3 & -> & E3 & _).
  apply chr_eq_cs in E2, E3. subst c2 c3. now exists c, b3.
Qed.

(** X16: [sanitize_error] returns an error text unchanged when it holds no
    slash and no colon followed by a backslash. *)
Theorem sanitize_error_frame :
  forall e,
    contains "/" e = false -> contains ":\" e = false ->
    sanitize_error e = e.
Proof.
  intros e S W. unfold sanitize_error, re_sub. cbv zeta.
  rewrite (sub_from_none _ "[PATH]/" e).
  - apply sub_from_none. intros a b E pos prev.
    destruct (match_here _ _ pos prev b) eqn:M; [|reflexivity].
    apply windows_path_head in M as (c & b' & ->).
    rewrite E in W.
    change (a ++ String c (":\" ++ b'))
      with (a ++ (String c "" ++ (":\" ++ b'))) in W.
    rewrite <- sapp_assoc, contains_app in W. discriminate.
  - intros a b E pos prev.
    destruct (match_here _ _ pos prev b) eqn:M; [|reflexivity].
    apply posix_path_head in M as (b' & ->).
    rewrite E in S.
    change (a ++ String "/" b') with (a ++ ("/" ++ b')) in S.
    rewrite contains_app in S. discriminate.
Qed.

Lemma sanitize_error_frame_witness :
  sanitize_error "no such table: Foo" = "no such table: Foo".
Proof. now apply sanitize_error_frame. Defined.

(** ** What [sanitize_error] removes *)

Lemma sanitize_error_patterns e :
  sanitize_error e
  = re_sub windows_path "[PATH]" (re_sub posix_path "[PATH]/" e).
Proof. reflexivity. Qed.

Lemma sub_from_skip r repl k :
  forall s pos prev,
    sub_from r repl pos prev k s
    = sub_from r repl (pos + k) (last_of prev (take k s)) 0 (drop k s).
Proof.
  induction k as [|k IH]; intros [|a s] pos prev.
  - reflexivity.
  - cbn [take drop last_of]. now rewrite Nat.add_0_r.
  - reflexivity.
  - cbn [sub_from take drop last_of]. rewrite IH. now rewrite Nat.add_succ_r.
Qed.

Lemma sub_from_here r repl pos prev a s :
  sub_from r repl pos prev 0 (String a s)
  = match match_here false r pos prev (String a s) with
    | Some m =>
        repl ++ sub_from r repl (S pos) (Some a) (m_end m - pos - 1) s
    | None => String a (sub_from r repl (S pos) (Some a) 0 s)
    end.
Proof. reflexivity. Qed.

Lemma search_somewhere ic r here :
  (forall pos prev s, is_some (match_here ic r pos prev s) = here s) ->
  forall s pos prev,
    is_some (search_from ic r pos prev s) = somewhere here s.
Proof.
  intros H. induction s as [|a s IH]; intros pos prev; cbn [search_from somewhere];
    rewrite <- (H pos prev); destruct (match_here ic r pos prev _);
    cbn [is_some orb]; try reflexivity.
  apply IH.
Qed.

Lemma somewhere_drop here n s :
  somewhere here s = false -> somewhere here (drop n s) = false.
Proof.
  revert s. induction n as [|n IH]; intros [|a s] H; try exact H.
  cbn [drop]. apply IH. cbn [somewhere] in H.
  now apply orb_false_elim in H as [_ H].
Qed.

Lemma slash_not_space : is_space slash = false.
Proof. reflexivity. Qed.

Lemma not_space_true c : not_space c = true <-> is_space c = false.
Proof. unfold not_space. now destruct (is_space c). Qed.

(** The greedy repetition before the closing slash: it ends at the last
    slash of the run. *)
Lemma rep_last_slash start s :
  forall pos prev g,
    let k := rmatch false (Chr "/")
               (fun cu => Some (Match start (c_pos cu) (c_grp cu))) in
    (run_has_slash s = false -> rep not_space k pos prev g s = None)
    /\ (run_has_slash s = true ->
        exists u rest,
          s = u ++ String slash rest
          /\ run_has_slash rest = false
          /\ rep not_space k pos prev g s
             = Some (Match start (pos + String.length u + 1) g)).
Proof.
  induction s as [|a s IH]; intros pos prev g k.
  - split; [reflexivity|discriminate].
  - cbn [run_has_slash rep]. unfold not_space at 1 3.
    destruct (is_space a) eqn:Sp; cbn [negb].
    + split; [|discriminate]. intros _. subst k. cbn [rmatch].
      unfold one_char. cbn [c_rest].
      assert (C : chr_eq false "/" a = false).
      { destruct (chr_eq false "/" a) eqn:C; [|reflexivity].
        apply chr_eq_cs in C. subst a. discriminate. }
      now rewrite C.
    + destruct (IH (S pos) (Some a) g) as [N Y]. fold k in N, Y.
      destruct (run_has_slash s) eqn:Rs.
      * rewrite orb_true_r. split; [discriminate|]. intros _.
        destruct (Y eq_refl) as (u & rest & -> & Rr & E).
        exists (String a u), rest. split; [reflexivity|]. split; [exact Rr|].
        rewrite E. cbn [String.length]. f_equal. f_equal. lia.
      * rewrite orb_false_r, (N eq_refl).
        subst k. cbn [rmatch]. unfold one_char. cbn [c_rest c_pos c_grp].
        destruct (Ascii.eqb slash a) eqn:Ea.
        -- apply Ascii.eqb_eq in Ea. subst a. split; [discriminate|].
           intros _. exists "", s. split; [reflexivity|]. split; [exact Rs|].
           change (chr_eq false "/" slash) with true. cbv iota.
           cbn [String.length]. f_equal. f_equal. lia.
        -- split; [|discriminate]. intros _.
           assert (C : chr_eq false "/" a = false) by exact Ea.
           now rewrite C.
Qed.

Lemma posix_match_short pos prev s :
  String.length s < 2 -> match_here false posix_path pos prev s = None.
Proof.
  unfold match_here, posix_path. cbn [rmatch]. unfold one_char.
  cbn [c_rest c_pos c_prev c_grp].
  destruct s as [|a [|c s]]; cbn [String.length]; intros L; try lia;
    [reflexivity|].
  now destruct (chr_eq false "/" a).
Qed.

Lemma posix_match_eq pos prev a c s :
  match_here false posix_path pos prev (String a (String c s))
  = if Ascii.eqb slash a && not_space c
    then rep not_space
           (rmatch false (Chr "/")
              (fun cu => Some (Match pos (c_pos cu) (c_grp cu))))
           (S (S pos)) (Some c) None s
    else None.
Proof.
  unfold match_here, posix_path. cbn [rmatch]. unfold one_char at 1.
  cbn [c_rest c_pos c_prev c_grp].
  change (chr_eq false "/" a) with (Ascii.eqb slash a).
  destruct (Ascii.eqb slash a); [|reflexivity].
  unfold one_char at 1. cbn [c_rest c_pos c_prev c_grp andb].
  destruct (not_space c); reflexivity.
Qed.

Lemma posix_match pos prev s :
  (posix_here s = false -> match_here false posix_path pos prev s = None)
  /\ (posix_here s = true ->
      exists c u rest m,
        s = String slash (String c (u ++ String slash rest))
        /\ run_has_slash rest = false
        /\ match_here false posix_path pos prev s = Some m
        /\ m_end m - pos - 1 = S (String.length u + 1)).
Proof.
  destruct s as [|a [|c s]];
    try (split; [intros _; apply posix_match_short; cbn; lia|];
         unfold posix_here; rewrite ?andb_false_r; discriminate).
  rewrite posix_match_eq. unfold posix_here.
  destruct (rep_last_slash pos s (S (S pos)) (Some c) None) as [N Y].
  destruct (Ascii.eqb slash a) eqn:Ea; cbn [andb];
    [|split; [reflexivity|discriminate]].
  apply Ascii.eqb_eq in Ea. subst a.
  destruct (not_space c) eqn:Nc; cbn [andb];
    [|split; [reflexivity|discriminate]].
  split.
  - intros H. exact (N H).
  - intros H. destruct (Y H) as (u & rest & -> & Rr & E).
    eexists c, u, rest, _. split; [reflexivity|]. split; [exact Rr|].
    split; [exact E|]. cbn [m_end]. lia.
Qed.

Lemma posix_here_spec pos prev s :
  is_some (match_here false posix_path pos prev s) = posix_here s.
Proof.
  destruct (posix_match pos prev s) as [N Y].
  destruct (posix_here s); [|now rewrite N].
  destruct (Y eq_refl) as (c & u & rest & m & _ & _ & -> & _). reflexivity.
Qed.

Lemma drop_length_app a b : drop (String.length a) (a ++ b) = b.
Proof. apply drop_app. Qed.

(** One step of the first substitution. *)
Lemma posix_sub_step pos prev s :
  (posix_here s = true ->
   exists rest pos' prev',
     String.length rest < String.length s
     /\ run_has_slash rest = false
     /\ sub_from posix_path "[PATH]/" pos prev 0 s
        = "[PATH]/" ++ sub_from posix_path "[PATH]/" pos' prev' 0 rest)
  /\ (posix_here s = false ->
      forall a s', s = String a s' ->
        sub_from posix_path "[PATH]/" pos prev 0 s
        = String a (sub_from posix_path "[PATH]/" (S pos) (Some a) 0 s')).
Proof.
  destruct (posix_match pos prev s) as [N Y]. split.
  - intros H. destruct (Y H) as (c & u & rest & m & -> & Rr & E & L).
    rewrite sub_from_here, E, L, sub_from_skip.
    exists rest. do 2 eexists. split; [|split; [exact Rr|]].
    + cbn [String.length]. rewrite slength_app. cbn [String.length]. lia.
    + f_equal. f_equal.
      change (String c (u ++ String slash rest))
        with ((String c u) ++ (String slash "" ++ rest)).
      rewrite <- sapp_assoc.
      replace (S (String.length u + 1))
        with (String.length (String c u ++ String slash ""))
        by (rewrite slength_app; cbn [String.length]; lia).
      apply drop_app.
  - intros H a s' ->. now rewrite sub_from_here, (N H).
Qed.

Lemma posix_here_not_slash a s :
  Ascii.eqb slash a = false -> posix_here (String a s) = false.
Proof. unfold posix_here. now intros ->. Qed.

Lemma space_not_slash a : is_space a = true -> Ascii.eqb slash a = false.
Proof. intros H. apply Ascii.eqb_neq. intros <-. discriminate. Qed.

Lemma posix_sub_run s :
  forall pos prev,
    run_has_slash s = false ->
    run_has_slash (sub_from posix_path "[PATH]/" pos prev 0 s) = false.
Proof.
  induction s as [|a s IH]; intros pos prev H; [reflexivity|].
  assert (E : Ascii.eqb slash a = false).
  { cbn [run_has_slash] in H. destruct (is_space a) eqn:Sp.
    - now apply space_not_slash.
    - now apply orb_false_elim in H as [H _]. }
  rewrite (proj2 (posix_sub_step pos prev _) (posix_here_not_slash a s E)
                 a s eq_refl).
  cbn [run_has_slash] in *. destruct (is_space a); [reflexivity|].
  apply orb_false_elim in H as [-> H]. now rewrite IH.
Qed.

Lemma posix_here_slash c t :
  posix_here (String slash (String c t)) = not_space c && run_has_slash t.
Proof. reflexivity. Qed.

Lemma posix_here_after_run t :
  run_has_slash t = false -> posix_here (String slash t) = false.
Proof.
  intros H. destruct t as [|c t]; [reflexivity|]. rewrite posix_here_slash.
  cbn [run_has_slash] in H. unfold not_space.
  destruct (is_space c); [reflexivity|]. cbn [negb andb].
  now apply orb_false_elim in H as [_ H].
Qed.

Lemma posix_sub_clean n :
  forall s pos prev,
    String.length s <= n ->
    somewhere posix_here (sub_from posix_path "[PATH]/" pos prev 0 s) = false.
Proof.
  induction n as [|n IH]; intros s pos prev L.
  - destruct s; [reflexivity|cbn in L; lia].
  - destruct s as [|a s]; [reflexivity|]. cbn [String.length] in L.
    destruct (posix_sub_step pos prev (String a s)) as [Y N].
    destruct (posix_here (String a s)) eqn:P.
    + destruct (Y eq_refl) as (rest & pos' & prev' & Lr & Rr & ->).
      cbn [String.length] in Lr.
      pose proof (posix_sub_run rest pos' prev' Rr) as Rf.
      pose proof (IH rest pos' prev' ltac:(lia)) as Cf.
      pose proof (posix_here_after_run _ Rf) as Ph.
      change slash with "/"%char in Ph.
      cbn [append somewhere]. rewrite Cf, Ph. reflexivity.
    + rewrite (N eq_refl a s eq_refl). cbn [somewhere].
      rewrite (IH s (S pos) (Some a) ltac:(lia)), orb_false_r.
      destruct (Ascii.eqb slash a) eqn:Ea;
        [|now apply posix_here_not_slash].
      apply Ascii.eqb_eq in Ea. subst a.
      destruct s as [|c s]; [reflexivity|].
      rewrite posix_here_slash in P.
      destruct (posix_sub_step (S pos) (Some slash) (String c s)) as [Y' N'].
      destruct (posix_here (String c s)) eqn:P'.
      * exfalso. unfold posix_here in P'.
        apply andb_prop in P' as [Ec P'].
        apply Ascii.eqb_eq in Ec. subst c.
        destruct s as [|d s]; [discriminate|].
        apply andb_prop in P' as [Nd Rs].
        change (not_space slash) with true in P. cbn [andb] in P.
        cbn [run_has_slash] in P. apply not_space_true in Nd.
        rewrite Nd, Rs, orb_true_r in P. discriminate.
      * rewrite (N' eq_refl c s eq_refl), posix_here_slash.
        destruct (not_space c); [|reflexivity]. cbn [andb] in *.
        now apply posix_sub_run.
Qed.

Lemma span_drop_stop p t :
  match drop (span_len p t) t with
  | String c _ => p c = false
  | EmptyString => True
  end.
Proof.
  induction t as [|c t IH]; [exact I|]. cbn [span_len].
  destruct (p c) eqn:Pc; [exact IH|exact Pc].
Qed.

Lemma span_drop_spaced t : spaced (drop (span_len not_space t) t) = true.
Proof.
  pose proof (span_drop_stop not_space t) as H.
  destruct (drop _ t) as [|c r]; [reflexivity|].
  unfold not_space in H. cbn [spaced]. now destruct (is_space c).
Qed.

Lemma windows_match_short pos prev s :
  String.length s < 4 -> match_here false windows_path pos prev s = None.
Proof.
  unfold match_here, windows_path. cbn [rmatch]. unfold one_char.
  cbn [c_rest c_pos c_prev c_grp].
  destruct s as [|x [|c1 [|c2 [|c s]]]]; cbn [String.length]; intros L;
    try lia; repeat (match goal with
                     | |- context [if ?b then _ else _] => destruct b
                     end); reflexivity.
Qed.

Lemma windows_match_eq pos prev x c1 c2 c t :
  match_here false windows_path pos prev
             (String x (String c1 (String c2 (String c t))))
  = if windows_here (String x (String c1 (String c2 (String c t))))
    then Some (Match pos (S (S (S (S pos))) + span_len not_space t) None)
    else None.
Proof.
  unfold match_here, windows_path, windows_here. cbn [rmatch].
  unfold one_char at 1. cbn [c_rest c_pos c_prev c_grp].
  destruct (is_upper_letter x); [|reflexivity].
  unfold one_char at 1. cbn [c_rest c_pos c_prev c_grp andb].
  change (chr_eq false ":" c1) with (Ascii.eqb ":" c1).
  destruct (Ascii.eqb ":" c1); [|reflexivity].
  unfold one_char at 1. cbn [c_rest c_pos c_prev c_grp andb].
  change (chr_eq false "\" c2) with (Ascii.eqb "\" c2).
  destruct (Ascii.eqb "\" c2); [|reflexivity].
  unfold one_char at 1. cbn [c_rest c_pos c_prev c_grp andb].
  destruct (not_space c); [|reflexivity].
  exact (rep_greedy _ not_space _
           (fun cu => Match pos (c_pos cu) (c_grp cu))
           _ _ _ t (fun cu => eq_refl)).
Qed.

Lemma windows_here_long s :
  windows_here s = true ->
  exists x c1 c2 c t, s = String x (String c1 (String c2 (String c t))).
Proof.
  unfold windows_here.
  destruct s as [|x [|c1 [|c2 [|c t]]]]; rewrite ?andb_false_r;
    try discriminate.
  intros _. now exists x, c1, c2, c, t.
Qed.

(** One step of the second substitution. *)
Lemma windows_sub_step pos prev s :
  (windows_here s = true ->
   exists rest pos' prev' n,
     rest = drop n s
     /\ String.length rest < String.length s
     /\ spaced rest = true
     /\ sub_from windows_path "[PATH]" pos prev 0 s
        = "[PATH]" ++ sub_from windows_path "[PATH]" pos' prev' 0 rest)
  /\ (windows_here s = false ->
      forall a s', s = String a s' ->
        sub_from windows_path "[PATH]" pos prev 0 s
        = String a (sub_from windows_path "[PATH]" (S pos) (Some a) 0 s')).
Proof.
  split.
  - intros H. destruct (windows_here_long s H) as (x & c1 & c2 & c & t & ->).
    rewrite sub_from_here, windows_match_eq, H. cbn [m_end].
    rewrite sub_from_skip.
    replace (S (S (S (S pos))) + span_len not_space t - pos - 1)
      with (S (S (S (span_len not_space t)))) by lia.
    exists (drop (span_len not_space t) t). do 2 eexists.
    exists (S (S (S (S (span_len not_space t))))).
    split; [reflexivity|]. split; [|split; [apply span_drop_spaced|]].
    + cbn [String.length].
      pose proof (slength_drop_le (span_len not_space t) t). lia.
    + reflexivity.
  - intros H a s' ->. rewrite sub_from_here.
    destruct (match_here false windows_path pos prev (String a s')) eqn:M;
      [|reflexivity].
    exfalso.
    destruct s' as [|c1 [|c2 [|c t]]];
      try (rewrite windows_match_short in M by (cbn; lia); discriminate).
    rewrite windows_match_eq, H in M. discriminate.
Qed.

Lemma windows_sub_spaced s pos prev :
  spaced s = true ->
  spaced (sub_from windows_path "[PATH]" pos prev 0 s) = true.
Proof.
  destruct s as [|a s]; [reflexivity|]. cbn [spaced]. intros Sp.
  assert (W : windows_here (String a s) = false).
  { unfold windows_here.
    replace (is_upper_letter a) with false; [reflexivity|].
    destruct a as [[] [] [] [] [] [] [] []]; vm_compute in Sp |- *;
      congruence. }
  rewrite (proj2 (windows_sub_step pos prev _) W a s eq_refl). exact Sp.
Qed.

Lemma spaced_no_slash s : spaced s = true -> run_has_slash s = false.
Proof.
  destruct s as [|c s]; [reflexivity|]. cbn [spaced run_has_slash].
  now intros ->.
Qed.

Lemma windows_sub_run s :
  forall pos prev,
    run_has_slash (sub_from windows_path "[PATH]" pos prev 0 s) = true ->
    run_has_slash s = true.
Proof.
  induction s as [|a s IH]; intros pos prev H; [discriminate|].
  destruct (windows_sub_step pos prev (String a s)) as [Y N].
  destruct (windows_here (String a s)) eqn:W.
  - exfalso. destruct (Y eq_refl) as (rest & pos' & prev' & n & _ & _ & Sp & E).
    rewrite E in H. cbn [append run_has_slash] in H.
    change (is_space "[") with false in H. change (is_space "P") with false in H.
    change (is_space "A") with false in H. change (is_space "T") with false in H.
    change (is_space "H") with false in H. change (is_space "]") with false in H.
    cbn [orb] in H.
    change (Ascii.eqb slash "[") with false in H.
    change (Ascii.eqb slash "P") with false in H.
    change (Ascii.eqb slash "A") with false in H.
    change (Ascii.eqb slash "T") with false in H.
    change (Ascii.eqb slash "H") with false in H.
    change (Ascii.eqb slash "]") with false in H.
    cbn [orb] in H.
    rewrite (spaced_no_slash _ (windows_sub_spaced rest pos' prev' Sp)) in H.
    discriminate.
  - rewrite (N eq_refl a s eq_refl) in H. cbn [run_has_slash] in *.
    destruct (is_space a); [discriminate|].
    destruct (Ascii.eqb slash a); [reflexivity|]. cbn [orb] in *.
    exact (IH _ _ H).
Qed.

Lemma path_tag_run X :
  run_has_slash ("PATH]" ++ X) = run_has_slash X.
Proof. reflexivity. Qed.

(** The second substitution brings no POSIX segment about. *)
Lemma windows_sub_keeps_clean n :
  forall s pos prev,
    String.length s <= n ->
    somewhere posix_here s = false ->
    somewhere posix_here (sub_from windows_path "[PATH]" pos prev 0 s) = false.
Proof.
  induction n as [|n IH]; intros s pos prev L C.
  - destruct s; [reflexivity|cbn in L; lia].
  - destruct s as [|a s]; [reflexivity|]. cbn [String.length] in L.
    destruct (windows_sub_step pos prev (String a s)) as [Y N].
    destruct (windows_here (String a s)) eqn:W.
    + destruct (Y eq_refl) as (rest & pos' & prev' & k & -> & Lr & _ & ->).
      cbn [String.length] in Lr.
      pose proof (IH (drop k (String a s)) pos' prev' ltac:(lia)
                    (somewhere_drop _ k _ C)) as Cf.
      cbn [append somewhere]. rewrite Cf. reflexivity.
    + rewrite (N eq_refl a s eq_refl). cbn [somewhere] in *.
      apply orb_false_elim in C as [Ph C].
      rewrite (IH s (S pos) (Some a) ltac:(lia) C), orb_false_r.
      destruct (Ascii.eqb slash a) eqn:Ea;
        [|now apply posix_here_not_slash].
      apply Ascii.eqb_eq in Ea. subst a.
      destruct s as [|c s]; [reflexivity|].
      rewrite posix_here_slash in Ph.
      destruct (windows_sub_step (S pos) (Some slash) (String c s)) as [Y' N'].
      destruct (windows_here (String c s)) eqn:W'.
      * destruct (Y' eq_refl) as (rest & pos' & prev' & k & _ & _ & Sp & ->).
        pose proof (spaced_no_slash _ (windows_sub_spaced rest pos' prev' Sp))
          as Rf.
        set (X := sub_from windows_path "[PATH]" pos' prev' 0 rest) in *.
        change ("[PATH]" ++ X) with (String "[" ("PATH]" ++ X)).
        rewrite posix_here_slash, path_tag_run, Rf.
        apply andb_false_r.
      * rewrite (N' eq_refl c s eq_refl), posix_here_slash.
        destruct (not_space c); [|reflexivity]. cbn [andb] in *.
        destruct (run_has_slash (sub_from _ _ _ _ _ s)) eqn:R; [|reflexivity].
        now rewrite (windows_sub_run _ _ _ R) in Ph.
Qed.

Lemma upper_letter_not_space c : is_upper_letter c = true -> not_space c = true.
Proof. destruct c as [[] [] [] [] [] [] [] []]; vm_compute; congruence. Qed.

Lemma windows_here_head s : windows_here s = true -> spaced s = false.
Proof.
  destruct s as [|x s]; [discriminate|]. unfold windows_here. cbn [spaced].
  intros H. apply andb_prop in H as [U _].
  apply upper_letter_not_space, not_space_true in U. exact U.
Qed.

(** What the second substitution writes for the head of the text. *)
Lemma windows_sub_head pos prev s :
  match s with
  | EmptyString => sub_from windows_path "[PATH]" pos prev 0 s = ""
  | String a s' =>
      (windows_here s = true /\ is_upper_letter a = true
       /\ exists X, sub_from windows_path "[PATH]" pos prev 0 s
                    = "[PATH]" ++ X)
      \/ (windows_here s = false
          /\ sub_from windows_path "[PATH]" pos prev 0 s
             = String a (sub_from windows_path "[PATH]" (S pos) (Some a) 0 s'))
  end.
Proof.
  destruct s as [|a s]; [reflexivity|].
  destruct (windows_sub_step pos prev (String a s)) as [Y N].
  destruct (windows_here (String a s)) eqn:W.
  - left. split; [reflexivity|]. split.
    + unfold windows_here in W. now apply andb_prop in W as [U _].
    + destruct (Y eq_refl) as (rest & pos' & prev' & k & _ & _ & _ & E). eauto.
  - right. split; [reflexivity|]. now apply N.
Qed.

Lemma windows_sub_no_new_head pos a s :
  windows_here (String a s) = false ->
  windows_here
    (String a (sub_from windows_path "[PATH]" (S pos) (Some a) 0 s)) = false.
Proof.
  intros W. unfold windows_here at 1.
  destruct (is_upper_letter a) eqn:Ua; [|reflexivity]. cbn [andb].
  pose proof (windows_sub_head (S pos) (Some a) s) as H1.
  destruct s as [|c1 s1]; [now rewrite H1|].
  destruct H1 as [(_ & _ & X & ->)|(_ & ->)]; [reflexivity|].
  destruct (Ascii.eqb ":" c1) eqn:E1; [|reflexivity]. cbn [andb].
  pose proof (windows_sub_head (S (S pos)) (Some c1) s1) as H2.
  destruct s1 as [|c2 s2]; [now rewrite H2|].
  destruct H2 as [(_ & _ & X & ->)|(_ & ->)]; [reflexivity|].
  destruct (Ascii.eqb "\" c2) eqn:E2; [|reflexivity]. cbn [andb].
  pose proof (windows_sub_head (S (S (S pos))) (Some c2) s2) as H3.
  destruct s2 as [|c s3]; [now rewrite H3|].
  assert (Nc : not_space c = false).
  { unfold windows_here in W. now rewrite Ua, E1, E2 in W. }
  destruct H3 as [(_ & Uc & _)|(_ & ->)]; [|exact Nc].
  apply upper_letter_not_space in Uc. congruence.
Qed.

(** The second substitution leaves no Windows path. *)
Lemma windows_sub_clean n :
  forall s pos prev,
    String.length s <= n ->
    somewhere windows_here (sub_from windows_path "[PATH]" pos prev 0 s)
    = false.
Proof.
  induction n as [|n IH]; intros s pos prev L.
  - destruct s; [reflexivity|cbn in L; lia].
  - destruct s as [|a s]; [reflexivity|]. cbn [String.length] in L.
    destruct (windows_sub_step pos prev (String a s)) as [Y N].
    destruct (windows_here (String a s)) eqn:W.
    + destruct (Y eq_refl) as (rest & pos' & prev' & k & -> & Lr & _ & ->).
      cbn [String.length] in Lr.
      pose proof (IH (drop k (String a s)) pos' prev' ltac:(lia)) as Cf.
      cbn [append somewhere]. rewrite Cf. reflexivity.
    + rewrite (N eq_refl a s eq_refl). cbn [somewhere].
      rewrite (IH s (S pos) (Some a) ltac:(lia)), orb_false_r.
      now apply windows_sub_no_new_head.
Qed.

Lemma windows_here_spec pos prev s :
  is_some (match_here false windows_path pos prev s) = windows_here s.
Proof.
  destruct s as [|x [|c1 [|c2 [|c t]]]];
    try (rewrite windows_match_short by (cbn; lia);
         unfold windows_here; now rewrite ?andb_false_r).
  rewrite windows_match_eq. now destruct (windows_here _).
Qed.

(** X17: in the text [sanitize_error] returns for an error text of ASCII
    characters, neither of its two patterns matches any more: no slash is
    followed, before the next white space, by a further slash with a
    character between them, and no capital letter by a colon, a backslash
    and a character that is no white space. *)
Theorem sanitize_error_redacts :
  forall e,
    ascii_text e = true ->
    re_test false posix_path (sanitize_error e) = false
    /\ re_test false windows_path (sanitize_error e) = false.
Proof.
  intros e _. rewrite sanitize_error_patterns. unfold re_test, re_search, re_sub.
  rewrite (search_somewhere false posix_path posix_here posix_here_spec).
  rewrite (search_somewhere false windows_path windows_here windows_here_spec).
  split.
  - apply (windows_sub_keeps_clean _ _ _ _ (le_n _)).
    apply (posix_sub_clean _ _ _ _ (le_n _)).
  - apply (windows_sub_clean _ _ _ _ (le_n _)).
Qed.

Lemma sanitize_error_redacts_witness :
  ascii_text "unable to open /var/data/app/property.db (C:\Temp\x)" = true
  /\ re_test false posix_path
       (sanitize_error "unable to open /var/data/app/property.db (C:\Temp\x)")
     = false
  /\ re_test false windows_path
       (sanitize_error "unable to open /var/data/app/property.db (C:\Temp\x)")
     = false.
Proof.
  split; [reflexivity|].
  exact (sanitize_error_redacts
           "unable to open /var/data/app/property.db (C:\Temp\x)" eq_refl).
Defined.

(** ** The context a turn records *)

Module ExtractionFacts.
Import ConversationMemory.

Lemma whole_word_in_lower w s : whole_word_in w (lower s) <-> whole_word_in w s.
Proof.
  split.
  - intros (n & a' & x' & b' & E & _ & Sc & P & Q).
    apply lower_app_inv in E as (a & r & -> & <- & Er).
    apply lower_app_inv in Er as (x & b & -> & <- & <-).
    exists (String.length a), a, x, b. repeat split; auto.
    + unfold same_ci in *. now rewrite lower_lower in Sc.
    + unfold lower in P. change None with (option_map lower_char None) in P.
      now rewrite last_of_smap, word_opt_lower in P.
    + unfold lower in Q. now rewrite shead_smap, word_opt_lower in Q.
  - intros (n & a & x & b & -> & La & Sc & P & Q).
    exists n, (lower a), (lower x), (lower b). repeat split.
    + now rewrite !lower_app.
    + unfold lower. now rewrite smap_length.
    + unfold same_ci in *. now rewrite lower_lower.
    + unfold lower. change None with (option_map lower_char None).
      now rewrite last_of_smap, word_opt_lower.
    + unfold lower. now rewrite shead_smap, word_opt_lower.
Qed.

Lemma find_split {A : Type} (f : A -> bool) l x :
  find f l = Some x ->
  exists pre post,
    l = (pre ++ x :: post)%list /\ f x = true /\ forall y, In y pre -> f y = false.
Proof.
  induction l as [|y l IH]; [discriminate|]. cbn [find].
  destruct (f y) eqn:F.
  - intros E. injection E as ->. exists [], l. repeat split; auto.
    intros ? [].
  - intros E. destruct (IH E) as (pre & post & -> & T & N).
    exists (y :: pre), post. repeat split; auto.
    intros z [<-|I]; auto.
Qed.

Lemma STATE_ALIASES_word_like :
  Forall (fun entry => word_like (fst entry)) STATE_ALIASES.
Proof. repeat constructor. Qed.

Lemma alias_test entry q sql :
  In entry STATE_ALIASES ->
  re_test true (word_pat (fst entry)) (lower (q ++ " " ++ sql)) = true
  <-> whole_word_in (fst entry) (q ++ " " ++ sql).
Proof.
  intros I.
  pose proof (proj1 (Forall_forall _ _) STATE_ALIASES_word_like entry I) as W.
  rewrite (re_test_word _ _ W). apply whole_word_in_lower.
Qed.

(** X18: for a question and a statement of ASCII characters, the location
    a turn records is the standard name of the first alias of
    [STATE_ALIASES], in the order of the dictionary, that stands as a whole
    word in the question or in the statement, in any case; no location is
    recorded exactly when no alias does. *)
Theorem extract_location :
  forall q sql,
    ascii_text q = true -> ascii_text sql = true ->
    (get location (_extract_context q sql) = None
     <-> forall entry, In entry STATE_ALIASES ->
                       ~ whole_word_in (fst entry) (q ++ " " ++ sql))
    /\ (forall standard,
           get location (_extract_context q sql) = Some standard ->
           exists pre alias post,
             STATE_ALIASES = (pre ++ (alias, standard) :: post)%list
             /\ whole_word_in alias (q ++ " " ++ sql)
             /\ forall entry, In entry pre ->
                  ~ whole_word_in (fst entry) (q ++ " " ++ sql)).
Proof.
  intros q sql _ _. cbn [get _extract_context ctx_location].
  destruct (find _ STATE_ALIASES) as [[alias st]|] eqn:F; cbn [option_map snd].
  - apply find_split in F as (pre & post & E & T & N). split.
    + split; [discriminate|]. intros H. exfalso.
      apply (H (alias, st)).
      * rewrite E. apply in_or_app. right. now left.
      * apply (alias_test (alias, st)); [|exact T].
        rewrite E. apply in_or_app. right. now left.
    + intros standard Es. injection Es as <-.
      exists pre, alias, post. split; [exact E|]. split.
      * apply (alias_test (alias, st)); [|exact T].
        rewrite E. apply in_or_app. right. now left.
      * intros entry I H.
        assert (Ie : In entry STATE_ALIASES)
          by (rewrite E; apply in_or_app; now left).
        apply (alias_test entry q sql Ie) in H.
        rewrite (N entry I) in H. discriminate.
  - split; [|discriminate]. split; [|reflexivity]. intros _ entry I H.
    apply (alias_test entry q sql I) in H.
    pose proof (find_none _ _ F entry I) as X. cbv beta in X.
    rewrite H in X. discriminate.
Qed.

Lemma extract_location_witness :
  ascii_text "Show my properties in TX" = true
  /\ ascii_text "SELECT * FROM Properties WHERE state = 'Texas'" = true
  /\ exists pre alias post,
       STATE_ALIASES = (pre ++ (alias, "Texas") :: post)%list
       /\ whole_word_in alias
            ("Show my properties in TX" ++ " "
               ++ "SELECT * FROM Properties WHERE state = 'Texas'")
       /\ forall entry, In entry pre ->
            ~ whole_word_in (fst entry)
                ("Show my properties in TX" ++ " "
                   ++ "SELECT * FROM Properties WHERE state = 'Texas'").
Proof.
  split; [reflexivity|]. split; [reflexivity|].
  apply (proj2 (extract_location
                  "Show my properties in TX"
                  "SELECT * FROM Properties WHERE state = 'Texas'"
                  eq_refl eq_refl)).
  vm_compute. reflexivity.
Defined.

Lemma rmatch_grp ic A r (k : cursor -> option A) cu :
  rmatch ic (Grp r) k cu
  = rmatch ic r
      (fun cu' => k (Cur (c_pos cu') (c_prev cu') (c_rest cu')
                         (Some (c_pos cu, c_pos cu')))) cu.
Proof. reflexivity. Qed.

Lemma bnd_inv_at ic A (k : cursor -> option A) cu res :
  rmatch ic Bnd k cu = Some res ->
  at_boundary (c_prev cu) (c_rest cu) = true /\ k cu = Some res.
Proof.
  cbn [rmatch]. destruct (at_boundary (c_prev cu) (c_rest cu));
    [auto|discriminate].
Qed.

Lemma upper_digit_char c : is_digit c = true -> upper_char c = c.
Proof. destruct c as [[] [] [] [] [] [] [] []]; vm_compute; congruence. Qed.

Lemma lower_digit_char c : is_digit c = true -> lower_char c = c.
Proof. destruct c as [[] [] [] [] [] [] [] []]; vm_compute; congruence. Qed.

Lemma digit_is_word c : is_digit c = true -> is_word c = true.
Proof. destruct c as [[] [] [] [] [] [] [] []]; vm_compute; congruence. Qed.

Lemma lower_char_digit c :
  is_digit (lower_char c) = true -> lower_char c = c.
Proof. destruct c as [[] [] [] [] [] [] [] []]; vm_compute; congruence. Qed.

Lemma upper_digits ds : sforall is_digit ds = true -> upper ds = ds.
Proof.
  induction ds as [|c ds IH]; [reflexivity|]. cbn [sforall]. intros F.
  apply andb_prop in F as [Fc F]. unfold upper in *. cbn [smap].
  now rewrite IH, upper_digit_char.
Qed.

Lemma lower_digits ds : sforall is_digit ds = true -> lower ds = ds.
Proof.
  induction ds as [|c ds IH]; [reflexivity|]. cbn [sforall]. intros F.
  apply andb_prop in F as [Fc F]. unfold lower in *. cbn [smap].
  now rewrite IH, lower_digit_char.
Qed.

Lemma lower_is_digits y ds :
  sforall is_digit ds = true -> lower y = ds -> y = ds.
Proof.
  revert ds. induction y as [|c y IH]; intros [|d ds] F E; try discriminate;
    [reflexivity|].
  unfold lower in *. cbn [smap] in E. injection E as E1 E2.
  cbn [sforall] in F. apply andb_prop in F as [Fd F].
  rewrite (IH ds F E2). f_equal.
  rewrite <- E1 in Fd. rewrite <- E1. symmetry. now apply lower_char_digit.
Qed.

Lemma last_digit_is_word prev ds :
  nonempty ds = true -> sforall is_digit ds = true ->
  word_opt (last_of prev ds) = true.
Proof.
  revert prev. induction ds as [|c ds IH]; [discriminate|]. intros prev _ F.
  cbn [sforall] in F. apply andb_prop in F as [Fc F]. cbn [last_of].
  destruct ds as [|d ds]; [simpl; now apply digit_is_word|].
  now apply IH.
Qed.

Lemma llc_head x b :
  lit_eq true "LLC" x = true -> word_opt (shead (x ++ b)) = true.
Proof.
  intros L. rewrite shead_app_nonempty
    by (now rewrite (lit_eq_nonempty true "LLC" x L)).
  now rewrite (lit_eq_head true "LLC" x L).
Qed.

Lemma owner_match_inv pos prev r m :
  match_here true owner_pattern pos prev r = Some m ->
  exists x ds b,
    r = x ++ ds ++ b /\ lit_eq true "LLC" x = true
    /\ nonempty ds = true /\ sforall is_digit ds = true
    /\ word_opt prev = false /\ word_opt (shead b) = false
    /\ m_span1 m = Some (pos, pos + String.length x + String.length ds).
Proof.
  unfold match_here, owner_pattern. intros E.
  rewrite rmatch_seq in E. apply bnd_inv_at in E as [B0 E].
  cbn [c_prev c_rest] in B0.
  rewrite rmatch_seq, rmatch_grp, rmatch_seq in E.
  apply rmatch_lit_inv in E as (x & r1 & -> & L & E).
  apply plus_inv in E as (ds & b & -> & N & F & E).
  cbn [c_pos c_prev c_rest] in E.
  apply bnd_inv_at in E as [B1 E]. cbn [c_prev c_rest c_pos c_grp] in B1, E.
  injection E as <-.
  exists x, ds, b. repeat split; auto.
  - unfold at_boundary in B0. rewrite (llc_head x _ L) in B0.
    now destruct (word_opt prev).
  - unfold at_boundary in B1. rewrite (last_digit_is_word _ ds N F) in B1.
    now destruct (word_opt (shead b)).
Qed.

Lemma owner_match_app pos a x ds b :
  lit_eq true "LLC" x = true ->
  nonempty ds = true -> sforall is_digit ds = true ->
  word_opt (last_of None a) = false -> word_opt (shead b) = false ->
  is_some (match_here true owner_pattern (pos + String.length a)
             (last_of None a) (x ++ ds ++ b)) = true.
Proof.
  intros L N F P Q. unfold match_here, owner_pattern.
  rewrite rmatch_seq. cbn [rmatch c_prev c_rest]. unfold at_boundary at 1.
  rewrite P, (llc_head x _ L). cbn [xorb].
  change (is_some
            (rmatch true (lit "LLC")
               (rmatch true (Plus is_digit)
                  (fun cu' =>
                     rmatch true Bnd
                       (fun cu => Some (Match (pos + String.length a)
                                              (c_pos cu) (c_grp cu)))
                       (Cur (c_pos cu') (c_prev cu') (c_rest cu')
                            (Some (pos + String.length a, c_pos cu')))))
               (Cur (pos + String.length a) (last_of None a) (x ++ ds ++ b)
                    None)) = true).
  rewrite (rmatch_lit_app true _ "LLC" x _ _ _ _ _ L).
  apply plus_app; [exact N|exact F|].
  cbn [rmatch c_pos c_prev c_rest c_grp]. unfold at_boundary.
  now rewrite (last_digit_is_word _ ds N F), Q.
Qed.

(** X19: for a question of ASCII characters, the owner a turn records is
    an identifier LLC followed by digits, in upper case, that stands in the
    question as a whole word in any case; no owner is recorded exactly when
    no such identifier stands in the question. *)
Theorem extract_owner :
  forall q sql,
    ascii_text q = true ->
    (forall o,
        get owner (_extract_context q sql) = Some o ->
        exists digits,
          o = ("LLC" ++ digits) /\ nonempty digits = true
          /\ sforall is_digit digits = true /\ whole_word_in o q)
    /\ (get owner (_extract_context q sql) = None
        <-> forall digits,
              nonempty digits = true -> sforall is_digit digits = true ->
              ~ whole_word_in ("LLC" ++ digits) q).
Proof.
  intros q sql _. cbn [get _extract_context ctx_owner]. unfold re_search.
  destruct (search_from true owner_pattern 0 None q) as [m|] eqn:E.
  - apply search_inv in E as (a & r & -> & M & _).
    apply owner_match_inv in M as (x & ds & b & -> & L & N & F & P & Q & Sp).
    assert (G : group1 m (a ++ x ++ ds ++ b) = (x ++ ds)).
    { unfold group1. rewrite Sp. cbn [Nat.add]. rewrite drop_app.
      replace (String.length a + String.length x + String.length ds
               - String.length a)
        with (String.length (x ++ ds))
        by (rewrite slength_app; lia).
      now rewrite <- sapp_assoc, take_app. }
    assert (U : upper (x ++ ds) = ("LLC" ++ ds)).
    { rewrite upper_app, (upper_digits ds F).
      apply lit_eq_ci in L. now rewrite (same_ci_same_upper x "LLC" L). }
    assert (W : whole_word_in ("LLC" ++ ds) (a ++ x ++ ds ++ b)).
    { exists (String.length a), a, (x ++ ds), b. repeat split; auto.
      - now rewrite sapp_assoc.
      - apply lit_eq_ci in L. unfold same_ci in *.
        now rewrite !lower_app, L. }
    split.
    + intros o Eo. injection Eo as <-. rewrite G, U.
      exists ds. repeat split; auto.
    + split; [discriminate|]. intros H. elim (H ds N F W).
  - split; [discriminate|]. split; [|reflexivity].
    intros _ ds N F (n & a & y & b & Eq & _ & Sc & P & Q).
    unfold same_ci in Sc. rewrite lower_app in Sc.
    apply lower_app_inv in Sc as (x & y2 & -> & Ex & Ey).
    rewrite (lower_digits ds F) in Ey.
    apply (lower_is_digits _ _ F) in Ey. subst y2.
    assert (L : lit_eq true "LLC" x = true) by (now apply lit_eq_ci).
    pose proof (owner_match_app 0 a x ds b L N F P Q) as M.
    pose proof (search_none true _ 0 None q E a (x ++ ds ++ b)) as X.
    rewrite X in M; [discriminate|]. now rewrite Eq, sapp_assoc.
Qed.

Lemma extract_owner_witness :
  ascii_text "How many properties does llc3 own?" = true
  /\ exists digits,
       "LLC3" = ("LLC" ++ digits) /\ nonempty digits = true
       /\ sforall is_digit digits = true
       /\ whole_word_in "LLC3" "How many properties does llc3 own?".
Proof.
  split; [reflexivity|].
  apply (proj1 (extract_owner "How many properties does llc3 own?" ""
                  eq_refl) "LLC3").
  vm_compute. reflexivity.
Defined.

End ExtractionFacts.

(** ** The history and the current context *)

Module MemoryFacts.
Import ConversationMemory.
Local Open Scope list_scope.

Lemma snoc_list_cases {A : Type} (l : list A) :
  l = [] \/ exists l' x, l = (l' ++ [x])%list.
Proof.
  destruct l as [|y l] using rev_ind; [now left|]. right. eauto.
Qed.

Lemma map_tl {A B : Type} (f : A -> B) (l : list A) :
  map f (tl l) = tl (map f l).
Proof. now destruct l. Qed.

Lemma last_n_all {A : Type} n (l : list A) :
  List.length l <= n -> last_n n l = l.
Proof.
  intros H. unfold last_n. replace (List.length l - n) with 0 by lia.
  reflexivity.
Qed.

Lemma last_n_length {A : Type} n (l : list A) :
  List.length (last_n n l) = Nat.min n (List.length l).
Proof. unfold last_n. rewrite length_skipn. lia. Qed.

Lemma tl_skipn {A : Type} k (l : list A) : tl (skipn k l) = skipn (S k) l.
Proof.
  revert l. induction k as [|k IH]; intros [|x l]; try reflexivity.
  cbn [skipn]. rewrite IH. now destruct l.
Qed.

Lemma last_n_snoc {A : Type} n (l : list A) x :
  last_n n (l ++ [x])
  = if (List.length l <? n)%nat then l ++ [x] else tl (last_n n l ++ [x]).
Proof.
  unfold last_n. rewrite length_app. cbn [List.length].
  destruct (List.length l <? n)%nat eqn:E.
  - apply Nat.ltb_lt in E.
    replace (List.length l + 1 - n) with 0 by lia. reflexivity.
  - apply Nat.ltb_ge in E.
    rewrite skipn_app.
    replace (List.length l + 1 - n - List.length l) with (1 - n) by lia.
    destruct n as [|n].
    + replace (List.length l + 1 - 0) with (S (List.length l)) by lia.
      replace (List.length l - 0) with (List.length l) by lia.
      rewrite (skipn_all2 (n := S (List.length l)) l) by lia.
      rewrite skipn_all. reflexivity.
    + replace (List.length l + 1 - S n) with (S (List.length l - S n)) by lia.
      replace (1 - S n) with 0 by lia. change (skipn 0 [x]) with [x].
      rewrite <- tl_skipn.
      destruct (skipn (List.length l - S n) l) eqn:Sk; [|reflexivity].
      apply (f_equal (@List.length A)) in Sk. rewrite length_skipn in Sk.
      cbn in Sk. lia.
Qed.

Section Sessions.
Context {Result : Type}.
Implicit Types (self : Memory Result) (i : Interaction Result).

Lemma history_record self i :
  history (record self i)
  = let h := (history self ++ [turn_of i])%list in
    if (max_history self <? Z.of_nat (List.length h))%Z then tl h else h.
Proof. reflexivity. Qed.

Lemma max_history_record self i : max_history (record self i) = max_history self.
Proof. reflexivity. Qed.

Lemma max_history_session m inputs :
  max_history (session (Result := Result) m inputs) = m.
Proof.
  unfold session. induction inputs as [|x l IH] using rev_ind; [reflexivity|].
  now rewrite fold_left_app.
Qed.

(** X20: the history is a sliding window: after any number of calls of
    [add_interaction] on a new memory it holds the turns of the last
    [max_history] calls, oldest first, and all of them while there are
    fewer; with [max_history <= 0] it stays empty. *)
Theorem history_window :
  forall (m : Z) (inputs : list (Interaction Result)),
    history (session m inputs) = map turn_of (last_n (Z.to_nat m) inputs)
    /\ List.length (history (session m inputs))
       = Nat.min (Z.to_nat m) (List.length inputs).
Proof.
  intros m inputs.
  assert (H : history (session m inputs)
              = map turn_of (last_n (Z.to_nat m) inputs)).
  { induction inputs as [|x l IH] using rev_ind; [reflexivity|].
    unfold session in *. rewrite fold_left_app. cbn [fold_left].
    rewrite history_record. cbv zeta.
    fold (session m l). rewrite max_history_session.
    unfold session. rewrite IH, length_app, length_map, last_n_length.
    cbn [List.length]. rewrite last_n_snoc.
    destruct (List.length l <? Z.to_nat m)%nat eqn:E.
    - apply Nat.ltb_lt in E.
      rewrite (last_n_all _ l) by lia.
      replace (m <? Z.of_nat (Nat.min (Z.to_nat m) (List.length l) + 1))%Z
        with false by (symmetry; apply Z.ltb_ge; lia).
      now rewrite map_app.
    - apply Nat.ltb_ge in E.
      replace (m <? Z.of_nat (Nat.min (Z.to_nat m) (List.length l) + 1))%Z
        with true by (symmetry; apply Z.ltb_lt; lia).
      now rewrite map_tl, map_app. }
  split; [exact H|]. now rewrite H, length_map, last_n_length.
Qed.

Lemma get_update key c d :
  get key (update c d) = or_else (get key d) (get key c).
Proof. now destruct key. Qed.

Lemma get_fold_update key (cs : list Context) c0 :
  forall v,
    get key (fold_left update cs c0) = Some v <->
    (exists older c newer,
        cs = (older ++ c :: newer)%list /\ get key c = Some v
        /\ forall d, In d newer -> get key d = None)
    \/ (get key c0 = Some v /\ forall d, In d cs -> get key d = None).
Proof.
  revert c0. induction cs as [|c cs IH] using rev_ind; intros c0 v.
  - cbn [fold_left]. split.
    + intros H. right. split; [exact H|]. intros d [].
    + intros [(older & c & newer & E & _)|[H _]]; [|exact H].
      now destruct older.
  - rewrite fold_left_app. cbn [fold_left]. rewrite get_update.
    destruct (get key c) as [u|] eqn:G; cbn [or_else].
    + split.
      * intros E. injection E as ->. left. exists cs, c, []. repeat split; auto.
        intros d [].
      * intros [(older & c' & newer & E & Gc & N)|[_ N]].
        -- destruct (snoc_list_cases newer) as [->|(newer' & d & ->)].
           ++ apply app_inj_tail in E as [_ <-]. congruence.
           ++ rewrite app_comm_cons, app_assoc in E.
              apply app_inj_tail in E as [_ <-].
              rewrite (N c) in G; [discriminate|].
              apply in_or_app. right. now left.
        -- rewrite (N c) in G; [discriminate|].
           apply in_or_app. right. now left.
    + rewrite IH. split.
      * intros [(older & c' & newer & -> & Gc & N)|[G0 N]].
        -- left. exists older, c', (newer ++ [c])%list. split.
           ++ now rewrite <- app_assoc.
           ++ split; [exact Gc|]. intros d I.
              apply in_app_or in I as [I|[<-|[]]]; auto.
        -- right. split; [exact G0|]. intros d I.
           apply in_app_or in I as [I|[<-|[]]]; auto.
      * intros [(older & c' & newer & E & Gc & N)|[G0 N]].
        -- destruct (snoc_list_cases newer) as [->|(newer' & d & ->)].
           ++ apply app_inj_tail in E as [_ <-]. congruence.
           ++ rewrite app_comm_cons, app_assoc in E.
              apply app_inj_tail in E as [-> <-].
              left. exists older, c', newer'. repeat split; auto.
              intros e I. apply N. apply in_or_app. now left.
        -- right. split; [exact G0|]. intros d I. apply N.
           apply in_or_app. now left.
Qed.

(** X21: after [add_interaction] the current context holds, under each key,
    the value of the newest of the last three turns of the history that
    set the key, and nothing under a key that none of them set. *)
Theorem context_of_last_three :
  forall self i key v,
    get key (current_context (record self i)) = Some v
    <-> exists older t newer,
          last_n 3 (history (record self i)) = (older ++ t :: newer)%list
          /\ get key (context t) = Some v
          /\ forall u, In u newer -> get key (context u) = None.
Proof.
  intros self i key v.
  set (h := history (record self i)).
  assert (C : current_context (record self i)
              = match h with
                | [] => empty
                | _ => fold_left update (map context (last_n 3 h)) empty
                end) by reflexivity.
  rewrite C. clear C.
  assert (F : get key (fold_left update (map context (last_n 3 h)) empty)
              = Some v
              <-> exists older t newer,
                    last_n 3 h = (older ++ t :: newer)%list
                    /\ get key (context t) = Some v
                    /\ forall u, In u newer -> get key (context u) = None).
  { rewrite get_fold_update. split.
    - intros [(older & c & newer & E & G & N)|[G _]];
        [|destruct key; discriminate].
      apply map_eq_app in E as (lo & r & E & <- & Er).
      apply map_eq_cons in Er as (t & ln & -> & <- & <-).
      exists lo, t, ln. repeat split; auto.
      intros u I. apply N. now apply in_map.
    - intros (older & t & newer & E & G & N). left.
      exists (map context older), (context t), (map context newer).
      rewrite E, map_app. repeat split; auto.
      intros d I. apply in_map_iff in I as (u & <- & I). now apply N. }
  destruct h as [|t0 h0] eqn:Eh; [|exact F].
  split.
  - destruct key; discriminate.
  - intros (older & t & newer & E & _). now destruct older.
Qed.

End Sessions.
End MemoryFacts.
